(** * luagcrypt: the Lua binding of libgcrypt, embedded in Rocq

    This development follows [luagcrypt.c].  The C functions of the binding
    become computations in a state-and-error monad over a world made of the
    Lua state (value stack and userdata store) and the state of libgcrypt
    (open cipher and digest contexts, the [gcry_malloc] heap, the
    initialisation flags, the log of the calls made into the library).

    libgcrypt and the Lua runtime are external to the binding.  Their
    cryptographic functions and their allocation decisions are kept abstract
    in two interfaces, [Gcrypt] and [LuaHost]; their resource discipline
    (open/close, malloc/free, the stack) is written out. *)

From Stdlib Require Import ZArith String List Bool Lia Strings.Byte.
From stdpp Require Import base option strings gmap list.

Open Scope Z_scope.

(** ** C data *)

Definition bytes := list byte.

(** [gcry_error_t] is an unsigned code, [GPG_ERR_NO_ERROR] is zero. *)
Definition gcry_error_t := Z.
Definition GPG_ERR_NO_ERROR : gcry_error_t := 0.

(** The casts [(int)] and [(unsigned int)] of a [lua_Integer]. *)
Definition int_of (z : Z) : Z := (z + 2 ^ 31) mod 2 ^ 32 - 2 ^ 31.
Definition uint_of (z : Z) : Z := z mod 2 ^ 32.

(** [typedef struct { gcry_cipher_hd_t h; unsigned char *out; } LgcryptCipher;]
    A pointer is [None] when it is [NULL]. *)
Record LgcryptCipher := mkCipher {
  cipher_h : option nat;
  cipher_out : option nat
}.

(** [typedef struct { gcry_md_hd_t h; } LgcryptHash;] *)
Record LgcryptHash := mkHash {
  hash_h : option nat
}.

(** A userdata block together with the metatable that tags it:
    ["gcrypt.Cipher"] or ["gcrypt.Hash"]. *)
Inductive Udata :=
| UCipher (c : LgcryptCipher)
| UHash (s : LgcryptHash).

Definition sizeof_LgcryptCipher : nat := 16.
Definition sizeof_LgcryptHash : nat := 8.

(** ** The Lua side *)

Inductive LuaValue :=
| LNil
| LBoolean (b : bool)
| LInteger (n : Z)
| LString (s : bytes)
| LUserdata (u : nat).

(** The stack of the running C function (bottom first, so that index [i]
    of the C API is position [i - 1]) and the store of userdata blocks. *)
Record lua_State := mkLua {
  stack : list LuaValue;
  udata : gmap nat Udata
}.

(** What [lua_error] carries: a message built by [luaL_error] from a format
    and its arguments, an argument error of a [luaL_check*] accessor, or the
    memory error of the runtime. *)
Inductive LuaError :=
| ErrMsg (fmt : string) (args : list string)
| ErrArg (narg : nat) (expected : string)
| ErrMem.

(** The parts of the runtime the binding cannot see: whether an allocation
    of the runtime succeeds, and the coercions between numbers and strings
    that the [luaL_check*] accessors apply. *)
Class LuaHost := {
  lua_alloc : lua_State -> nat -> bool;
  lua_number_of_string : bytes -> option Z;
  lua_string_of_number : Z -> bytes
}.

(** ** libgcrypt *)

Inductive Control :=
| GCRYCTL_INITIALIZATION_FINISHED_P
| GCRYCTL_DISABLE_SECMEM
| GCRYCTL_INITIALIZATION_FINISHED.

(** The calls that cross the boundary, in the order they are made. *)
Inductive Event :=
| Ev_control (c : Control)
| Ev_check_version
| Ev_cipher_open (algo mode flags : Z)
| Ev_cipher_close (hd : nat)
| Ev_cipher_setkey (hd : nat) (key : bytes)
| Ev_cipher_setiv (hd : nat) (iv : bytes)
| Ev_cipher_reset (hd : nat)
| Ev_cipher_encrypt (hd out : nat) (outsize : nat) (inp : bytes)
| Ev_cipher_decrypt (hd out : nat) (outsize : nat) (inp : bytes)
| Ev_malloc (n : nat) (r : option nat)
| Ev_free (p : nat)
| Ev_md_open (algo flags : Z)
| Ev_md_close (hd : nat)
| Ev_md_setkey (hd : nat) (key : bytes)
| Ev_md_reset (hd : nat)
| Ev_md_write (hd : nat) (buf : bytes)
| Ev_md_get_algo (hd : nat)
| Ev_md_is_enabled (hd : nat) (algo : Z)
| Ev_md_get_algo_dlen (algo : Z)
| Ev_md_read (hd : nat) (algo : Z)
| Ev_pushlstring (s : bytes).

(** The library as the binding consumes it.  A context is a value of an
    abstract type that each call maps to a status, a new context and, for
    encryption and decryption, the bytes written to the output buffer. *)
Class Gcrypt := {
  cctx : Type;
  mctx : Type;
  cipher_open_fn : Z -> Z -> Z -> gcry_error_t * cctx;
  cipher_setkey_fn : cctx -> bytes -> gcry_error_t * cctx;
  cipher_setiv_fn : cctx -> bytes -> gcry_error_t * cctx;
  cipher_reset_fn : cctx -> gcry_error_t * cctx;
  cipher_encrypt_fn : cctx -> nat -> bytes -> gcry_error_t * cctx * bytes;
  cipher_decrypt_fn : cctx -> nat -> bytes -> gcry_error_t * cctx * bytes;
  md_open_fn : Z -> Z -> gcry_error_t * mctx;
  md_setkey_fn : mctx -> bytes -> gcry_error_t * mctx;
  md_reset_fn : mctx -> mctx;
  md_write_fn : mctx -> bytes -> mctx;
  md_get_algo_fn : mctx -> Z;
  md_is_enabled_fn : mctx -> Z -> bool;
  md_get_algo_dlen_fn : Z -> nat;
  md_read_fn : mctx -> Z -> option bytes * mctx;
  strerror_fn : gcry_error_t -> string;
  malloc_ok : gmap nat bytes -> nat -> bool;
  malloc_junk : nat -> byte
}.

Section Binding.
Context {GC : Gcrypt} {LH : LuaHost}.

(** The state of the library: the open contexts and the live blocks of
    [gcry_malloc], each under its address, and the two flags that
    [gcry_control] sets. *)
Record GcryState := mkGcry {
  cipher_ctx : gmap nat cctx;
  md_ctx : gmap nat mctx;
  heap : gmap nat bytes;
  init_finished : bool;
  secmem_disabled : bool
}.

Record World := mkWorld {
  lua : lua_State;
  gcry : GcryState;
  calls : list Event
}.

Definition set_cipher_ctx (m : gmap nat cctx) (g : GcryState) : GcryState :=
  mkGcry m (md_ctx g) (heap g) (init_finished g) (secmem_disabled g).
Definition set_md_ctx (m : gmap nat mctx) (g : GcryState) : GcryState :=
  mkGcry (cipher_ctx g) m (heap g) (init_finished g) (secmem_disabled g).
Definition set_heap (m : gmap nat bytes) (g : GcryState) : GcryState :=
  mkGcry (cipher_ctx g) (md_ctx g) m (init_finished g) (secmem_disabled g).
Definition set_init_finished (b : bool) (g : GcryState) : GcryState :=
  mkGcry (cipher_ctx g) (md_ctx g) (heap g) b (secmem_disabled g).
Definition set_secmem_disabled (b : bool) (g : GcryState) : GcryState :=
  mkGcry (cipher_ctx g) (md_ctx g) (heap g) (init_finished g) b.

(** ** The monad of C functions

    A C function of the binding returns normally, leaves by [lua_error]
    (a [longjmp] to the protected call), or has no defined behaviour. *)
Inductive Outcome (A : Type) :=
| Ok (a : A) (w : World)
| Raise (e : LuaError) (w : World)
| Crash (why : string).
Global Arguments Ok {A} a w.
Global Arguments Raise {A} e w.
Global Arguments Crash {A} why.

Definition M (A : Type) : Type := World -> Outcome A.

Global Instance M_ret : MRet M := fun A a w => Ok a w.
Global Instance M_bind : MBind M := fun A B f m w =>
  match m w with
  | Ok a w' => f a w'
  | Raise e w' => Raise e w'
  | Crash why => Crash why
  end.

Definition raise {A} (e : LuaError) : M A := fun w => Raise e w.
Definition crash {A} (why : string) : M A := fun _ => Crash why.
Definition get_lua : M lua_State := fun w => Ok (lua w) w.
Definition put_lua (l : lua_State) : M unit :=
  fun w => Ok tt (mkWorld l (gcry w) (calls w)).
Definition get_gcry : M GcryState := fun w => Ok (gcry w) w.
Definition put_gcry (g : GcryState) : M unit :=
  fun w => Ok tt (mkWorld (lua w) g (calls w)).
Definition log (ev : Event) : M unit :=
  fun w => Ok tt (mkWorld (lua w) (gcry w) (calls w ++ [ev])).

(** ** The Lua C API, as far as the binding uses it *)

(** The value at a stack index, if there is one. *)
Definition index2adr (narg : nat) : M (option LuaValue) :=
  l ← get_lua; mret (stack l !! pred narg).

Definition lua_push (v : LuaValue) : M unit :=
  l ← get_lua; put_lua (mkLua (stack l ++ [v]) (udata l)).

Definition lua_pop (n : nat) : M unit :=
  l ← get_lua;
  put_lua (mkLua (take (length (stack l) - n)%nat (stack l)) (udata l)).

(** [luaL_error] formats its message and does not return. *)
Definition luaL_error {A} (fmt : string) (args : list string) : M A :=
  raise (ErrMsg fmt args).

Definition luaL_checkinteger (narg : nat) : M Z :=
  v ← index2adr narg;
  match v with
  | Some (LInteger n) => mret n
  | Some (LString s) =>
      match lua_number_of_string s with
      | Some n => mret n
      | None => raise (ErrArg narg "number expected")
      end
  | _ => raise (ErrArg narg "number expected")
  end.

(** [#define luaL_checkint(L,n) ((int)luaL_checkinteger(L,n))] *)
Definition luaL_checkint (narg : nat) : M Z :=
  n ← luaL_checkinteger narg; mret (int_of n).

Definition luaL_optinteger (narg : nat) (def : Z) : M Z :=
  v ← index2adr narg;
  match v with
  | None | Some LNil => mret def
  | _ => luaL_checkinteger narg
  end.

(** A number at the index is converted to a string in place. *)
Definition luaL_checklstring (narg : nat) : M bytes :=
  v ← index2adr narg;
  match v with
  | Some (LString s) => mret s
  | Some (LInteger n) =>
      let s := lua_string_of_number n in
      l ← get_lua;
      put_lua (mkLua (<[pred narg := LString s]> (stack l)) (udata l));;
      mret s
  | _ => raise (ErrArg narg "string expected")
  end.

Definition tname_of (d : Udata) : string :=
  match d with
  | UCipher _ => "gcrypt.Cipher"
  | UHash _ => "gcrypt.Hash"
  end.

(** The address of the block when the value at the index is a userdata
    tagged [tname]; it raises otherwise. *)
Definition luaL_checkudata (narg : nat) (tname : string) : M nat :=
  v ← index2adr narg;
  l ← get_lua;
  match v with
  | Some (LUserdata u) =>
      match udata l !! u with
      | Some d =>
          if String.eqb (tname_of d) tname then mret u
          else raise (ErrArg narg tname)
      | None => crash "userdata block already collected"
      end
  | _ => raise (ErrArg narg tname)
  end.

(** [lua_newuserdata] allocates a block and pushes it; here the block comes
    with its first contents and its metatable. *)
Definition lua_newuserdata (size : nat) (d : Udata) : M nat :=
  l ← get_lua;
  if lua_alloc l size then
    let u := fresh (dom (udata l)) in
    put_lua (mkLua (stack l ++ [LUserdata u]) (<[u := d]> (udata l)));;
    mret u
  else raise ErrMem.

(** [lua_pushlstring(L, s, len)] copies [len] bytes that start at [s] into
    a new Lua string. *)
Definition lua_pushlstring (s : bytes) (len : nat) : M unit :=
  if (len <=? length s)%nat then
    l ← get_lua;
    if lua_alloc l len then
      log (Ev_pushlstring (take len s));;
      lua_push (LString (take len s))
    else raise ErrMem
  else crash "lua_pushlstring reads past the end of the buffer".

(** Reading and writing the struct behind a [LgcryptCipher *] or a
    [LgcryptHash *]. *)
Definition load_cipher (state : nat) : M LgcryptCipher :=
  l ← get_lua;
  match udata l !! state with
  | Some (UCipher c) => mret c
  | _ => crash "not a LgcryptCipher"
  end.

Definition store_cipher (state : nat) (c : LgcryptCipher) : M unit :=
  l ← get_lua; put_lua (mkLua (stack l) (<[state := UCipher c]> (udata l))).

Definition load_hash (state : nat) : M LgcryptHash :=
  l ← get_lua;
  match udata l !! state with
  | Some (UHash s) => mret s
  | _ => crash "not a LgcryptHash"
  end.

Definition store_hash (state : nat) (s : LgcryptHash) : M unit :=
  l ← get_lua; put_lua (mkLua (stack l) (<[state := UHash s]> (udata l))).

(** ** The calls into libgcrypt *)

Definition gcry_strerror (err : gcry_error_t) : string := strerror_fn err.

(** [gcry_malloc(n)]: a fresh block of [n] bytes with unspecified contents,
    or [NULL]. *)
Definition gcry_malloc (n : nat) : M (option nat) :=
  g ← get_gcry;
  if malloc_ok (heap g) n then
    let p := fresh (dom (heap g)) in
    put_gcry (set_heap (<[p := map malloc_junk (seq 0 n)]> (heap g)) g);;
    log (Ev_malloc n (Some p));;
    mret (Some p)
  else
    log (Ev_malloc n None);;
    mret None.

(** [gcry_free(p)] does nothing on [NULL]; freeing a block that is not live
    is a double free. *)
Definition gcry_free (p : option nat) : M unit :=
  match p with
  | None => mret tt
  | Some a =>
      g ← get_gcry;
      match heap g !! a with
      | Some _ =>
          put_gcry (set_heap (delete a (heap g)) g);;
          log (Ev_free a)
      | None => crash "gcry_free of a block that is not live"
      end
  end.

(** The block behind a pointer into the [gcry_malloc] heap. *)
Definition load_block (p : option nat) : M bytes :=
  g ← get_gcry;
  match p with
  | Some a =>
      match heap g !! a with
      | Some b => mret b
      | None => crash "read of a block that is not live"
      end
  | None => crash "read through NULL"
  end.

(** The bytes of a block after [written] bytes were stored at its start. *)
Definition store_bytes (old written : bytes) : bytes :=
  take (length old) (written ++ drop (length written) old).

(** The context behind a cipher handle; a [NULL] or a closed handle has
    none. *)
Definition cipher_of (h : option nat) : M (nat * cctx) :=
  g ← get_gcry;
  match h with
  | Some hd =>
      match cipher_ctx g !! hd with
      | Some c => mret (hd, c)
      | None => crash "cipher handle used after gcry_cipher_close"
      end
  | None => crash "NULL cipher handle"
  end.

Definition put_cipher (hd : nat) (c : cctx) : M unit :=
  g ← get_gcry; put_gcry (set_cipher_ctx (<[hd := c]> (cipher_ctx g)) g).

(** [gcry_cipher_open(&state->h, algo, mode, flags)]: the handle is written
    through the pointer, and is [NULL] when the call fails. *)
Definition gcry_cipher_open (state : nat) (algo mode flags : Z)
  : M gcry_error_t :=
  log (Ev_cipher_open algo mode flags);;
  let '(err, c) := cipher_open_fn algo mode flags in
  st ← load_cipher state;
  if err =? GPG_ERR_NO_ERROR then
    g ← get_gcry;
    let hd := fresh (dom (cipher_ctx g)) in
    put_cipher hd c;;
    store_cipher state (mkCipher (Some hd) (cipher_out st));;
    mret err
  else
    store_cipher state (mkCipher None (cipher_out st));;
    mret err.

Definition gcry_cipher_close (h : option nat) : M unit :=
  match h with
  | None => mret tt
  | Some hd =>
      g ← get_gcry;
      match cipher_ctx g !! hd with
      | Some _ =>
          put_gcry (set_cipher_ctx (delete hd (cipher_ctx g)) g);;
          log (Ev_cipher_close hd)
      | None => crash "gcry_cipher_close of a handle that is not open"
      end
  end.

Definition gcry_cipher_setkey (h : option nat) (key : bytes)
  : M gcry_error_t :=
  '(hd, c) ← cipher_of h;
  log (Ev_cipher_setkey hd key);;
  let '(err, c') := cipher_setkey_fn c key in
  put_cipher hd c';;
  mret err.

Definition gcry_cipher_setiv (h : option nat) (iv : bytes)
  : M gcry_error_t :=
  '(hd, c) ← cipher_of h;
  log (Ev_cipher_setiv hd iv);;
  let '(err, c') := cipher_setiv_fn c iv in
  put_cipher hd c';;
  mret err.

Definition gcry_cipher_reset (h : option nat) : M gcry_error_t :=
  '(hd, c) ← cipher_of h;
  log (Ev_cipher_reset hd);;
  let '(err, c') := cipher_reset_fn c in
  put_cipher hd c';;
  mret err.

(** [gcry_cipher_encrypt(h, out, outsize, in, inlen)]; [inlen] is the length
    of [inp]. *)
Definition gcry_cipher_encrypt (h out : option nat) (outsize : nat)
    (inp : bytes) : M gcry_error_t :=
  '(hd, c) ← cipher_of h;
  old ← load_block out;
  let a := default 0%nat out in
  log (Ev_cipher_encrypt hd a outsize inp);;
  let '(err, c', written) := cipher_encrypt_fn c outsize inp in
  put_cipher hd c';;
  g ← get_gcry;
  put_gcry (set_heap (<[a := store_bytes old written]> (heap g)) g);;
  mret err.

Definition gcry_cipher_decrypt (h out : option nat) (outsize : nat)
    (inp : bytes) : M gcry_error_t :=
  '(hd, c) ← cipher_of h;
  old ← load_block out;
  let a := default 0%nat out in
  log (Ev_cipher_decrypt hd a outsize inp);;
  let '(err, c', written) := cipher_decrypt_fn c outsize inp in
  put_cipher hd c';;
  g ← get_gcry;
  put_gcry (set_heap (<[a := store_bytes old written]> (heap g)) g);;
  mret err.

Definition md_of (h : option nat) : M (nat * mctx) :=
  g ← get_gcry;
  match h with
  | Some hd =>
      match md_ctx g !! hd with
      | Some c => mret (hd, c)
      | None => crash "digest handle used after gcry_md_close"
      end
  | None => crash "NULL digest handle"
  end.

Definition put_md (hd : nat) (c : mctx) : M unit :=
  g ← get_gcry; put_gcry (set_md_ctx (<[hd := c]> (md_ctx g)) g).

Definition gcry_md_open (state : nat) (algo flags : Z) : M gcry_error_t :=
  log (Ev_md_open algo flags);;
  let '(err, c) := md_open_fn algo flags in
  if err =? GPG_ERR_NO_ERROR then
    g ← get_gcry;
    let hd := fresh (dom (md_ctx g)) in
    put_md hd c;;
    store_hash state (mkHash (Some hd));;
    mret err
  else
    store_hash state (mkHash None);;
    mret err.

Definition gcry_md_close (h : option nat) : M unit :=
  match h with
  | None => mret tt
  | Some hd =>
      g ← get_gcry;
      match md_ctx g !! hd with
      | Some _ =>
          put_gcry (set_md_ctx (delete hd (md_ctx g)) g);;
          log (Ev_md_close hd)
      | None => crash "gcry_md_close of a handle that is not open"
      end
  end.

Definition gcry_md_setkey (h : option nat) (key : bytes) : M gcry_error_t :=
  '(hd, c) ← md_of h;
  log (Ev_md_setkey hd key);;
  let '(err, c') := md_setkey_fn c key in
  put_md hd c';;
  mret err.

Definition gcry_md_reset (h : option nat) : M unit :=
  '(hd, c) ← md_of h;
  log (Ev_md_reset hd);;
  put_md hd (md_reset_fn c).

Definition gcry_md_write (h : option nat) (buffer : bytes) : M unit :=
  '(hd, c) ← md_of h;
  log (Ev_md_write hd buffer);;
  put_md hd (md_write_fn c buffer).

Definition gcry_md_get_algo (h : option nat) : M Z :=
  '(hd, c) ← md_of h;
  log (Ev_md_get_algo hd);;
  mret (md_get_algo_fn c).

Definition gcry_md_is_enabled (h : option nat) (algo : Z) : M bool :=
  '(hd, c) ← md_of h;
  log (Ev_md_is_enabled hd algo);;
  mret (md_is_enabled_fn c algo).

Definition gcry_md_get_algo_dlen (algo : Z) : M nat :=
  log (Ev_md_get_algo_dlen algo);;
  mret (md_get_algo_dlen_fn algo).

(** [gcry_md_read(h, algo)]: the digest, in memory that the context owns, or
    [NULL]. *)
Definition gcry_md_read (h : option nat) (algo : Z) : M (option bytes) :=
  '(hd, c) ← md_of h;
  log (Ev_md_read hd algo);;
  let '(digest, c') := md_read_fn c algo in
  put_md hd c';;
  mret digest.

(** [gcry_control]: the query [GCRYCTL_INITIALIZATION_FINISHED_P] answers
    whether [GCRYCTL_INITIALIZATION_FINISHED] was run. *)
Definition gcry_control (cmd : Control) : M Z :=
  log (Ev_control cmd);;
  g ← get_gcry;
  match cmd with
  | GCRYCTL_INITIALIZATION_FINISHED_P =>
      mret (if init_finished g then 1 else 0)
  | GCRYCTL_DISABLE_SECMEM =>
      put_gcry (set_secmem_disabled true g);; mret 0
  | GCRYCTL_INITIALIZATION_FINISHED =>
      put_gcry (set_init_finished true g);; mret 0
  end.

Definition gcry_check_version : M unit := log Ev_check_version.

(** ** Symmetric encryption *)

(** Initializes a new gcrypt.Cipher userdata and pushes it on the stack. *)
Definition lgcrypt_cipher_new : M nat :=
  lua_newuserdata sizeof_LgcryptCipher (UCipher (mkCipher None None)).

Definition lgcrypt_cipher_open : M nat :=
  algo ← luaL_checkint 1;
  mode ← luaL_checkint 2;
  state ← lgcrypt_cipher_new;
  err ← gcry_cipher_open state algo mode 0;
  (if negb (err =? GPG_ERR_NO_ERROR) then
     lua_pop 1;;
     luaL_error "gcry_cipher_open() failed with %s" [gcry_strerror err]
   else mret tt);;
  mret 1%nat.

Definition checkCipher (arg : nat) : M nat :=
  luaL_checkudata arg "gcrypt.Cipher".

Definition lgcrypt_cipher___gc : M nat :=
  state ← checkCipher 1;
  st ← load_cipher state;
  (if cipher_h st is Some _ then gcry_cipher_close (cipher_h st)
   else mret tt);;
  st ← load_cipher state;
  (if cipher_out st is Some _ then gcry_free (cipher_out st)
   else mret tt);;
  mret 0%nat.

Definition lgcrypt_cipher_setkey : M nat :=
  state ← checkCipher 1;
  key ← luaL_checklstring 2;
  st ← load_cipher state;
  err ← gcry_cipher_setkey (cipher_h st) key;
  (if negb (err =? GPG_ERR_NO_ERROR) then
     luaL_error "gcry_cipher_setkey() failed with %s" [gcry_strerror err]
   else mret tt);;
  mret 0%nat.

Definition lgcrypt_cipher_setiv : M nat :=
  state ← checkCipher 1;
  iv ← luaL_checklstring 2;
  st ← load_cipher state;
  err ← gcry_cipher_setiv (cipher_h st) iv;
  (if negb (err =? GPG_ERR_NO_ERROR) then
     luaL_error "gcry_cipher_setiv() failed with %s" [gcry_strerror err]
   else mret tt);;
  mret 0%nat.

Definition lgcrypt_cipher_reset : M nat :=
  state ← checkCipher 1;
  st ← load_cipher state;
  err ← gcry_cipher_reset (cipher_h st);
  (if negb (err =? GPG_ERR_NO_ERROR) then
     luaL_error "gcry_cipher_reset() failed with %s" [gcry_strerror err]
   else mret tt);;
  mret 0%nat.

(** [state->out = p;] *)
Definition set_out (state : nat) (p : option nat) : M unit :=
  st ← load_cipher state;
  store_cipher state (mkCipher (cipher_h st) p).

Definition lgcrypt_cipher_encrypt : M nat :=
  state ← checkCipher 1;
  inp ← luaL_checklstring 2;
  let in_len := length inp in
  let out_len := in_len in
  p ← gcry_malloc out_len;
  set_out state p;;
  st ← load_cipher state;
  (if cipher_out st is None then
     luaL_error "Failed to allocate memory for ciphertext" []
   else mret tt);;
  st ← load_cipher state;
  err ← gcry_cipher_encrypt (cipher_h st) (cipher_out st) out_len inp;
  (if negb (err =? GPG_ERR_NO_ERROR) then
     st ← load_cipher state;
     gcry_free (cipher_out st);;
     set_out state None;;
     luaL_error "gcry_cipher_encrypt() failed with %s" [gcry_strerror err]
   else mret tt);;
  st ← load_cipher state;
  buf ← load_block (cipher_out st);
  lua_pushlstring buf out_len;;
  st ← load_cipher state;
  gcry_free (cipher_out st);;
  set_out state None;;
  mret 1%nat.

Definition lgcrypt_cipher_decrypt : M nat :=
  state ← checkCipher 1;
  inp ← luaL_checklstring 2;
  let in_len := length inp in
  let out_len := in_len in
  p ← gcry_malloc out_len;
  set_out state p;;
  st ← load_cipher state;
  (if cipher_out st is None then
     luaL_error "Failed to allocate memory for plaintext" []
   else mret tt);;
  st ← load_cipher state;
  err ← gcry_cipher_decrypt (cipher_h st) (cipher_out st) out_len inp;
  (if negb (err =? GPG_ERR_NO_ERROR) then
     st ← load_cipher state;
     gcry_free (cipher_out st);;
     set_out state None;;
     luaL_error "gcry_cipher_decrypt() failed with %s" [gcry_strerror err]
   else mret tt);;
  st ← load_cipher state;
  buf ← load_block (cipher_out st);
  lua_pushlstring buf out_len;;
  st ← load_cipher state;
  gcry_free (cipher_out st);;
  set_out state None;;
  mret 1%nat.

(** [struct luaL_Reg]: a name and a C function. *)
Definition luaL_Reg : Type := string * M nat.
Definition reg (name : string) (func : M nat) : luaL_Reg := (name, func).

Definition lgcrypt_cipher_meta : list luaL_Reg :=
  [ reg "__gc" lgcrypt_cipher___gc;
    reg "setkey" lgcrypt_cipher_setkey;
    reg "setiv" lgcrypt_cipher_setiv;
    reg "reset" lgcrypt_cipher_reset;
    reg "encrypt" lgcrypt_cipher_encrypt;
    reg "decrypt" lgcrypt_cipher_decrypt ].

(** ** Message digests *)

(** Initializes a new gcrypt.Hash userdata and pushes it on the stack. *)
Definition lgcrypt_hash_new : M nat :=
  lua_newuserdata sizeof_LgcryptHash (UHash (mkHash None)).

Definition lgcrypt_hash_open : M nat :=
  algo ← luaL_checkint 1;
  flags ← luaL_optinteger 2 0;
  let flags := uint_of flags in
  state ← lgcrypt_hash_new;
  err ← gcry_md_open state algo flags;
  (if negb (err =? GPG_ERR_NO_ERROR) then
     lua_pop 1;;
     luaL_error "gcry_md_open() failed with %s" [gcry_strerror err]
   else mret tt);;
  mret 1%nat.

Definition checkHash (arg : nat) : M nat :=
  luaL_checkudata arg "gcrypt.Hash".

Definition lgcrypt_hash___gc : M nat :=
  state ← checkHash 1;
  st ← load_hash state;
  (if hash_h st is Some _ then gcry_md_close (hash_h st) else mret tt);;
  mret 0%nat.

Definition lgcrypt_hash_setkey : M nat :=
  state ← checkHash 1;
  key ← luaL_checklstring 2;
  st ← load_hash state;
  err ← gcry_md_setkey (hash_h st) key;
  (if negb (err =? GPG_ERR_NO_ERROR) then
     luaL_error "gcry_md_setkey() failed with %s" [gcry_strerror err]
   else mret tt);;
  mret 0%nat.

Definition lgcrypt_hash_reset : M nat :=
  state ← checkHash 1;
  st ← load_hash state;
  gcry_md_reset (hash_h st);;
  mret 0%nat.

Definition lgcrypt_hash_write : M nat :=
  state ← checkHash 1;
  buffer ← luaL_checklstring 2;
  st ← load_hash state;
  gcry_md_write (hash_h st) buffer;;
  mret 0%nat.

(** The default of [luaL_optinteger] is an argument of the call, so
    [gcry_md_get_algo] runs whether or not the script names an algorithm. *)
Definition lgcrypt_hash_read : M nat :=
  state ← checkHash 1;
  st ← load_hash state;
  def ← gcry_md_get_algo (hash_h st);
  algo ← luaL_optinteger 2 def;
  let algo := int_of algo in
  st ← load_hash state;
  enabled ← gcry_md_is_enabled (hash_h st) algo;
  (if negb enabled then
     luaL_error "Unable to obtain digest for a disabled algorithm" []
   else mret tt);;
  digest_len ← gcry_md_get_algo_dlen algo;
  (if (digest_len =? 0)%nat then
     luaL_error "Invalid digest length detected" []
   else mret tt);;
  st ← load_hash state;
  digest ← gcry_md_read (hash_h st) algo;
  match digest with
  | None => luaL_error "Failed to obtain digest" []
  | Some d =>
      lua_pushlstring d digest_len;;
      mret 1%nat
  end.

Definition lgcrypt_hash_meta : list luaL_Reg :=
  [ reg "__gc" lgcrypt_hash___gc;
    reg "setkey" lgcrypt_hash_setkey;
    reg "reset" lgcrypt_hash_reset;
    reg "write" lgcrypt_hash_write;
    reg "read" lgcrypt_hash_read ].

(** ** The module *)

Definition lgcrypt_init : M nat :=
  finished ← gcry_control GCRYCTL_INITIALIZATION_FINISHED_P;
  (if negb (finished =? 0) then
     luaL_error "libgcrypt was already initialized" []
   else mret tt);;
  gcry_check_version;;
  gcry_control GCRYCTL_DISABLE_SECMEM;;
  gcry_control GCRYCTL_INITIALIZATION_FINISHED;;
  mret 0%nat.

Definition lgcrypt : list luaL_Reg :=
  [ reg "init" lgcrypt_init;
    reg "Cipher" lgcrypt_cipher_open;
    reg "Hash" lgcrypt_hash_open ].

(** A metatable as [register_metatable] builds it: the functions of the
    table, and [__index] set to the metatable itself, so that every entry
    of the table, [__gc] included, is found when a script indexes an
    object. *)
Record Metatable := mkMeta {
  mt_name : string;
  mt_funcs : list luaL_Reg;
  mt_index_self : bool
}.

Definition register_metatable (name : string) (funcs : list luaL_Reg)
  : Metatable :=
  mkMeta name funcs true.

(** The two metatables that [luaopen_luagcrypt] registers. *)
Definition luaopen_luagcrypt : list Metatable :=
  [ register_metatable "gcrypt.Cipher" lgcrypt_cipher_meta;
    register_metatable "gcrypt.Hash" lgcrypt_hash_meta ].

(** ** Calls from a script *)

Fixpoint lookup_reg (name : string) (l : list luaL_Reg) : option (M nat) :=
  match l with
  | [] => None
  | (n, f) :: l' => if String.eqb n name then Some f else lookup_reg name l'
  end.

Definition luaL_getmetatable (tname : string) : option Metatable :=
  find (fun mt => String.eqb (mt_name mt) tname) luaopen_luagcrypt.

(** [obj.name]: the lookup goes through [__index] of the metatable. *)
Definition object_field (d : Udata) (name : string) : option (M nat) :=
  match luaL_getmetatable (tname_of d) with
  | Some mt =>
      if mt_index_self mt then lookup_reg name (mt_funcs mt) else None
  | None => None
  end.

(** A call of a C function: the arguments are its stack, the top
    [n] values are its results when it returns [n]; the frame is gone
    when the call is over, however it ends. *)
Definition enter (args : list LuaValue) (w : World) : World :=
  mkWorld (mkLua args (udata (lua w))) (gcry w) (calls w).

Definition leave (w : World) : World :=
  mkWorld (mkLua [] (udata (lua w))) (gcry w) (calls w).

Definition lua_call (f : M nat) (args : list LuaValue)
  : M (list LuaValue) :=
  fun w =>
    match f (enter args w) with
    | Ok n w' =>
        Ok (drop (length (stack (lua w')) - n)%nat (stack (lua w'))) (leave w')
    | Raise e w' => Raise e (leave w')
    | Crash why => Crash why
    end.

(** [obj:name(args)] *)
Definition lua_method (u : nat) (name : string) (args : list LuaValue)
  : M (list LuaValue) :=
  l ← get_lua;
  match udata l !! u with
  | Some d =>
      match object_field d name with
      | Some f => lua_call f (LUserdata u :: args)
      | None => raise (ErrMsg "attempt to call a nil value" [])
      end
  | None => crash "userdata block already collected"
  end.

(** The collector runs the [__gc] metamethod of an unreachable userdata
    and then releases its block. *)
Definition lua_collect (u : nat) : M unit :=
  l ← get_lua;
  match udata l !! u with
  | Some d =>
      match luaL_getmetatable (tname_of d) with
      | Some mt =>
          match lookup_reg "__gc" (mt_funcs mt) with
          | Some f => lua_call f [LUserdata u];; mret tt
          | None => mret tt
          end
      | None => mret tt
      end;;
      l ← get_lua;
      put_lua (mkLua (stack l) (delete u (udata l)))
  | None => mret tt
  end.

(** ** The constructors from a script

    What [Cipher] and [Hash] raise when the library refuses to open a
    context, and the arguments of [Hash(algo)] and [Hash(algo, flags)]. *)
Definition cipher_open_error (err : gcry_error_t) : LuaError :=
  ErrMsg "gcry_cipher_open() failed with %s" [gcry_strerror err].

Definition md_open_error (err : gcry_error_t) : LuaError :=
  ErrMsg "gcry_md_open() failed with %s" [gcry_strerror err].

Definition hash_args (a : Z) (flags : option Z) : list LuaValue :=
  LInteger a :: from_option (λ f, [LInteger f]) [] flags.

(** ** The two directions of a cipher

    [lgcrypt_cipher_encrypt] and [lgcrypt_cipher_decrypt] differ in the
    call they forward to and in their messages. *)
Inductive Dir := Enc | Dec.

Definition crypt_call (d : Dir) : M nat :=
  match d with
  | Enc => lgcrypt_cipher_encrypt
  | Dec => lgcrypt_cipher_decrypt
  end.

Definition crypt_fn (d : Dir) : cctx -> nat -> bytes -> gcry_error_t * cctx * bytes :=
  match d with
  | Enc => cipher_encrypt_fn
  | Dec => cipher_decrypt_fn
  end.

Definition crypt_event (d : Dir) : nat -> nat -> nat -> bytes -> Event :=
  match d with
  | Enc => Ev_cipher_encrypt
  | Dec => Ev_cipher_decrypt
  end.

Definition alloc_message (d : Dir) : string :=
  match d with
  | Enc => "Failed to allocate memory for ciphertext"
  | Dec => "Failed to allocate memory for plaintext"
  end.

Definition failure_message (d : Dir) : string :=
  match d with
  | Enc => "gcry_cipher_encrypt() failed with %s"
  | Dec => "gcry_cipher_decrypt() failed with %s"
  end.

(** The struct of a cipher object in a world, and what it means for the
    object to hold an open context. *)
Definition cipher_at (w : World) (u : nat) : option LgcryptCipher :=
  match udata (lua w) !! u with
  | Some (UCipher c) => Some c
  | _ => None
  end.

Definition hash_at (w : World) (u : nat) : option LgcryptHash :=
  match udata (lua w) !! u with
  | Some (UHash s) => Some s
  | _ => None
  end.

Definition cipher_is_open (w : World) (u hd : nat) : Prop :=
  (∃ o, cipher_at w u = Some (mkCipher (Some hd) o)) ∧
  is_Some (cipher_ctx (gcry w) !! hd).

Definition hash_is_open (w : World) (u hd : nat) : Prop :=
  hash_at w u = Some (mkHash (Some hd)) ∧ is_Some (md_ctx (gcry w) !! hd).

(** The bytes of the output block when the library call is over. *)
Definition crypt_output (d : Dir) (c : cctx) (p : bytes) : bytes :=
  store_bytes (map malloc_junk (seq 0 (length p)))
              (crypt_fn d c (length p) p).2.

(** A call keeps the contexts when every context that was open is still
    open after it, and every object still holds the handle it held. *)
Definition keeps_contexts (w w' : World) : Prop :=
  (∀ hd, is_Some (cipher_ctx (gcry w) !! hd) →
         is_Some (cipher_ctx (gcry w') !! hd)) ∧
  (∀ hd, is_Some (md_ctx (gcry w) !! hd) →
         is_Some (md_ctx (gcry w') !! hd)) ∧
  (∀ u c, cipher_at w u = Some c →
          ∃ o, cipher_at w' u = Some (mkCipher (cipher_h c) o)) ∧
  (∀ u s, hash_at w u = Some s → hash_at w' u = Some s).

(** The methods that the specification lists for scripts. *)
Definition listed_methods : list (M nat) :=
  [ lgcrypt_cipher_setkey; lgcrypt_cipher_setiv; lgcrypt_cipher_reset;
    lgcrypt_cipher_encrypt; lgcrypt_cipher_decrypt;
    lgcrypt_hash_setkey; lgcrypt_hash_reset; lgcrypt_hash_write;
    lgcrypt_hash_read ].

(** One call of a listed method from a script, however it ends. *)
Inductive listed_step : World → World → Prop :=
| listed_returns f args w vs w' :
    In f listed_methods →
    lua_call f args w = Ok vs w' →
    listed_step w w'
| listed_raises f args w e w' :
    In f listed_methods →
    lua_call f args w = Raise e w' →
    listed_step w w'.


(** ** Scripts

    What a script sees of a call: its values or its error. *)
Definition result_of {A} (o : Outcome A) : option (A + LuaError) :=
  match o with
  | Ok a _ => Some (inl a)
  | Raise e _ => Some (inr e)
  | Crash _ => None
  end.

Definition the_object (vs : list LuaValue) : M nat :=
  match vs with
  | [LUserdata u] => mret u
  | _ => raise (ErrMsg "attempt to index a non-object value" [])
  end.

Definition the_string (vs : list LuaValue) : M bytes :=
  match vs with
  | [LString s] => mret s
  | _ => raise (ErrArg 2 "string expected")
  end.

(** [c = Cipher(algo, mode); c:setkey(k); c:setiv(v)] *)
Definition prepared_cipher (algo mode : Z) (k v : bytes) : M nat :=
  c ← lua_call lgcrypt_cipher_open [LInteger algo; LInteger mode]
        ≫= the_object;
  lua_method c "setkey" [LString k];;
  lua_method c "setiv" [LString v];;
  mret c.

(** [c = Cipher(algo, mode); c:setkey(k); c:setiv(v);
     c:decrypt(c:encrypt(p))]: the round trip on the handle that was
    prepared. *)
Definition roundtrip (algo mode : Z) (k v p : bytes) : M (list LuaValue) :=
  c ← prepared_cipher algo mode k v;
  ct ← lua_method c "encrypt" [LString p] ≫= the_string;
  lua_method c "decrypt" [LString ct].

(** Encrypt on one prepared handle, decrypt on a second one that was
    prepared the same way. *)
Definition roundtrip_on_second_handle (algo mode : Z) (k v p : bytes)
  : M (list LuaValue) :=
  e ← prepared_cipher algo mode k v;
  ct ← lua_method e "encrypt" [LString p] ≫= the_string;
  d ← prepared_cipher algo mode k v;
  lua_method d "decrypt" [LString ct].

Fixpoint write_all (h : nat) (chunks : list bytes) : M unit :=
  match chunks with
  | [] => mret tt
  | chunk :: rest =>
      lua_method h "write" [LString chunk];;
      write_all h rest
  end.

(** [h = Hash(algo); h:write(chunk1); ...; h:write(chunkn); h:read()] *)
Definition digest_of (algo : Z) (chunks : list bytes) : M (list LuaValue) :=
  h ← lua_call lgcrypt_hash_open [LInteger algo] ≫= the_object;
  write_all h chunks;;
  lua_method h "read" [].

(** ** What the properties of the cryptography ask of the library

    For the cipher that [algo] and [mode] name, with blocks of [blk] bytes:
    on a context that took a key and an IV, encryption of whole blocks
    succeeds and fills the output with as many bytes as it was given, and
    decryption on a context prepared the same way gives the input back. *)
Definition cipher_inverts (algo mode : Z) (blk : nat) : Prop :=
  ∀ c0 k c1 v c2 p,
    cipher_open_fn algo mode 0 = (GPG_ERR_NO_ERROR, c0) →
    cipher_setkey_fn c0 k = (GPG_ERR_NO_ERROR, c1) →
    cipher_setiv_fn c1 v = (GPG_ERR_NO_ERROR, c2) →
    (length p mod blk = 0)%nat →
    ∃ c3 ct c4,
      cipher_encrypt_fn c2 (length p) p = (GPG_ERR_NO_ERROR, c3, ct) ∧
      length ct = length p ∧
      cipher_decrypt_fn c2 (length p) ct = (GPG_ERR_NO_ERROR, c4, p).

(** A digest context depends on the bytes written, not on how they were
    cut. *)
Definition md_write_streams : Prop :=
  ∀ c a b, md_write_fn (md_write_fn c a) b = md_write_fn c (a ++ b).

(** What [read] without an argument gives on a context [c], and what
    [digest_of] gives for the bytes [d], as functions of the library alone:
    no world, no handle and no chunking appear in them. *)
Definition read_result (c : mctx) : option (list LuaValue + LuaError) :=
  let algo := int_of (md_get_algo_fn c) in
  let dlen := md_get_algo_dlen_fn algo in
  if negb (md_is_enabled_fn c algo) then
    Some (inr (ErrMsg "Unable to obtain digest for a disabled algorithm" []))
  else if (dlen =? 0)%nat then
    Some (inr (ErrMsg "Invalid digest length detected" []))
  else
    match (md_read_fn c algo).1 with
    | None => Some (inr (ErrMsg "Failed to obtain digest" []))
    | Some digest =>
        if (dlen <=? length digest)%nat
        then Some (inl [LString (take dlen digest)])
        else None
    end.

Definition digest_result (algo : Z) (d : bytes)
  : option (list LuaValue + LuaError) :=
  let '(err, c0) := md_open_fn (int_of algo) (uint_of 0) in
  if err =? GPG_ERR_NO_ERROR then read_result (md_write_fn c0 d)
  else Some (inr (md_open_error err)).

(** The runtime has memory left; the allocator of the library has a block
    of [n] bytes, whatever is allocated already.  What the allocator
    answers to a request for no bytes is its own convention. *)
Definition host_has_memory : Prop := ∀ l n, lua_alloc l n = true.
Definition malloc_gives (n : nat) : Prop := ∀ h, malloc_ok h n = true.

(** The round trip in the words of the specification: on the handle that
    was prepared, for every key and IV that the library accepts and every
    plaintext of whole blocks, decrypting what encrypt returned gives the
    plaintext. *)
Definition roundtrip_gives_back (algo mode : Z) (blk : nat) : Prop :=
  ∀ w k v p c0 c1 c2,
    cipher_open_fn (int_of algo) (int_of mode) 0 = (GPG_ERR_NO_ERROR, c0) →
    cipher_setkey_fn c0 k = (GPG_ERR_NO_ERROR, c1) →
    cipher_setiv_fn c1 v = (GPG_ERR_NO_ERROR, c2) →
    (length p mod blk = 0)%nat →
    result_of (roundtrip algo mode k v p w) = Some (inl [LString p]).

End Binding.

(** ** The error taxonomy of the specification

    The binding raises messages; the specification names four kinds of
    error.  [error_kind] follows section 7 of the specification: caller
    misuse is a UsageError, a status of the library a ProviderError, a
    failed allocation of the temporary buffer a ResourceError, an
    unexpected null or zero-length result an InternalError.  The memory
    error of the Lua runtime is outside the taxonomy. *)
Inductive ErrorKind :=
| UsageError
| ProviderError
| ResourceError
| InternalError.

Definition provider_formats : list string :=
  [ "gcry_cipher_open() failed with %s";
    "gcry_cipher_setkey() failed with %s";
    "gcry_cipher_setiv() failed with %s";
    "gcry_cipher_reset() failed with %s";
    "gcry_cipher_encrypt() failed with %s";
    "gcry_cipher_decrypt() failed with %s";
    "gcry_md_open() failed with %s";
    "gcry_md_setkey() failed with %s" ]%string.

Definition resource_formats : list string :=
  [ "Failed to allocate memory for ciphertext";
    "Failed to allocate memory for plaintext" ]%string.

Definition usage_formats : list string :=
  [ "Unable to obtain digest for a disabled algorithm";
    "libgcrypt was already initialized" ]%string.

Definition internal_formats : list string :=
  [ "Invalid digest length detected";
    "Failed to obtain digest" ]%string.

Definition error_kind (e : LuaError) : option ErrorKind :=
  match e with
  | ErrArg _ _ => Some UsageError
  | ErrMem => None
  | ErrMsg fmt _ =>
      if existsb (String.eqb fmt) provider_formats then Some ProviderError
      else if existsb (String.eqb fmt) resource_formats then Some ResourceError
      else if existsb (String.eqb fmt) usage_formats then Some UsageError
      else if existsb (String.eqb fmt) internal_formats then Some InternalError
      else None
  end.

(** ** A small provider and a small host

    An instance of each interface, for running the binding on concrete
    inputs.  The cipher has blocks of 16 bytes, takes a key and an IV of 16
    bytes and reverses its input; the digest pads or cuts what was written
    to 32 bytes. *)
Module Toy.

Record cipher := mkC {
  c_key : option bytes;
  c_iv : option bytes
}.

Record md := mkMd {
  m_algo : Z;
  m_hmac : bool;
  m_key : option bytes;
  m_data : bytes
}.

Definition GCRY_CIPHER_AES128 : Z := 7.
Definition GCRY_CIPHER_MODE_CBC : Z := 3.
Definition GCRY_MD_SHA256 : Z := 8.
Definition GCRY_MD_FLAG_HMAC : Z := 2.

Definition GPG_ERR_DIGEST_ALGO : gcry_error_t := 5.
Definition GPG_ERR_CIPHER_ALGO : gcry_error_t := 12.
Definition GPG_ERR_INV_KEYLEN : gcry_error_t := 44.
Definition GPG_ERR_INV_LENGTH : gcry_error_t := 139.
Definition GPG_ERR_MISSING_KEY : gcry_error_t := 181.

Definition open (algo mode flags : Z) : gcry_error_t * cipher :=
  if (algo =? GCRY_CIPHER_AES128) && (mode =? GCRY_CIPHER_MODE_CBC)
  then (GPG_ERR_NO_ERROR, mkC None None)
  else (GPG_ERR_CIPHER_ALGO, mkC None None).

Definition setkey (c : cipher) (key : bytes) : gcry_error_t * cipher :=
  if (length key =? 16)%nat then (GPG_ERR_NO_ERROR, mkC (Some key) (c_iv c))
  else (GPG_ERR_INV_KEYLEN, c).

Definition setiv (c : cipher) (iv : bytes) : gcry_error_t * cipher :=
  if (length iv =? 16)%nat then (GPG_ERR_NO_ERROR, mkC (c_key c) (Some iv))
  else (GPG_ERR_INV_LENGTH, c).

Definition reset (c : cipher) : gcry_error_t * cipher :=
  (GPG_ERR_NO_ERROR, mkC (c_key c) None).

Definition crypt (c : cipher) (outsize : nat) (inp : bytes)
  : gcry_error_t * cipher * bytes :=
  match c_key c with
  | None => (GPG_ERR_MISSING_KEY, c, [])
  | Some _ =>
      if (length inp mod 16 =? 0)%nat
      then (GPG_ERR_NO_ERROR, mkC (c_key c) (Some (take 16 (rev inp))), rev inp)
      else (GPG_ERR_INV_LENGTH, c, [])
  end.

Definition md_open (algo flags : Z) : gcry_error_t * md :=
  if algo =? GCRY_MD_SHA256
  then (GPG_ERR_NO_ERROR, mkMd algo (Z.testbit flags 1) None [])
  else (GPG_ERR_DIGEST_ALGO, mkMd algo false None []).

Definition md_setkey (c : md) (key : bytes) : gcry_error_t * md :=
  if m_hmac c
  then (GPG_ERR_NO_ERROR, mkMd (m_algo c) true (Some key) (m_data c))
  else (GPG_ERR_DIGEST_ALGO, c).

Definition md_reset (c : md) : md :=
  mkMd (m_algo c) (m_hmac c) (m_key c) [].

Definition md_write (c : md) (buf : bytes) : md :=
  mkMd (m_algo c) (m_hmac c) (m_key c) (m_data c ++ buf).

Definition md_dlen (algo : Z) : nat :=
  if algo =? GCRY_MD_SHA256 then 32%nat else 0%nat.

Definition md_read (c : md) (algo : Z) : option bytes * md :=
  if algo =? m_algo c
  then (Some (take 32 (default [] (m_key c) ++ m_data c ++ repeat x00 32)), c)
  else (None, c).

Definition strerror (err : gcry_error_t) : string :=
  if err =? GPG_ERR_NO_ERROR then "Success" else "Failure".

(** The allocator gives a block for every request, also for zero bytes. *)
Definition gcrypt : Gcrypt := {|
  cctx := cipher;
  mctx := md;
  cipher_open_fn := open;
  cipher_setkey_fn := setkey;
  cipher_setiv_fn := setiv;
  cipher_reset_fn := reset;
  cipher_encrypt_fn := crypt;
  cipher_decrypt_fn := crypt;
  md_open_fn := md_open;
  md_setkey_fn := md_setkey;
  md_reset_fn := md_reset;
  md_write_fn := md_write;
  md_get_algo_fn := m_algo;
  md_is_enabled_fn := fun c algo => algo =? m_algo c;
  md_get_algo_dlen_fn := md_dlen;
  md_read_fn := md_read;
  strerror_fn := strerror;
  malloc_ok := fun _ _ => true;
  malloc_junk := fun _ => xff
|}.

(** The same library over an allocator that answers [NULL] to a request
    for zero bytes. *)
Definition gcrypt_null0 : Gcrypt := {|
  cctx := cipher;
  mctx := md;
  cipher_open_fn := open;
  cipher_setkey_fn := setkey;
  cipher_setiv_fn := setiv;
  cipher_reset_fn := reset;
  cipher_encrypt_fn := crypt;
  cipher_decrypt_fn := crypt;
  md_open_fn := md_open;
  md_setkey_fn := md_setkey;
  md_reset_fn := md_reset;
  md_write_fn := md_write;
  md_get_algo_fn := m_algo;
  md_is_enabled_fn := fun c algo => algo =? m_algo c;
  md_get_algo_dlen_fn := md_dlen;
  md_read_fn := md_read;
  strerror_fn := strerror;
  malloc_ok := fun _ n => negb (n =? 0)%nat;
  malloc_junk := fun _ => xff
|}.

(** A runtime that never runs out of memory, and one that has room for a
    userdata block but not for a string of more than 16 bytes. *)
Definition host : LuaHost := {|
  lua_alloc := fun _ _ => true;
  lua_number_of_string := fun _ => None;
  lua_string_of_number := fun _ => []
|}.


Definition world0 {GC : Gcrypt} : World :=
  mkWorld (mkLua [] ∅) (mkGcry ∅ ∅ ∅ false false) [].

Definition zeros (n : nat) : bytes := repeat x00 n.

(** The world an outcome leaves behind. *)
Definition after {GC : Gcrypt} {A} (o : Outcome A) : World :=
  match o with
  | Ok _ w | Raise _ w => w
  | Crash _ => world0
  end.

(** [c = Cipher(AES128, CBC); c:setkey(zeros); c:setiv(zeros)], the object
    is at address 0 and so is its context. *)
Definition ready (LH : LuaHost) : @World gcrypt :=
  after (prepared_cipher (GC := gcrypt) GCRY_CIPHER_AES128 GCRY_CIPHER_MODE_CBC
           (zeros 16) (zeros 16) world0).

Definition ready_null0 : @World gcrypt_null0 :=
  after (prepared_cipher (GC := gcrypt_null0) (LH := host)
           GCRY_CIPHER_AES128 GCRY_CIPHER_MODE_CBC (zeros 16) (zeros 16) world0).

(** [h = Hash(SHA256)], at address 0. *)
Definition hashing : @World gcrypt :=
  after (lua_call (GC := gcrypt) (lgcrypt_hash_open (LH := host))
           [LInteger GCRY_MD_SHA256] world0).

Definition abc : bytes := [x61; x62; x63].

End Toy.

(** ** A toy cipher that chains

    The library of [Toy] with a cipher whose output depends on the chaining
    value of the context, which every call advances, as the IV of a chained
    mode does. *)
Module ToyChained.

Definition bxor (a b : byte) : byte :=
  let '(a0, (a1, (a2, (a3, (a4, (a5, (a6, a7))))))) := Byte.to_bits a in
  let '(b0, (b1, (b2, (b3, (b4, (b5, (b6, b7))))))) := Byte.to_bits b in
  Byte.of_bits (xorb a0 b0, (xorb a1 b1, (xorb a2 b2, (xorb a3 b3,
               (xorb a4 b4, (xorb a5 b5, (xorb a6 b6, xorb a7 b7))))))).

(** Each byte of the output is the byte of the input mixed with the byte
    of the output before it; the first one with the chaining value [s]. *)
Fixpoint chain_encrypt (s : byte) (p : bytes) : bytes :=
  match p with
  | [] => []
  | b :: p' => let c := bxor b s in c :: chain_encrypt c p'
  end.

Fixpoint chain_decrypt (s : byte) (ct : bytes) : bytes :=
  match ct with
  | [] => []
  | c :: ct' => bxor c s :: chain_decrypt c ct'
  end.

(** The chaining value of a context, and the one that a call leaves: the
    last byte of the ciphertext. *)
Definition chain (iv : bytes) : byte := hd x00 iv.
Definition advance (iv ct : bytes) : bytes := [default (chain iv) (last ct)].

Definition encrypt (c : Toy.cipher) (outsize : nat) (inp : bytes)
  : gcry_error_t * Toy.cipher * bytes :=
  match Toy.c_key c, Toy.c_iv c with
  | Some _, Some iv =>
      if (length inp mod 16 =? 0)%nat
      then let ct := chain_encrypt (chain iv) inp in
           (GPG_ERR_NO_ERROR, Toy.mkC (Toy.c_key c) (Some (advance iv ct)), ct)
      else (Toy.GPG_ERR_INV_LENGTH, c, [])
  | _, _ => (Toy.GPG_ERR_MISSING_KEY, c, [])
  end.

Definition decrypt (c : Toy.cipher) (outsize : nat) (inp : bytes)
  : gcry_error_t * Toy.cipher * bytes :=
  match Toy.c_key c, Toy.c_iv c with
  | Some _, Some iv =>
      if (length inp mod 16 =? 0)%nat
      then (GPG_ERR_NO_ERROR, Toy.mkC (Toy.c_key c) (Some (advance iv inp)),
            chain_decrypt (chain iv) inp)
      else (Toy.GPG_ERR_INV_LENGTH, c, [])
  | _, _ => (Toy.GPG_ERR_MISSING_KEY, c, [])
  end.

(** The toy library with a cipher that chains. *)
Definition gcrypt : Gcrypt := {|
  cctx := Toy.cipher;
  mctx := Toy.md;
  cipher_open_fn := Toy.open;
  cipher_setkey_fn := Toy.setkey;
  cipher_setiv_fn := Toy.setiv;
  cipher_reset_fn := Toy.reset;
  cipher_encrypt_fn := encrypt;
  cipher_decrypt_fn := decrypt;
  md_open_fn := Toy.md_open;
  md_setkey_fn := Toy.md_setkey;
  md_reset_fn := Toy.md_reset;
  md_write_fn := Toy.md_write;
  md_get_algo_fn := Toy.m_algo;
  md_is_enabled_fn := fun c algo => algo =? Toy.m_algo c;
  md_get_algo_dlen_fn := Toy.md_dlen;
  md_read_fn := Toy.md_read;
  strerror_fn := Toy.strerror;
  malloc_ok := fun _ _ => true;
  malloc_junk := fun _ => xff
|}.

Definition one : bytes := x01 :: Toy.zeros 15.

End ToyChained.

(** * More of the binding

    The rest of [luagcrypt.c]: the configuration methods of a cipher, the
    update methods of a digest, the argument checks, and the registration
    of the module. *)

Section Methods.
Context {GC : Gcrypt} {LH : LuaHost}.

(** ** The configuration methods of a cipher

    [setkey], [setiv] and [reset] have one shape: check the object, take
    the argument if there is one, forward, raise on a status that is not
    [GPG_ERR_NO_ERROR]. *)
Inductive Config :=
| SetKey (key : bytes)
| SetIv (iv : bytes)
| ResetCtx.

Definition config_call (cfg : Config) : M nat :=
  match cfg with
  | SetKey _ => lgcrypt_cipher_setkey
  | SetIv _ => lgcrypt_cipher_setiv
  | ResetCtx => lgcrypt_cipher_reset
  end.

Definition config_args (cfg : Config) : list LuaValue :=
  match cfg with
  | SetKey key => [LString key]
  | SetIv iv => [LString iv]
  | ResetCtx => []
  end.

Definition config_fn (cfg : Config) (c : cctx) : gcry_error_t * cctx :=
  match cfg with
  | SetKey key => cipher_setkey_fn c key
  | SetIv iv => cipher_setiv_fn c iv
  | ResetCtx => cipher_reset_fn c
  end.

Definition config_event (cfg : Config) (hd : nat) : Event :=
  match cfg with
  | SetKey key => Ev_cipher_setkey hd key
  | SetIv iv => Ev_cipher_setiv hd iv
  | ResetCtx => Ev_cipher_reset hd
  end.

Definition config_message (cfg : Config) : string :=
  match cfg with
  | SetKey _ => "gcry_cipher_setkey() failed with %s"
  | SetIv _ => "gcry_cipher_setiv() failed with %s"
  | ResetCtx => "gcry_cipher_reset() failed with %s"
  end.

(** ** The update methods of a digest *)
Inductive Update :=
| MdReset
| MdWrite (buffer : bytes).

Definition update_call (upd : Update) : M nat :=
  match upd with
  | MdReset => lgcrypt_hash_reset
  | MdWrite _ => lgcrypt_hash_write
  end.

Definition update_args (upd : Update) : list LuaValue :=
  match upd with
  | MdReset => []
  | MdWrite buffer => [LString buffer]
  end.

Definition update_fn (upd : Update) (c : mctx) : mctx :=
  match upd with
  | MdReset => md_reset_fn c
  | MdWrite buffer => md_write_fn c buffer
  end.

Definition update_event (upd : Update) (hd : nat) : Event :=
  match upd with
  | MdReset => Ev_md_reset hd
  | MdWrite buffer => Ev_md_write hd buffer
  end.

(** ** Every C function that the module registers *)
Definition cipher_functions : list (M nat) := map snd lgcrypt_cipher_meta.
Definition hash_functions : list (M nat) := map snd lgcrypt_hash_meta.
Definition module_functions : list (M nat) := map snd lgcrypt.

Definition binding_functions : list (M nat) :=
  module_functions ++ cipher_functions ++ hash_functions.

(** The methods that take a string as their second argument. *)
Definition cipher_string_methods : list (M nat) :=
  [ lgcrypt_cipher_setkey; lgcrypt_cipher_setiv;
    lgcrypt_cipher_encrypt; lgcrypt_cipher_decrypt ].

Definition hash_string_methods : list (M nat) :=
  [ lgcrypt_hash_setkey; lgcrypt_hash_write ].

(** The first argument is no object of the type: there is none, it is no
    userdata, or it is a live userdata with the other metatable. *)
Definition not_a_cipher (w : World) (args : list LuaValue) : Prop :=
  ∀ u, args !! 0%nat = Some (LUserdata u) →
       ∃ s, udata (lua w) !! u = Some (UHash s).

Definition not_a_hash (w : World) (args : list LuaValue) : Prop :=
  ∀ u, args !! 0%nat = Some (LUserdata u) →
       ∃ c, udata (lua w) !! u = Some (UCipher c).

(** A value that [luaL_checklstring] refuses. *)
Definition not_a_string (v : option LuaValue) : Prop :=
  match v with
  | Some (LString _) | Some (LInteger _) => False
  | _ => True
  end.

End Methods.

Section Steps.
Context {GC : Gcrypt} {LH : LuaHost}.

(** One thing that happens to the world in the life of a script: a call
    of a function of the module, with any arguments, that returns or
    raises, or the collection of an object. *)
Inductive binding_step : World → World → Prop :=
| step_returns f args w vs w' :
    In f binding_functions →
    lua_call f args w = Ok vs w' →
    binding_step w w'
| step_raises f args w e w' :
    In f binding_functions →
    lua_call f args w = Raise e w' →
    binding_step w w'
| step_collects u w w' :
    lua_collect u w = Ok tt w' →
    binding_step w w'.

End Steps.

Section Safety.
Context {GC : Gcrypt} {LH : LuaHost}.

(** A world is well formed when every pointer in a struct is [NULL] or
    live: the handle of an object is an open context, and [out] is a live
    block of [gcry_malloc]. *)
Definition well_formed (w : World) : Prop :=
  (∀ u c, cipher_at w u = Some c →
     (∀ hd, cipher_h c = Some hd → is_Some (cipher_ctx (gcry w) !! hd)) ∧
     (∀ a, cipher_out c = Some a → is_Some (heap (gcry w) !! a))) ∧
  (∀ u s hd, hash_at w u = Some s → hash_h s = Some hd →
     is_Some (md_ctx (gcry w) !! hd)).

(** The objects among the arguments of a call are in the store and hold a
    handle: a script holds only objects that a constructor returned and that
    were not collected. *)
Definition arguments_open (w : World) (args : list LuaValue) : Prop :=
  ∀ u, LUserdata u ∈ args →
       (∃ hd o, udata (lua w) !! u = Some (UCipher (mkCipher (Some hd) o))) ∨
       (∃ hd, udata (lua w) !! u = Some (UHash (mkHash (Some hd)))).

(** The buffer that [gcry_md_read] hands out holds the digest of the
    algorithm: it has at least [gcry_md_get_algo_dlen] bytes. *)
Definition digest_fits : Prop :=
  ∀ c algo d c',
    md_read_fn c algo = (Some d, c') →
    (md_get_algo_dlen_fn algo ≤ length d)%nat.

(** No two objects hold the same context or the same block. *)
Definition unshared (w : World) : Prop :=
  (∀ u1 u2 c1 c2,
     u1 ≠ u2 →
     udata (lua w) !! u1 = Some (UCipher c1) →
     udata (lua w) !! u2 = Some (UCipher c2) →
     (∀ hd, cipher_h c1 = Some hd → cipher_h c2 ≠ Some hd) ∧
     (∀ a, cipher_out c1 = Some a → cipher_out c2 ≠ Some a)) ∧
  (∀ u1 u2 s1 s2,
     u1 ≠ u2 →
     udata (lua w) !! u1 = Some (UHash s1) →
     udata (lua w) !! u2 = Some (UHash s2) →
     ∀ hd, hash_h s1 = Some hd → hash_h s2 ≠ Some hd).

(** Every context that is open belongs to an object: some object of the
    store holds its handle. *)
Definition owned (w : World) : Prop :=
  (∀ hd, is_Some (cipher_ctx (gcry w) !! hd) →
     ∃ u o, udata (lua w) !! u = Some (UCipher (mkCipher (Some hd) o))) ∧
  (∀ hd, is_Some (md_ctx (gcry w) !! hd) →
     ∃ u, udata (lua w) !! u = Some (UHash (mkHash (Some hd)))).

(** No object holds a block: [out] is [NULL] in every cipher object. *)
Definition no_pending (w : World) : Prop :=
  ∀ u c, udata (lua w) !! u = Some (UCipher c) → cipher_out c = None.

(** The functions of the module without the two finalizers. *)
Definition safe_functions : list (M nat) := module_functions ++ listed_methods.

(** A step of a script that does not call a finalizer itself: a call of
    one of the other functions on objects it holds, or the collection of an
    object by the runtime. *)
Inductive safe_step : World → World → Prop :=
| safe_returns f args w vs w' :
    In f safe_functions →
    arguments_open w args →
    lua_call f args w = Ok vs w' →
    safe_step w w'
| safe_raises f args w e w' :
    In f safe_functions →
    arguments_open w args →
    lua_call f args w = Raise e w' →
    safe_step w w'
| safe_collects u w w' :
    lua_collect u w = Ok tt w' →
    safe_step w w'.

End Safety.

(** ** Registration

    [luaopen_luagcrypt] and what it calls, on the part of a Lua state that
    it touches: a stack of values, the tables behind the table values, and
    the registry of metatables.  A table value is a reference, so that a
    table can be a field of itself.  The constants of [gcrypt.h] that the
    module exports are taken from an interface, and so is the answer of the
    allocator of the runtime: a call that makes a table, a closure or a new
    field raises the memory error when there is no room.  The source builds
    against Lua 5.1, 5.2 and 5.3 or later; [LUA_VERSION_NUM] says which. *)
Class GcryptHeader := {
  GCRY_CIPHER_AES128 : Z;
  GCRY_CIPHER_AES192 : Z;
  GCRY_CIPHER_AES256 : Z;
  GCRY_CIPHER_MODE_CBC : Z;
  GCRY_MD_FLAG_HMAC : Z;
  GCRY_MD_SHA256 : Z
}.

Class LuaVersion := LUA_VERSION_NUM : Z.

Module Registration.
Section Registration.
Context {GC : Gcrypt} {LH : LuaHost} {GH : GcryptHeader} {LV : LuaVersion}.

Inductive TValue :=
| TFunction (f : M nat)
| TInteger (n : Z)
| TString (s : string)
| TTable (r : nat).

Record State := mkState {
  stack : list TValue;
  tables : gmap nat (gmap string TValue);
  registry : gmap string nat
}.

Inductive Outcome (A : Type) :=
| Ok (a : A) (s : State)
| Raise (e : LuaError)
| Crash.
Global Arguments Ok {A} a s.
Global Arguments Raise {A} e.
Global Arguments Crash {A}.

Definition R (A : Type) : Type := State → Outcome A.

(** Whether the runtime has room for what the next call allocates. *)
Class Room := room : State → bool.
Context {RM : Room}.

Definition has_room : Prop := ∀ s, room s = true.

Global Instance R_ret : MRet R := fun A a s => Ok a s.
Global Instance R_bind : MBind R := fun A B f m s =>
  match m s with
  | Ok a s' => f a s'
  | Raise e => Raise e
  | Crash => Crash
  end.

Definition lua_push (v : TValue) : R unit :=
  fun s => Ok tt (mkState (stack s ++ [v]) (tables s) (registry s)).

Definition lua_pop (n : nat) : R unit :=
  fun s => Ok tt (mkState (take (length (stack s) - n)%nat (stack s))
                    (tables s) (registry s)).

Definition lua_createtable : R unit :=
  fun s =>
    if room s then
      let r := fresh (dom (tables s)) in
      Ok tt (mkState (stack s ++ [TTable r]) (<[r := ∅]> (tables s))
               (registry s))
    else Raise ErrMem.

(** The table that [luaL_newmetatable] makes: empty in Lua 5.1 and 5.2;
    from Lua 5.3 on it holds the name of the type under [__name]. *)
Definition new_metatable (tname : string) : gmap string TValue :=
  if 503 <=? LUA_VERSION_NUM then {[ "__name"%string := TString tname ]}
  else ∅.

(** [luaL_newmetatable]: the table of the registry under [tname] if there
    is one, a new table put there otherwise; the table is pushed. *)
Definition luaL_newmetatable (tname : string) : R Z :=
  fun s =>
    match registry s !! tname with
    | Some r => Ok 0 (mkState (stack s ++ [TTable r]) (tables s) (registry s))
    | None =>
        if room s then
          let r := fresh (dom (tables s)) in
          Ok 1 (mkState (stack s ++ [TTable r])
                  (<[r := new_metatable tname]> (tables s))
                  (<[tname := r]> (registry s)))
        else Raise ErrMem
    end.

Definition lua_pushcclosure (f : M nat) : R unit :=
  fun s => if room s then lua_push (TFunction f) s else Raise ErrMem.
Definition lua_pushinteger (n : Z) : R unit := lua_push (TInteger n).

(** [lua_pushvalue(L, -1)] *)
Definition lua_pushvalue_top : R unit :=
  fun s =>
    match last (stack s) with
    | Some v => Ok tt (mkState (stack s ++ [v]) (tables s) (registry s))
    | None => Crash
    end.

Definition luaL_typename (v : TValue) : string :=
  match v with
  | TFunction _ => "function"
  | TInteger _ => "number"
  | TString _ => "string"
  | TTable _ => "table"
  end.

(** [lua_setfield(L, -2, k)]: the value on top is popped and becomes the
    field [k] of the table below it; a value below it that is no table
    cannot be indexed.  An index that is not on the stack is not defined,
    and neither is a reference to no table. *)
Definition lua_setfield (k : string) : R unit :=
  fun s =>
    match reverse (stack s) with
    | v :: TTable r :: below =>
        match tables s !! r with
        | Some t =>
            if room s then
              Ok tt (mkState (reverse (TTable r :: below))
                       (<[r := <[k := v]> t]> (tables s)) (registry s))
            else Raise ErrMem
        | None => Crash
        end
    | v :: x :: below =>
        Raise (ErrMsg "attempt to index a %s value" [luaL_typename x])
    | _ => Crash
    end.

(** An array of [luaL_Reg] ends with the entry [{NULL, NULL}], here
    [None]; reading past its end is not defined. *)
Fixpoint luaL_setfuncs_loop (l : list (option luaL_Reg)) : R unit :=
  match l with
  | Some (name, func) :: l' =>
      lua_pushcclosure func;;
      lua_setfield name;;
      luaL_setfuncs_loop l'
  | None :: _ => mret tt
  | [] => fun _ => Crash
  end.

(** The function of Lua 5.2 as the module defines it for Lua 5.1.  The
    module only calls it with [nup = 0], where the function of Lua 5.2 and
    later does the same. *)
Definition luaL_setfuncs (l : list (option luaL_Reg)) (nup : Z) : R unit :=
  (if negb (nup =? 0) then
     fun _ => Raise (ErrMsg "nup == 0 is not supported by this compat function" [])
   else mret tt);;
  luaL_setfuncs_loop l.

Definition luaL_newlib (l : list (option luaL_Reg)) : R unit :=
  lua_createtable;;
  luaL_setfuncs l 0.

Definition register_metatable (name : string) (funcs : list (option luaL_Reg))
  : R unit :=
  luaL_newmetatable name;;
  luaL_setfuncs funcs 0;;
  lua_pushvalue_top;;
  lua_setfield "__index";;
  lua_pop 1.

(** The arrays of the source, with their last entry. *)
Definition array (l : list luaL_Reg) : list (option luaL_Reg) :=
  map Some l ++ [None].

(** [INT_GCRY(name)] *)
Definition INT_GCRY (name : string) (value : Z) : R unit :=
  lua_pushinteger value;;
  lua_setfield name.

Definition luaopen_luagcrypt : R nat :=
  register_metatable "gcrypt.Cipher" (array lgcrypt_cipher_meta);;
  register_metatable "gcrypt.Hash" (array lgcrypt_hash_meta);;
  luaL_newlib (array lgcrypt);;
  INT_GCRY "CIPHER_AES128" GCRY_CIPHER_AES128;;
  INT_GCRY "CIPHER_AES192" GCRY_CIPHER_AES192;;
  INT_GCRY "CIPHER_AES256" GCRY_CIPHER_AES256;;
  INT_GCRY "CIPHER_MODE_CBC" GCRY_CIPHER_MODE_CBC;;
  INT_GCRY "MD_FLAG_HMAC" GCRY_MD_FLAG_HMAC;;
  INT_GCRY "MD_SHA256" GCRY_MD_SHA256;;
  mret 1%nat.

(** The entries of an array that the loop of [luaL_setfuncs] reaches. *)
Fixpoint entries (l : list (option luaL_Reg)) : list luaL_Reg :=
  match l with
  | Some e :: l' => e :: entries l'
  | _ => []
  end.

Definition terminated (l : list (option luaL_Reg)) : Prop := None ∈ l.

(** A table after the entries were stored in it one after the other. *)
Definition stored (es : list luaL_Reg) (t : gmap string TValue)
  : gmap string TValue :=
  fold_left (λ t e, <[e.1 := TFunction e.2]> t) es t.

(** [obj.name] for an object whose metatable is the table of the registry
    under [tname]: the field [name] of the table that is the [__index] of
    the metatable. *)
Definition index (s : State) (tname name : string) : option TValue :=
  r ← registry s !! tname;
  mt ← tables s !! r;
  match mt !! "__index" with
  | Some (TTable r') => t ← tables s !! r'; t !! name
  | _ => None
  end.

(** The names of the module table. *)
Definition module_names : gset string :=
  {[ "init"; "Cipher"; "Hash";
     "CIPHER_AES128"; "CIPHER_AES192"; "CIPHER_AES256";
     "CIPHER_MODE_CBC"; "MD_FLAG_HMAC"; "MD_SHA256" ]}.

(** The module table that [luaopen_luagcrypt] builds. *)
Definition module_table : gmap string TValue :=
  <["MD_SHA256" := TInteger GCRY_MD_SHA256]>
    (<["MD_FLAG_HMAC" := TInteger GCRY_MD_FLAG_HMAC]>
       (<["CIPHER_MODE_CBC" := TInteger GCRY_CIPHER_MODE_CBC]>
          (<["CIPHER_AES256" := TInteger GCRY_CIPHER_AES256]>
             (<["CIPHER_AES192" := TInteger GCRY_CIPHER_AES192]>
                (<["CIPHER_AES128" := TInteger GCRY_CIPHER_AES128]>
                   (stored lgcrypt ∅)))))).

(** A metatable after [register_metatable] stored [funcs] in the table
    [t] at [r]. *)
Definition metatable (r : nat) (funcs : list luaL_Reg) (t : gmap string TValue)
  : gmap string TValue :=
  <["__index" := TTable r]> (stored funcs t).

(** What [luaL_newmetatable] finds or makes for [name]. *)
Definition found (s : State) (name : string) (r : nat)
  (t : gmap string TValue) : Prop :=
  match registry s !! name with
  | Some r' => r' = r ∧ tables s !! r = Some t
  | None => r = fresh (dom (tables s)) ∧ t = new_metatable name
  end.

End Registration.
End Registration.

(** ** A header for the toy library *)
Module ToyHeader.

Definition header : GcryptHeader := {|
  GCRY_CIPHER_AES128 := Toy.GCRY_CIPHER_AES128;
  GCRY_CIPHER_AES192 := 8;
  GCRY_CIPHER_AES256 := 9;
  GCRY_CIPHER_MODE_CBC := Toy.GCRY_CIPHER_MODE_CBC;
  GCRY_MD_FLAG_HMAC := Toy.GCRY_MD_FLAG_HMAC;
  GCRY_MD_SHA256 := Toy.GCRY_MD_SHA256
|}.

(** A new Lua state, and a state with one empty table on the stack. *)
Definition room : Registration.Room (GC := Toy.gcrypt) := fun _ => true.

Definition lua51 : LuaVersion := 501.
Definition lua53 : LuaVersion := 503.

Definition state0 {GC : Gcrypt} : Registration.State :=
  Registration.mkState [] ∅ ∅.

Definition state1 {GC : Gcrypt} : Registration.State :=
  Registration.mkState [Registration.TTable 0] {[ 0%nat := ∅ ]} ∅.

Definition state_of {GC : Gcrypt} {A} (o : Registration.Outcome A)
  : Registration.State :=
  match o with
  | Registration.Ok _ s => s
  | _ => state0
  end.

End ToyHeader.

(** * Properties *)

Section Properties.
Context {GC : Gcrypt} {LH : LuaHost}.

(** Running a C function of the binding on a symbolic world: unfold the
    monad and the API, then compute, reading back what was just stored. *)
Ltac munfold :=
  unfold mbind, M_bind, mret, M_ret, raise, crash, get_lua, put_lua,
    get_gcry, put_gcry, log, luaL_error in *.

Ltac lg_unfold :=
  repeat progress unfold lua_call, enter, leave, crypt_call,
    lgcrypt_cipher_open, lgcrypt_cipher_new, lgcrypt_cipher___gc,
    lgcrypt_cipher_setkey, lgcrypt_cipher_setiv, lgcrypt_cipher_reset,
    lgcrypt_cipher_encrypt, lgcrypt_cipher_decrypt,
    lgcrypt_hash_open, lgcrypt_hash_new, lgcrypt_hash___gc,
    lgcrypt_hash_setkey, lgcrypt_hash_reset, lgcrypt_hash_write,
    lgcrypt_hash_read, lgcrypt_init,
    checkCipher, checkHash, luaL_checkudata, luaL_checklstring,
    luaL_checkint, luaL_checkinteger, luaL_optinteger,
    index2adr, lua_newuserdata, lua_pushlstring, lua_push, lua_pop,
    set_out, load_cipher, store_cipher, load_hash, store_hash,
    gcry_malloc, gcry_free, load_block,
    gcry_cipher_open, gcry_cipher_close, gcry_cipher_setkey,
    gcry_cipher_setiv, gcry_cipher_reset, gcry_cipher_encrypt,
    gcry_cipher_decrypt, cipher_of, put_cipher,
    gcry_md_open, gcry_md_close, gcry_md_setkey, gcry_md_reset,
    gcry_md_write, gcry_md_get_algo, gcry_md_is_enabled,
    gcry_md_get_algo_dlen, gcry_md_read, md_of, put_md,
    gcry_control, gcry_check_version, gcry_strerror,
    cipher_at, hash_at in *;
  munfold.

Ltac simp :=
  repeat (cbn;
          first [ rewrite lookup_insert_eq
                | match goal with
                  | H : ?m !! ?k = _ |- context [?m !! ?k] => rewrite H
                  | H : ?b = true |- context [?b] => rewrite H
                  | H : ?b = false |- context [?b] => rewrite H
                  | H : ?x = (_, _) |- context [?x] => rewrite H
                  end ]);
  cbn.

Lemma fresh_None {A} (m : gmap nat A) : m !! fresh (dom m) = None.
Proof. apply not_elem_of_dom, is_fresh. Qed.

Lemma length_store_bytes old written :
  length (store_bytes old written) = length old.
Proof.
  unfold store_bytes. rewrite length_take, length_app, length_drop. lia.
Qed.

Lemma length_crypt_output d c p : length (crypt_output d c p) = length p.
Proof.
  unfold crypt_output. by rewrite length_store_bytes, length_map, length_seq.
Qed.

(** ** The four ways out of [encrypt] and [decrypt] *)

Ltac run_crypt Eu Hc Hm E :=
  pose proof Eu; pose proof Hc; pose proof Hm;
  unfold crypt_fn in E; lg_unfold; simp.

Lemma crypt_alloc_failure d w u hd o c p :
  udata (lua w) !! u = Some (UCipher (mkCipher (Some hd) o)) →
  cipher_ctx (gcry w) !! hd = Some c →
  malloc_ok (heap (gcry w)) (length p) = false →
  ∃ w',
    lua_call (crypt_call d) [LUserdata u; LString p] w
      = Raise (ErrMsg (alloc_message d) []) w' ∧
    cipher_at w' u = Some (mkCipher (Some hd) None) ∧
    gcry w' = gcry w ∧
    calls w' = calls w ++ [Ev_malloc (length p) None].
Proof.
  intros Eu Hc Hm.
  destruct d; run_crypt Eu Hc Hm Hc;
    (eexists; split; [reflexivity|]); simp; done.
Qed.

Lemma crypt_provider_failure d w u hd o c p e c' written :
  udata (lua w) !! u = Some (UCipher (mkCipher (Some hd) o)) →
  cipher_ctx (gcry w) !! hd = Some c →
  malloc_ok (heap (gcry w)) (length p) = true →
  crypt_fn d c (length p) p = (e, c', written) →
  e ≠ GPG_ERR_NO_ERROR →
  let a := fresh (dom (heap (gcry w))) in
  ∃ w',
    lua_call (crypt_call d) [LUserdata u; LString p] w
      = Raise (ErrMsg (failure_message d) [gcry_strerror e]) w' ∧
    cipher_at w' u = Some (mkCipher (Some hd) None) ∧
    gcry w' = set_cipher_ctx (<[hd := c']> (cipher_ctx (gcry w))) (gcry w) ∧
    calls w' = calls w ++ [Ev_malloc (length p) (Some a);
                           crypt_event d hd a (length p) p; Ev_free a].
Proof.
  intros Eu Hc Hm E Hne a.
  apply Z.eqb_neq in Hne.
  destruct d; run_crypt Eu Hc Hm E;
    (eexists; split; [reflexivity|]); simp; (split; [done|]);
    rewrite insert_insert_eq, delete_insert_eq, delete_id by apply fresh_None;
    rewrite <- !app_assoc; by destruct (gcry w).
Qed.

Lemma crypt_success d w u hd o c p c' written :
  udata (lua w) !! u = Some (UCipher (mkCipher (Some hd) o)) →
  cipher_ctx (gcry w) !! hd = Some c →
  malloc_ok (heap (gcry w)) (length p) = true →
  crypt_fn d c (length p) p = (GPG_ERR_NO_ERROR, c', written) →
  let a := fresh (dom (heap (gcry w))) in
  let ct := store_bytes (map malloc_junk (seq 0 (length p))) written in
  lua_alloc (mkLua [LUserdata u; LString p]
     (<[u := UCipher (mkCipher (Some hd) (Some a))]> (udata (lua w))))
     (length p) = true →
  ∃ w',
    lua_call (crypt_call d) [LUserdata u; LString p] w = Ok [LString ct] w' ∧
    cipher_at w' u = Some (mkCipher (Some hd) None) ∧
    gcry w' = set_cipher_ctx (<[hd := c']> (cipher_ctx (gcry w))) (gcry w) ∧
    calls w' = calls w ++ [Ev_malloc (length p) (Some a);
                           crypt_event d hd a (length p) p;
                           Ev_pushlstring ct; Ev_free a].
Proof.
  intros Eu Hc Hm E a ct Ea.
  assert (Hlen : length ct = length p).
  { subst ct. by rewrite length_store_bytes, length_map, length_seq. }
  destruct d; run_crypt Eu Hc Hm E; fold a ct; rewrite Hlen, Nat.leb_refl; simp;
    rewrite (take_ge ct) by lia;
    (eexists; split; [reflexivity|]); simp; (split; [done|]);
    rewrite insert_insert_eq, delete_insert_eq, delete_id by apply fresh_None;
    rewrite <- !app_assoc; by destruct (gcry w).
Qed.


(** ** The finalizers *)

Lemma cipher_gc_run w u h o :
  udata (lua w) !! u = Some (UCipher (mkCipher h o)) →
  (∀ hd, h = Some hd → is_Some (cipher_ctx (gcry w) !! hd)) →
  (∀ a, o = Some a → is_Some (heap (gcry w) !! a)) →
  ∃ w',
    lua_call lgcrypt_cipher___gc [LUserdata u] w = Ok [] w' ∧
    udata (lua w') = udata (lua w) ∧
    gcry w' = set_heap (from_option (λ a, delete a (heap (gcry w))) (heap (gcry w)) o)
               (set_cipher_ctx
                  (from_option (λ hd, delete hd (cipher_ctx (gcry w)))
                     (cipher_ctx (gcry w)) h) (gcry w)) ∧
    calls w' = calls w ++ from_option (λ hd, [Ev_cipher_close hd]) [] h
                       ++ from_option (λ a, [Ev_free a]) [] o.
Proof.
  intros Eu Hh Ho.
  destruct h as [hd|]; [destruct (Hh hd eq_refl) as [c Hc]|];
    (destruct o as [a|]; [destruct (Ho a eq_refl) as [b Hb]|]);
    lg_unfold; simp; (eexists; split; [reflexivity|]); simp;
    rewrite <- ?app_assoc, ?app_nil_r; by destruct (gcry w).
Qed.
Lemma hash_gc_run w u h :
  udata (lua w) !! u = Some (UHash (mkHash h)) →
  (∀ hd, h = Some hd → is_Some (md_ctx (gcry w) !! hd)) →
  ∃ w',
    lua_call lgcrypt_hash___gc [LUserdata u] w = Ok [] w' ∧
    udata (lua w') = udata (lua w) ∧
    gcry w' = set_md_ctx (from_option (λ hd, delete hd (md_ctx (gcry w)))
                            (md_ctx (gcry w)) h) (gcry w) ∧
    calls w' = calls w ++ from_option (λ hd, [Ev_md_close hd]) [] h.
Proof.
  intros Eu Hh.
  destruct h as [hd|]; [destruct (Hh hd eq_refl) as [c Hc]|];
    lg_unfold; simp; (eexists; split; [reflexivity|]); simp;
    rewrite ?app_nil_r; by destruct (gcry w).
Qed.

(** A finalizer that finds a closed context behind its handle closes it
    again. *)
Lemma cipher_gc_stale w u hd o :
  udata (lua w) !! u = Some (UCipher (mkCipher (Some hd) o)) →
  cipher_ctx (gcry w) !! hd = None →
  lua_call lgcrypt_cipher___gc [LUserdata u] w
    = Crash "gcry_cipher_close of a handle that is not open".
Proof. intros Eu Hc. lg_unfold; simp. done. Qed.

Lemma hash_gc_stale w u hd :
  udata (lua w) !! u = Some (UHash (mkHash (Some hd))) →
  md_ctx (gcry w) !! hd = None →
  lua_call lgcrypt_hash___gc [LUserdata u] w
    = Crash "gcry_md_close of a handle that is not open".
Proof. intros Eu Hc. lg_unfold; simp. done. Qed.

(** ** Method lookup *)

Lemma lua_method_cipher w u c name args :
  udata (lua w) !! u = Some (UCipher c) →
  lua_method u name args w =
    match lookup_reg name lgcrypt_cipher_meta with
    | Some f => lua_call f (LUserdata u :: args) w
    | None => Raise (ErrMsg "attempt to call a nil value" []) w
    end.
Proof.
  intros Eu. unfold lua_method. munfold. cbv beta iota. rewrite Eu.
  change (object_field (UCipher c) name)
    with (lookup_reg name lgcrypt_cipher_meta). 
  by destruct (lookup_reg name lgcrypt_cipher_meta).
Qed.

Lemma lua_method_hash w u s name args :
  udata (lua w) !! u = Some (UHash s) →
  lua_method u name args w =
    match lookup_reg name lgcrypt_hash_meta with
    | Some f => lua_call f (LUserdata u :: args) w
    | None => Raise (ErrMsg "attempt to call a nil value" []) w
    end.
Proof.
  intros Eu. unfold lua_method. munfold. cbv beta iota. rewrite Eu.
  change (object_field (UHash s) name)
    with (lookup_reg name lgcrypt_hash_meta).
  by destruct (lookup_reg name lgcrypt_hash_meta).
Qed.
Lemma cipher_at_Some w u c :
  cipher_at w u = Some c ↔ udata (lua w) !! u = Some (UCipher c).
Proof.
  unfold cipher_at. destruct (udata (lua w) !! u) as [[]|]; naive_solver.
Qed.

Lemma hash_at_Some w u s :
  hash_at w u = Some s ↔ udata (lua w) !! u = Some (UHash s).
Proof.
  unfold hash_at. destruct (udata (lua w) !! u) as [[]|]; naive_solver.
Qed.

(** A block that a failed call left in [out] is not looked at by the next
    call: [out] is overwritten with the new block, and when that call is
    over the old block is still live with no pointer to it. *)
Lemma pending_block_outlives_next_call d w u hd q c p c' written :
  udata (lua w) !! u = Some (UCipher (mkCipher (Some hd) (Some q))) →
  is_Some (heap (gcry w) !! q) →
  cipher_ctx (gcry w) !! hd = Some c →
  malloc_ok (heap (gcry w)) (length p) = true →
  crypt_fn d c (length p) p = (GPG_ERR_NO_ERROR, c', written) →
  host_has_memory →
  ∃ vs w',
    lua_call (crypt_call d) [LUserdata u; LString p] w = Ok vs w' ∧
    cipher_at w' u = Some (mkCipher (Some hd) None) ∧
    is_Some (heap (gcry w') !! q).
Proof.
  intros Hu Hq Hc Hm E Hmem.
  destruct (crypt_success d w u hd (Some q) c p c' written Hu Hc Hm E (Hmem _ _))
    as (w' & Hrun & Hat & Hg & _).
  eexists _, w'. split; [done|]. split; [done|]. by rewrite Hg.
Qed.

(** ** Finalizing twice *)

(** The true half of the idempotence: on an object whose fields are both
    [NULL] the finalizer calls nothing and changes nothing. *)
Lemma finalize_absent_noop w u :
  (cipher_at w u = Some (mkCipher None None) →
   ∃ w', lua_method u "__gc" [] w = Ok [] w' ∧
         udata (lua w') = udata (lua w) ∧ gcry w' = gcry w ∧
         calls w' = calls w) ∧
  (hash_at w u = Some (mkHash None) →
   ∃ w', lua_method u "__gc" [] w = Ok [] w' ∧
         udata (lua w') = udata (lua w) ∧ gcry w' = gcry w ∧
         calls w' = calls w).
Proof.
  split; intros Hu.
  - apply cipher_at_Some in Hu.
    rewrite (lua_method_cipher _ _ _ _ _ Hu). cbn [lookup_reg lgcrypt_cipher_meta reg String.eqb Ascii.eqb Bool.eqb].
    destruct (cipher_gc_run w u None None Hu) as (w' & Hrun & Hud & Hg & Hc);
      [done..|].
    exists w'. cbn in Hg, Hc. rewrite app_nil_r in Hc.
    repeat split; try done. rewrite Hg. by destruct (gcry w).
  - apply hash_at_Some in Hu.
    rewrite (lua_method_hash _ _ _ _ _ Hu). cbn [lookup_reg lgcrypt_hash_meta reg String.eqb Ascii.eqb Bool.eqb].
    destruct (hash_gc_run w u None Hu) as (w' & Hrun & Hud & Hg & Hc);
      [done..|].
    exists w'. cbn in Hg, Hc. rewrite app_nil_r in Hc.
    repeat split; try done. rewrite Hg. by destruct (gcry w).
Qed.

(** C2 (the code departs from it).  The finalizer closes the context and
    leaves the handle in the struct: after a first [__gc] on an open object
    the field [h] still holds the address of the context that was closed,
    and a second [__gc] hands it to [gcry_cipher_close] or [gcry_md_close]
    once more. *)
Theorem finalize_twice_closes_twice w u hd :
  (cipher_at w u = Some (mkCipher (Some hd) None) →
   is_Some (cipher_ctx (gcry w) !! hd) →
   ∃ w', lua_method u "__gc" [] w = Ok [] w' ∧
         cipher_at w' u = Some (mkCipher (Some hd) None) ∧
         cipher_ctx (gcry w') !! hd = None ∧
         calls w' = calls w ++ [Ev_cipher_close hd] ∧
         lua_method u "__gc" [] w'
           = Crash "gcry_cipher_close of a handle that is not open") ∧
  (hash_at w u = Some (mkHash (Some hd)) →
   is_Some (md_ctx (gcry w) !! hd) →
   ∃ w', lua_method u "__gc" [] w = Ok [] w' ∧
         hash_at w' u = Some (mkHash (Some hd)) ∧
         md_ctx (gcry w') !! hd = None ∧
         calls w' = calls w ++ [Ev_md_close hd] ∧
         lua_method u "__gc" [] w'
           = Crash "gcry_md_close of a handle that is not open").
Proof.
  split; intros Hu Hlive.
  - apply cipher_at_Some in Hu.
    rewrite (lua_method_cipher _ _ _ _ _ Hu). cbn [lookup_reg lgcrypt_cipher_meta reg String.eqb Ascii.eqb Bool.eqb].
    destruct (cipher_gc_run w u (Some hd) None Hu) as (w' & Hrun & Hud & Hg & Hc);
      [by intros ? [= <-] | done |].
    exists w'. cbn in Hg, Hc.
    assert (Hu' : udata (lua w') !! u = Some (UCipher (mkCipher (Some hd) None)))
      by by rewrite Hud.
    assert (Hd : cipher_ctx (gcry w') !! hd = None)
      by (rewrite Hg; cbn; apply lookup_delete_eq).
    split; [done|]. split; [by apply cipher_at_Some|]. split; [done|].
    split; [done|].
    rewrite (lua_method_cipher _ _ _ _ _ Hu'). cbn [lookup_reg lgcrypt_cipher_meta reg String.eqb Ascii.eqb Bool.eqb].
    by apply (cipher_gc_stale w' u hd None).
  - apply hash_at_Some in Hu.
    rewrite (lua_method_hash _ _ _ _ _ Hu). cbn [lookup_reg lgcrypt_hash_meta reg String.eqb Ascii.eqb Bool.eqb].
    destruct (hash_gc_run w u (Some hd) Hu) as (w' & Hrun & Hud & Hg & Hc);
      [by intros ? [= <-] |].
    exists w'. cbn in Hg, Hc.
    assert (Hu' : udata (lua w') !! u = Some (UHash (mkHash (Some hd))))
      by by rewrite Hud.
    assert (Hd : md_ctx (gcry w') !! hd = None)
      by (rewrite Hg; cbn; apply lookup_delete_eq).
    split; [done|]. split; [by apply hash_at_Some|]. split; [done|].
    split; [done|].
    rewrite (lua_method_hash _ _ _ _ _ Hu'). cbn [lookup_reg lgcrypt_hash_meta reg String.eqb Ascii.eqb Bool.eqb].
    by apply (hash_gc_stale w' u hd).
Qed.
(** ** Methods on a finalized object *)

Ltac pick_method Hu :=
  first [ rewrite (lua_method_cipher _ _ _ _ _ Hu)
        | rewrite (lua_method_hash _ _ _ _ _ Hu) ];
  cbn [lookup_reg lgcrypt_cipher_meta lgcrypt_hash_meta reg
       String.eqb Ascii.eqb Bool.eqb].

Lemma cipher_method_stale w u hd o :
  udata (lua w) !! u = Some (UCipher (mkCipher (Some hd) o)) →
  cipher_ctx (gcry w) !! hd = None →
  ∀ s,
    lua_method u "setkey" [LString s] w
      = Crash "cipher handle used after gcry_cipher_close" ∧
    lua_method u "setiv" [LString s] w
      = Crash "cipher handle used after gcry_cipher_close" ∧
    lua_method u "reset" [] w
      = Crash "cipher handle used after gcry_cipher_close" ∧
    (malloc_ok (heap (gcry w)) (length s) = true →
     lua_method u "encrypt" [LString s] w
       = Crash "cipher handle used after gcry_cipher_close" ∧
     lua_method u "decrypt" [LString s] w
       = Crash "cipher handle used after gcry_cipher_close").
Proof.
  intros Hu Hc s.
  repeat split; pick_method Hu; lg_unfold; simp; done.
Qed.

Lemma hash_method_stale w u hd :
  udata (lua w) !! u = Some (UHash (mkHash (Some hd))) →
  md_ctx (gcry w) !! hd = None →
  ∀ s,
    lua_method u "setkey" [LString s] w
      = Crash "digest handle used after gcry_md_close" ∧
    lua_method u "reset" [] w
      = Crash "digest handle used after gcry_md_close" ∧
    lua_method u "write" [LString s] w
      = Crash "digest handle used after gcry_md_close" ∧
    lua_method u "read" [] w
      = Crash "digest handle used after gcry_md_close".
Proof.
  intros Hu Hc s.
  repeat split; pick_method Hu; lg_unfold; simp; done.
Qed.

(** C9 (the code departs from it).  [__gc] is an entry of the method
    table, and the table is its own [__index]: a script reaches the
    finalizer as [obj:__gc()].  The call closes the context and leaves its
    address in [h], so the object is still reachable and every later
    method runs on a context that is closed. *)
Theorem method_after_finalize w u hd :
  (cipher_at w u = Some (mkCipher (Some hd) None) →
   is_Some (cipher_ctx (gcry w) !! hd) →
   ∃ w', lua_method u "__gc" [] w = Ok [] w' ∧
         cipher_at w' u = Some (mkCipher (Some hd) None) ∧
         cipher_ctx (gcry w') !! hd = None ∧
         ∀ s,
           lua_method u "setkey" [LString s] w'
             = Crash "cipher handle used after gcry_cipher_close" ∧
           lua_method u "setiv" [LString s] w'
             = Crash "cipher handle used after gcry_cipher_close" ∧
           lua_method u "reset" [] w'
             = Crash "cipher handle used after gcry_cipher_close" ∧
           (malloc_ok (heap (gcry w')) (length s) = true →
            lua_method u "encrypt" [LString s] w'
              = Crash "cipher handle used after gcry_cipher_close" ∧
            lua_method u "decrypt" [LString s] w'
              = Crash "cipher handle used after gcry_cipher_close")) ∧
  (hash_at w u = Some (mkHash (Some hd)) →
   is_Some (md_ctx (gcry w) !! hd) →
   ∃ w', lua_method u "__gc" [] w = Ok [] w' ∧
         hash_at w' u = Some (mkHash (Some hd)) ∧
         md_ctx (gcry w') !! hd = None ∧
         ∀ s,
           lua_method u "setkey" [LString s] w'
             = Crash "digest handle used after gcry_md_close" ∧
           lua_method u "reset" [] w'
             = Crash "digest handle used after gcry_md_close" ∧
           lua_method u "write" [LString s] w'
             = Crash "digest handle used after gcry_md_close" ∧
           lua_method u "read" [] w'
             = Crash "digest handle used after gcry_md_close").
Proof.
  split; intros Hu Hlive.
  - apply cipher_at_Some in Hu. pick_method Hu.
    destruct (cipher_gc_run w u (Some hd) None Hu) as (w' & Hrun & Hud & Hg & Hc);
      [by intros ? [= <-] | done |].
    exists w'. cbn in Hg, Hc.
    assert (Hu' : udata (lua w') !! u = Some (UCipher (mkCipher (Some hd) None)))
      by by rewrite Hud.
    assert (Hd : cipher_ctx (gcry w') !! hd = None)
      by (rewrite Hg; cbn; apply lookup_delete_eq).
    split; [done|]. split; [by apply cipher_at_Some|]. split; [done|].
    by apply (cipher_method_stale w' u hd None).
  - apply hash_at_Some in Hu. pick_method Hu.
    destruct (hash_gc_run w u (Some hd) Hu) as (w' & Hrun & Hud & Hg & Hc);
      [by intros ? [= <-] |].
    exists w'. cbn in Hg, Hc.
    assert (Hu' : udata (lua w') !! u = Some (UHash (mkHash (Some hd))))
      by by rewrite Hud.
    assert (Hd : md_ctx (gcry w') !! hd = None)
      by (rewrite Hg; cbn; apply lookup_delete_eq).
    split; [done|]. split; [by apply hash_at_Some|]. split; [done|].
    by apply (hash_method_stale w' u hd).
Qed.
(** ** The constructors *)

Lemma collect_absent_cipher w u :
  udata (lua w) !! u = Some (UCipher (mkCipher None None)) →
  ∃ w', lua_collect u w = Ok tt w' ∧
        udata (lua w') = delete u (udata (lua w)) ∧
        gcry w' = gcry w ∧ calls w' = calls w.
Proof.
  intros Hu. unfold lua_collect, luaL_getmetatable. lg_unfold. simp.
  lg_unfold. simp. eexists. split; [reflexivity|]. done.
Qed.

Lemma collect_absent_hash w u :
  udata (lua w) !! u = Some (UHash (mkHash None)) →
  ∃ w', lua_collect u w = Ok tt w' ∧
        udata (lua w') = delete u (udata (lua w)) ∧
        gcry w' = gcry w ∧ calls w' = calls w.
Proof.
  intros Hu. unfold lua_collect, luaL_getmetatable. lg_unfold. simp.
  lg_unfold. simp. eexists. split; [reflexivity|]. done.
Qed.

Lemma cipher_open_failure w a m err c :
  let args := [LInteger a; LInteger m] in
  lua_alloc (mkLua args (udata (lua w))) sizeof_LgcryptCipher = true →
  cipher_open_fn (int_of a) (int_of m) 0 = (err, c) →
  err ≠ GPG_ERR_NO_ERROR →
  let u := fresh (dom (udata (lua w))) in
  ∃ w',
    lgcrypt_cipher_open (enter args w) = Raise (cipher_open_error err) w' ∧
    stack (lua w') = args ∧
    udata (lua w') = <[u := UCipher (mkCipher None None)]> (udata (lua w)) ∧
    gcry w' = gcry w ∧
    calls w' = calls w ++ [Ev_cipher_open (int_of a) (int_of m) 0].
Proof.
  intros args Ha E Hne u. apply Z.eqb_neq in Hne.
  lg_unfold; simp.
  eexists. split; [reflexivity|]. simp.
  rewrite insert_insert_eq. done.
Qed.

Lemma cipher_open_success w a m c :
  let args := [LInteger a; LInteger m] in
  lua_alloc (mkLua args (udata (lua w))) sizeof_LgcryptCipher = true →
  cipher_open_fn (int_of a) (int_of m) 0 = (GPG_ERR_NO_ERROR, c) →
  let u := fresh (dom (udata (lua w))) in
  let hd := fresh (dom (cipher_ctx (gcry w))) in
  ∃ w',
    lua_call lgcrypt_cipher_open args w = Ok [LUserdata u] w' ∧
    udata (lua w') = <[u := UCipher (mkCipher (Some hd) None)]> (udata (lua w)) ∧
    gcry w' = set_cipher_ctx (<[hd := c]> (cipher_ctx (gcry w))) (gcry w) ∧
    calls w' = calls w ++ [Ev_cipher_open (int_of a) (int_of m) 0].
Proof.
  intros args Ha E u hd.
  lg_unfold; simp.
  eexists. split; [reflexivity|]. simp.
  rewrite insert_insert_eq. done.
Qed.

Lemma hash_open_failure w a flags err c :
  let args := hash_args a flags in
  lua_alloc (mkLua args (udata (lua w))) sizeof_LgcryptHash = true →
  md_open_fn (int_of a) (uint_of (default 0 flags)) = (err, c) →
  err ≠ GPG_ERR_NO_ERROR →
  let u := fresh (dom (udata (lua w))) in
  ∃ w',
    lgcrypt_hash_open (enter args w) = Raise (md_open_error err) w' ∧
    stack (lua w') = args ∧
    udata (lua w') = <[u := UHash (mkHash None)]> (udata (lua w)) ∧
    gcry w' = gcry w ∧
    calls w' = calls w ++ [Ev_md_open (int_of a) (uint_of (default 0 flags))].
Proof.
  intros args Ha E Hne u. apply Z.eqb_neq in Hne. subst args.
  destruct flags as [f|]; cbn in *;
    lg_unfold; simp;
    (eexists; split; [reflexivity|]); simp;
    rewrite insert_insert_eq; done.
Qed.

Lemma hash_open_success w a flags c :
  let args := hash_args a flags in
  lua_alloc (mkLua args (udata (lua w))) sizeof_LgcryptHash = true →
  md_open_fn (int_of a) (uint_of (default 0 flags)) = (GPG_ERR_NO_ERROR, c) →
  let u := fresh (dom (udata (lua w))) in
  let hd := fresh (dom (md_ctx (gcry w))) in
  ∃ w',
    lua_call lgcrypt_hash_open args w = Ok [LUserdata u] w' ∧
    udata (lua w') = <[u := UHash (mkHash (Some hd))]> (udata (lua w)) ∧
    gcry w' = set_md_ctx (<[hd := c]> (md_ctx (gcry w))) (gcry w) ∧
    calls w' = calls w ++ [Ev_md_open (int_of a) (uint_of (default 0 flags))].
Proof.
  intros args Ha E u hd. subst args.
  destruct flags as [f|]; cbn in *;
    lg_unfold; simp;
    (eexists; split; [reflexivity|]); simp;
    rewrite insert_insert_eq; done.
Qed.
(** C3.  When the library refuses to open the context, [Cipher] and [Hash]
    pop the object they made, raise a ProviderError and return nothing; the
    object stays in the store with a [NULL] handle, no context was opened,
    and its collection later calls nothing in the library.  When the library
    opens the context, the constructor returns the object, whose handle is
    the new context. *)
Theorem constructor_outcomes w :
  (∀ a m err c,
     let args := [LInteger a; LInteger m] in
     let u := fresh (dom (udata (lua w))) in
     let hd := fresh (dom (cipher_ctx (gcry w))) in
     lua_alloc (mkLua args (udata (lua w))) sizeof_LgcryptCipher = true →
     cipher_open_fn (int_of a) (int_of m) 0 = (err, c) →
     (err ≠ GPG_ERR_NO_ERROR →
      ∃ w',
        lgcrypt_cipher_open (enter args w) = Raise (cipher_open_error err) w' ∧
        lua_call lgcrypt_cipher_open args w
          = Raise (cipher_open_error err) (leave w') ∧
        error_kind (cipher_open_error err) = Some ProviderError ∧
        stack (lua w') = args ∧
        cipher_at w' u = Some (mkCipher None None) ∧
        gcry w' = gcry w ∧
        ∃ w'', lua_collect u (leave w') = Ok tt w'' ∧
               udata (lua w'') = udata (lua w) ∧
               gcry w'' = gcry w ∧ calls w'' = calls w') ∧
     (err = GPG_ERR_NO_ERROR →
      ∃ w',
        lua_call lgcrypt_cipher_open args w = Ok [LUserdata u] w' ∧
        cipher_at w' u = Some (mkCipher (Some hd) None) ∧
        cipher_ctx (gcry w') !! hd = Some c)) ∧
  (∀ a flags err c,
     let args := hash_args a flags in
     let u := fresh (dom (udata (lua w))) in
     let hd := fresh (dom (md_ctx (gcry w))) in
     lua_alloc (mkLua args (udata (lua w))) sizeof_LgcryptHash = true →
     md_open_fn (int_of a) (uint_of (default 0 flags)) = (err, c) →
     (err ≠ GPG_ERR_NO_ERROR →
      ∃ w',
        lgcrypt_hash_open (enter args w) = Raise (md_open_error err) w' ∧
        lua_call lgcrypt_hash_open args w
          = Raise (md_open_error err) (leave w') ∧
        error_kind (md_open_error err) = Some ProviderError ∧
        stack (lua w') = args ∧
        hash_at w' u = Some (mkHash None) ∧
        gcry w' = gcry w ∧
        ∃ w'', lua_collect u (leave w') = Ok tt w'' ∧
               udata (lua w'') = udata (lua w) ∧
               gcry w'' = gcry w ∧ calls w'' = calls w') ∧
     (err = GPG_ERR_NO_ERROR →
      ∃ w',
        lua_call lgcrypt_hash_open args w = Ok [LUserdata u] w' ∧
        hash_at w' u = Some (mkHash (Some hd)) ∧
        md_ctx (gcry w') !! hd = Some c)).
Proof.
  split.
  - intros a m err c args u hd Ha E. subst args. split.
    + intros Hne.
      destruct (cipher_open_failure w a m err c Ha E Hne)
        as (w' & Hrun & Hst & Hud & Hg & Hc).
      exists w'. split; [done|].
      split; [unfold lua_call; by rewrite Hrun|].
      split; [done|]. split; [done|].
      assert (Hu : udata (lua w') !! u = Some (UCipher (mkCipher None None)))
        by (rewrite Hud; apply lookup_insert_eq).
      split; [by apply cipher_at_Some|]. split; [done|].
      destruct (collect_absent_cipher (leave w') u Hu) as (w'' & Hcol & Hud' & Hg' & Hc').
      exists w''. split; [done|]. cbn in *. rewrite Hud', Hg', Hc', Hud.
      rewrite delete_insert_eq, delete_id by apply fresh_None. done.
    + intros ->.
      destruct (cipher_open_success w a m c Ha E) as (w' & Hrun & Hud & Hg & Hc).
      exists w'. split; [done|]. split.
      * apply cipher_at_Some. rewrite Hud. apply lookup_insert_eq.
      * rewrite Hg. cbn. apply lookup_insert_eq.
  - intros a flags err c args u hd Ha E. subst args. split.
    + intros Hne.
      destruct (hash_open_failure w a flags err c Ha E Hne)
        as (w' & Hrun & Hst & Hud & Hg & Hc).
      exists w'. split; [done|].
      split; [unfold lua_call; by rewrite Hrun|].
      split; [done|]. split; [done|].
      assert (Hu : udata (lua w') !! u = Some (UHash (mkHash None)))
        by (rewrite Hud; apply lookup_insert_eq).
      split; [by apply hash_at_Some|]. split; [done|].
      destruct (collect_absent_hash (leave w') u Hu) as (w'' & Hcol & Hud' & Hg' & Hc').
      exists w''. split; [done|]. cbn in *. rewrite Hud', Hg', Hc', Hud.
      rewrite delete_insert_eq, delete_id by apply fresh_None. done.
    + intros ->.
      destruct (hash_open_success w a flags c Ha E) as (w' & Hrun & Hud & Hg & Hc).
      exists w'. split; [done|]. split.
      * apply hash_at_Some. rewrite Hud. apply lookup_insert_eq.
      * rewrite Hg. cbn. apply lookup_insert_eq.
Qed.
(** ** Lengths *)

(** Reading a run backwards: case analysis on every test the function made
    on its way to the outcome in [H]. *)
Ltac invert_run H :=
  repeat (cbn in H; rewrite ?lookup_insert_eq in H;
          first [ discriminate H
                | match type of H with
                  | context [match ?x with _ => _ end] =>
                      lazymatch x with
                      | context [match _ with _ => _ end] => fail
                      | _ => destruct x eqn:?; simplify_eq/=
                      end
                  end ]).

Lemma drop_frame {A} (x y : A) (rest : list A) :
  drop (length (rest ++ [y])) (x :: rest ++ [y]) = [y].
Proof.
  rewrite length_app, Nat.add_1_r. cbn. apply drop_app_length.
Qed.

(** C4.  Whatever the object and the world, when encrypt or decrypt of the
    string [p] returns, it returns one string, as long as [p]; the block it
    asked of [gcry_malloc] had the length of [p], the library was told to
    fill the length of [p], and nothing was added or cut. *)
Theorem crypt_length d w v p rest vs w' :
  lua_call (crypt_call d) (v :: LString p :: rest) w = Ok vs w' →
  ∃ u hd a ct,
    v = LUserdata u ∧ vs = [LString ct] ∧ length ct = length p ∧
    calls w' = calls w ++ [Ev_malloc (length p) (Some a);
                           crypt_event d hd a (length p) p;
                           Ev_pushlstring ct; Ev_free a].
Proof.
  intros H. destruct d; lg_unfold; invert_run H.
  all: eexists _, _, _, _; split; [done|].
  all: split; [apply drop_frame|].
  all: split; [rewrite length_take, length_store_bytes, length_map, length_seq; lia|].
  all: by rewrite <- !app_assoc.
Qed.
(** C10.  Encrypt and decrypt of the empty string ask [gcry_malloc] for
    zero bytes.  When the allocator answers [NULL] to that, the call raises
    the ResourceError of a failed allocation; when it answers a block, and
    the library and the runtime go on, the call returns the empty string.
    The binding has no case of its own for the empty input. *)
Theorem crypt_empty_input d w u hd o c :
  cipher_at w u = Some (mkCipher (Some hd) o) →
  cipher_ctx (gcry w) !! hd = Some c →
  let run := lua_call (crypt_call d) [LUserdata u; LString []] w in
  let a := fresh (dom (heap (gcry w))) in
  (malloc_ok (heap (gcry w)) 0 = false →
   ∃ w', run = Raise (ErrMsg (alloc_message d) []) w' ∧
         error_kind (ErrMsg (alloc_message d) []) = Some ResourceError ∧
         calls w' = calls w ++ [Ev_malloc 0 None]) ∧
  (malloc_ok (heap (gcry w)) 0 = true →
   (crypt_fn d c 0 []).1.1 = GPG_ERR_NO_ERROR →
   lua_alloc (mkLua [LUserdata u; LString []]
      (<[u := UCipher (mkCipher (Some hd) (Some a))]> (udata (lua w)))) 0 = true →
   ∃ w', run = Ok [LString []] w' ∧
         calls w' = calls w ++ [Ev_malloc 0 (Some a); crypt_event d hd a 0 [];
                                Ev_pushlstring []; Ev_free a]).
Proof.
  intros Hu Hc run a. subst run. apply cipher_at_Some in Hu. split.
  - intros Hm.
    destruct (crypt_alloc_failure d w u hd o c [] Hu Hc Hm)
      as (w' & Hrun & _ & _ & Hcalls).
    exists w'. split; [done|]. split; [by destruct d|done].
  - intros Hm He Ha.
    destruct (crypt_fn d c 0 []) as [[e c'] written] eqn:E. cbn in He. subst e.
    destruct (crypt_success d w u hd o c [] c' written Hu Hc Hm E Ha)
      as (w' & Hrun & _ & _ & Hcalls).
    exists w'. split; done.
Qed.
(** ** Reading a digest *)


(** ** Initialisation *)

(** C6.  [init] asks the library whether its initialisation was finished.
    If so it raises a UsageError and does nothing else.  If not it checks
    the version, disables the secure memory and marks the initialisation as
    finished, in this order, and returns no value. *)
Theorem init_outcomes args w :
  let already := ErrMsg "libgcrypt was already initialized" [] in
  error_kind already = Some UsageError ∧
  lua_call lgcrypt_init args w =
    if init_finished (gcry w) then
      Raise already
        (mkWorld (mkLua [] (udata (lua w))) (gcry w)
           (calls w ++ [Ev_control GCRYCTL_INITIALIZATION_FINISHED_P]))
    else
      Ok []
        (mkWorld (mkLua [] (udata (lua w)))
           (set_init_finished true (set_secmem_disabled true (gcry w)))
           (calls w ++ [Ev_control GCRYCTL_INITIALIZATION_FINISHED_P;
                        Ev_check_version;
                        Ev_control GCRYCTL_DISABLE_SECMEM;
                        Ev_control GCRYCTL_INITIALIZATION_FINISHED])).
Proof.
  split; [done|].
  lg_unfold. cbn.
  destruct (init_finished (gcry w)); cbn; [done|].
  by rewrite <- !app_assoc, drop_ge by lia.
Qed.
(** ** Sequences of calls *)

Lemma bind_Ok {A B} (m : M A) (f : A → M B) w a w' :
  m w = Ok a w' → (m ≫= f) w = f a w'.
Proof. intros H. unfold mbind, M_bind. by rewrite H. Qed.

Lemma bind_Raise {A B} (m : M A) (f : A → M B) w e w' :
  m w = Raise e w' → (m ≫= f) w = Raise e w'.
Proof. intros H. unfold mbind, M_bind. by rewrite H. Qed.

Lemma bind_Crash {A B} (m : M A) (f : A → M B) w why :
  m w = Crash why → (m ≫= f) w = Crash why.
Proof. intros H. unfold mbind, M_bind. by rewrite H. Qed.

Lemma store_bytes_full old written :
  length written = length old → store_bytes old written = written.
Proof.
  intros H. unfold store_bytes.
  rewrite drop_ge by lia. rewrite app_nil_r. apply take_ge. lia.
Qed.

Lemma cipher_setkey_run w u hd o c k c1 :
  udata (lua w) !! u = Some (UCipher (mkCipher (Some hd) o)) →
  cipher_ctx (gcry w) !! hd = Some c →
  cipher_setkey_fn c k = (GPG_ERR_NO_ERROR, c1) →
  ∃ w', lua_method u "setkey" [LString k] w = Ok [] w' ∧
        udata (lua w') = udata (lua w) ∧
        gcry w' = set_cipher_ctx (<[hd := c1]> (cipher_ctx (gcry w))) (gcry w) ∧
        calls w' = calls w ++ [Ev_cipher_setkey hd k].
Proof.
  intros Hu Hc E. pick_method Hu. lg_unfold; simp.
  eexists. split; [reflexivity|]. done.
Qed.

Lemma cipher_setiv_run w u hd o c v c1 :
  udata (lua w) !! u = Some (UCipher (mkCipher (Some hd) o)) →
  cipher_ctx (gcry w) !! hd = Some c →
  cipher_setiv_fn c v = (GPG_ERR_NO_ERROR, c1) →
  ∃ w', lua_method u "setiv" [LString v] w = Ok [] w' ∧
        udata (lua w') = udata (lua w) ∧
        gcry w' = set_cipher_ctx (<[hd := c1]> (cipher_ctx (gcry w))) (gcry w) ∧
        calls w' = calls w ++ [Ev_cipher_setiv hd v].
Proof.
  intros Hu Hc E. pick_method Hu. lg_unfold; simp.
  eexists. split; [reflexivity|]. done.
Qed.

Lemma prepared_cipher_run w algo mode k v c0 c1 c2 :
  host_has_memory →
  cipher_open_fn (int_of algo) (int_of mode) 0 = (GPG_ERR_NO_ERROR, c0) →
  cipher_setkey_fn c0 k = (GPG_ERR_NO_ERROR, c1) →
  cipher_setiv_fn c1 v = (GPG_ERR_NO_ERROR, c2) →
  ∃ u hd w',
    prepared_cipher algo mode k v w = Ok u w' ∧
    udata (lua w') !! u = Some (UCipher (mkCipher (Some hd) None)) ∧
    cipher_ctx (gcry w') !! hd = Some c2.
Proof.
  intros Hmem Eo Ek Ev.
  destruct (cipher_open_success w algo mode c0 (Hmem _ _) Eo)
    as (w1 & H1 & Hud1 & Hg1 & _).
  set (u := fresh (dom (udata (lua w)))) in *.
  set (hd := fresh (dom (cipher_ctx (gcry w)))) in *.
  assert (Hu1 : udata (lua w1) !! u = Some (UCipher (mkCipher (Some hd) None)))
    by (rewrite Hud1; apply lookup_insert_eq).
  assert (Hc1 : cipher_ctx (gcry w1) !! hd = Some c0)
    by (rewrite Hg1; cbn; apply lookup_insert_eq).
  destruct (cipher_setkey_run w1 u hd None c0 k c1 Hu1 Hc1 Ek)
    as (w2 & H2 & Hud2 & Hg2 & _).
  assert (Hu2 : udata (lua w2) !! u = Some (UCipher (mkCipher (Some hd) None)))
    by by rewrite Hud2.
  assert (Hc2 : cipher_ctx (gcry w2) !! hd = Some c1)
    by (rewrite Hg2; cbn; apply lookup_insert_eq).
  destruct (cipher_setiv_run w2 u hd None c1 v c2 Hu2 Hc2 Ev)
    as (w3 & H3 & Hud3 & Hg3 & _).
  exists u, hd, w3. split.
  - unfold prepared_cipher.
    rewrite (bind_Ok _ _ w u w1)
      by (rewrite (bind_Ok _ _ w _ w1 H1); reflexivity).
    rewrite (bind_Ok _ _ w1 _ w2 H2).
    rewrite (bind_Ok _ _ w2 _ w3 H3). reflexivity.
  - split; [by rewrite Hud3|]. rewrite Hg3. cbn. apply lookup_insert_eq.
Qed.
(** ** Round trip *)

(** C7 (amended).  Over a library whose decryption inverts its encryption
    on contexts that took the same key and IV, with a runtime that has
    memory left and an allocator that has a block of the length of the
    plaintext: for a key and an IV that the library accepts and a plaintext
    of whole blocks, decrypting on a second handle, prepared with the same
    key and IV, what a prepared handle encrypted returns the plaintext; the
    binding hands the bytes through unchanged in both directions.  On the
    handle that encrypted, decrypt runs on the context that the encryption
    left: the script gets what the library's decryption makes of the
    ciphertext from there, or the ProviderError of its status. *)
Theorem cipher_roundtrip w algo mode blk k v p c0 c1 c2 :
  cipher_inverts (int_of algo) (int_of mode) blk →
  host_has_memory →
  malloc_gives (length p) →
  cipher_open_fn (int_of algo) (int_of mode) 0 = (GPG_ERR_NO_ERROR, c0) →
  cipher_setkey_fn c0 k = (GPG_ERR_NO_ERROR, c1) →
  cipher_setiv_fn c1 v = (GPG_ERR_NO_ERROR, c2) →
  (length p mod blk = 0)%nat →
  ∃ c3 ct,
    cipher_encrypt_fn c2 (length p) p = (GPG_ERR_NO_ERROR, c3, ct) ∧
    (∃ w', roundtrip_on_second_handle algo mode k v p w = Ok [LString p] w') ∧
    result_of (roundtrip algo mode k v p w) =
      (let err := (cipher_decrypt_fn c3 (length ct) ct).1.1 in
       if err =? GPG_ERR_NO_ERROR
       then Some (inl [LString (crypt_output Dec c3 ct)])
       else Some (inr (ErrMsg "gcry_cipher_decrypt() failed with %s"
                         [gcry_strerror err]))).
Proof.
  intros Hinv Hmem Hmal Eo Ek Ev Hblk.
  destruct (Hinv c0 k c1 v c2 p Eo Ek Ev Hblk) as (c3 & ct & c4 & Eenc & Hlen & Edec).
  exists c3, ct. split; [done|].
  destruct (prepared_cipher_run w algo mode k v c0 c1 c2 Hmem Eo Ek Ev)
    as (e & hde & w1 & H1 & Hu1 & Hc1).
  destruct (crypt_success Enc w1 e hde None c2 p c3 ct Hu1 Hc1 (Hmal _) Eenc
              (Hmem _ _)) as (w2 & H2 & Hat2 & Hg2 & _).
  rewrite store_bytes_full in H2 by by rewrite length_map, length_seq.
  split.
  - destruct (prepared_cipher_run w2 algo mode k v c0 c1 c2 Hmem Eo Ek Ev)
      as (d & hdd & w3 & H3 & Hu3 & Hc3).
    rewrite <- Hlen in Edec.
    assert (Hmal' : malloc_ok (heap (gcry w3)) (length ct) = true)
      by (rewrite Hlen; apply Hmal).
    destruct (crypt_success Dec w3 d hdd None c2 ct c4 p Hu3 Hc3 Hmal' Edec
                (Hmem _ _)) as (w4 & H4 & _).
    rewrite store_bytes_full in H4 by by rewrite length_map, length_seq.
    exists w4. unfold roundtrip_on_second_handle.
    rewrite (bind_Ok _ _ w e w1 H1).
    rewrite (bind_Ok _ _ w1 ct w2).
    2:{ rewrite (bind_Ok _ _ w1 [LString ct] w2); [done|].
        by rewrite (lua_method_cipher _ _ _ _ _ Hu1). }
    rewrite (bind_Ok _ _ w2 d w3 H3).
    by rewrite (lua_method_cipher _ _ _ _ _ Hu3).
  - apply cipher_at_Some in Hat2.
    assert (Hc2 : cipher_ctx (gcry w2) !! hde = Some c3)
      by (rewrite Hg2; cbn; apply lookup_insert_eq).
    assert (Hmal' : malloc_ok (heap (gcry w2)) (length ct) = true)
      by (rewrite Hlen; apply Hmal).
    unfold roundtrip.
    rewrite (bind_Ok _ _ w e w1 H1).
    rewrite (bind_Ok _ _ w1 ct w2).
    2:{ rewrite (bind_Ok _ _ w1 [LString ct] w2); [done|].
        by rewrite (lua_method_cipher _ _ _ _ _ Hu1). }
    rewrite (lua_method_cipher _ _ _ _ _ Hat2).
    change (lookup_reg "decrypt" lgcrypt_cipher_meta)
      with (Some lgcrypt_cipher_decrypt).
    cbv beta iota.
    destruct (cipher_decrypt_fn c3 (length ct) ct) as [[err c5] q] eqn:Edec3.
    cbn [fst]. destruct (err =? GPG_ERR_NO_ERROR) eqn:Eerr.
    + apply Z.eqb_eq in Eerr. subst err.
      destruct (crypt_success Dec w2 e hde None c3 ct c5 q Hat2 Hc2 Hmal' Edec3
                  (Hmem _ _)) as (w3 & H3 & _).
      change (crypt_call Dec) with lgcrypt_cipher_decrypt in H3.
      rewrite H3. unfold crypt_output. cbn [crypt_fn]. by rewrite Edec3.
    + apply Z.eqb_neq in Eerr.
      destruct (crypt_provider_failure Dec w2 e hde None c3 ct err c5 q
                  Hat2 Hc2 Hmal' Edec3 Eerr) as (w3 & H3 & _).
      change (crypt_call Dec) with lgcrypt_cipher_decrypt in H3.
      by rewrite H3.
Qed.
(** ** Digests *)

Lemma hash_write_run w u hd c s :
  udata (lua w) !! u = Some (UHash (mkHash (Some hd))) →
  md_ctx (gcry w) !! hd = Some c →
  ∃ w', lua_method u "write" [LString s] w = Ok [] w' ∧
        udata (lua w') = udata (lua w) ∧
        md_ctx (gcry w') !! hd = Some (md_write_fn c s).
Proof.
  intros Hu Hc. pick_method Hu. lg_unfold; simp.
  eexists. split; [reflexivity|]. simp. done.
Qed.

Lemma write_all_run chunks : ∀ w u hd c,
  udata (lua w) !! u = Some (UHash (mkHash (Some hd))) →
  md_ctx (gcry w) !! hd = Some c →
  ∃ w', write_all u chunks w = Ok tt w' ∧
        udata (lua w') = udata (lua w) ∧
        md_ctx (gcry w') !! hd = Some (fold_left md_write_fn chunks c).
Proof.
  induction chunks as [|s chunks IH]; intros w u hd c Hu Hc.
  - exists w. done.
  - destruct (hash_write_run w u hd c s Hu Hc) as (w1 & H1 & Hud1 & Hc1).
    destruct (IH w1 u hd (md_write_fn c s)) as (w2 & H2 & Hud2 & Hc2);
      [by rewrite Hud1 | done |].
    exists w2. split; [|split; [congruence|done]].
    cbn [write_all]. by rewrite (bind_Ok _ _ w [] w1 H1).
Qed.

(** Over a library that streams, writing chunks one after the other is
    writing their concatenation once. *)
Lemma fold_write_concat chunks : ∀ c s,
  md_write_streams →
  fold_left md_write_fn chunks (md_write_fn c s)
    = md_write_fn c (s ++ concat chunks).
Proof.
  induction chunks as [|x chunks IH]; intros c s Hst; cbn.
  - by rewrite app_nil_r.
  - rewrite Hst. rewrite IH by done. by rewrite <- app_assoc.
Qed.

Lemma hash_read_result w u hd c :
  host_has_memory →
  udata (lua w) !! u = Some (UHash (mkHash (Some hd))) →
  md_ctx (gcry w) !! hd = Some c →
  result_of (lua_method u "read" [] w) = read_result c.
Proof.
  intros Hmem Hu Hc. pick_method Hu. unfold read_result.
  destruct (md_is_enabled_fn c (int_of (md_get_algo_fn c))) eqn:Hen;
    [|lg_unfold; simp; done].
  destruct (md_get_algo_dlen_fn (int_of (md_get_algo_fn c)) =? 0)%nat eqn:Hz;
    [lg_unfold; simp; done|].
  destruct (md_read_fn c (int_of (md_get_algo_fn c))) as [[dg|] c'] eqn:E;
    [|lg_unfold; simp; done].
  cbn [fst].
  destruct (md_get_algo_dlen_fn (int_of (md_get_algo_fn c)) <=? length dg)%nat
    eqn:Hle; [|lg_unfold; simp; done].
  lg_unfold; simp. rewrite Hmem. simp. done.
Qed.

Lemma digest_of_result w algo chunk chunks :
  md_write_streams →
  host_has_memory →
  result_of (digest_of algo (chunk :: chunks) w)
    = digest_result algo (concat (chunk :: chunks)).
Proof.
  intros Hst Hmem. unfold digest_of, digest_result.
  destruct (md_open_fn (int_of algo) (uint_of 0)) as [err c0] eqn:Eo.
  destruct (err =? GPG_ERR_NO_ERROR) eqn:Ee.
  - apply Z.eqb_eq in Ee. subst err.
    destruct (hash_open_success w algo None c0 (Hmem _ _) Eo)
      as (w1 & H1 & Hud1 & Hg1 & _).
    set (u := fresh (dom (udata (lua w)))) in *.
    set (hd := fresh (dom (md_ctx (gcry w)))) in *.
    assert (Hu1 : udata (lua w1) !! u = Some (UHash (mkHash (Some hd))))
      by (rewrite Hud1; apply lookup_insert_eq).
    assert (Hc1 : md_ctx (gcry w1) !! hd = Some c0)
      by (rewrite Hg1; cbn; apply lookup_insert_eq).
    destruct (write_all_run (chunk :: chunks) w1 u hd c0 Hu1 Hc1)
      as (w2 & H2 & Hud2 & Hc2).
    cbn [fold_left] in Hc2. rewrite fold_write_concat in Hc2 by done.
    rewrite (bind_Ok _ _ w u w1)
      by (rewrite (bind_Ok _ _ w _ w1 H1); reflexivity).
    rewrite (bind_Ok _ _ w1 tt w2 H2).
    apply hash_read_result with hd; [done| by rewrite Hud2 | done].
  - apply Z.eqb_neq in Ee.
    destruct (hash_open_failure w algo None err c0 (Hmem _ _) Eo Ee)
      as (w1 & H1 & _).
    assert (H1' : lua_call lgcrypt_hash_open [LInteger algo] w
                  = Raise (md_open_error err) (leave w1))
      by (change (hash_args algo None) with [LInteger algo] in H1;
          unfold lua_call; by rewrite H1).
    rewrite (bind_Raise _ _ w _ _ (bind_Raise _ _ w _ _ H1')). done.
Qed.

(** C8.  Over a library that streams and a runtime with memory left: two
    scripts that open a digest of the same algorithm, write the same bytes
    in one or more chunks, cut anywhere, and read, see the same thing, in
    whatever worlds they run.  What they see is a function of the
    algorithm and of the bytes. *)
Theorem digest_determinism algo chunks1 chunks2 w1 w2 :
  md_write_streams →
  host_has_memory →
  chunks1 ≠ [] →
  chunks2 ≠ [] →
  concat chunks1 = concat chunks2 →
  result_of (digest_of algo chunks1 w1) = result_of (digest_of algo chunks2 w2) ∧
  result_of (digest_of algo chunks1 w1) = digest_result algo (concat chunks1).
Proof.
  intros Hst Hmem Hn1 Hn2 Hcat.
  destruct chunks1 as [|x1 chunks1]; [done|].
  destruct chunks2 as [|x2 chunks2]; [done|].
  rewrite !digest_of_result by assumption. split; [by f_equal | reflexivity].
Qed.
(** ** What the listed methods leave alone *)

Ltac use_lookups :=
  repeat match goal with
         | H : ?m !! ?k = _, H' : context [?m !! ?k] |- _ => rewrite H in H'
         | H : ?m !! ?k = _ |- context [?m !! ?k] => rewrite H
         end.

Ltac keep_ctx :=
  repeat split; cbn;
  [ intros ? ?; rewrite ?lookup_insert_is_Some'; auto
  | intros ? ?; rewrite ?lookup_insert_is_Some'; auto
  | intros ? [? ?] Hat; unfold cipher_at in *; cbn in *;
    repeat (rewrite lookup_insert in *; case_decide; simplify_eq/=);
    use_lookups; simplify_eq/=; eauto
  | intros ? ? Hat; unfold hash_at in *; cbn in *;
    repeat (rewrite lookup_insert in *; case_decide; simplify_eq/=);
    use_lookups; simplify_eq/=; eauto ].

(** None of setkey, setiv, reset, encrypt, decrypt, write and read
    closes a context or changes the handle of an object, whatever its
    arguments are and however it ends. *)
Lemma listed_methods_keep_contexts f args w w' :
  In f listed_methods →
  (∃ vs, lua_call f args w = Ok vs w') ∨
  (∃ e, lua_call f args w = Raise e w') →
  keeps_contexts w w'.
Proof.
  intros Hin Hrun. unfold listed_methods in Hin. cbn in Hin.
  repeat (destruct Hin as [<-|Hin]); [..|done];
    destruct Hrun as [[vs H]|[e H]]; lg_unfold; invert_run H; keep_ctx.
Qed.

Lemma keeps_contexts_refl w : keeps_contexts w w.
Proof.
  repeat split; try done. intros u [h o] H. by exists o.
Qed.

Lemma keeps_contexts_trans w1 w2 w3 :
  keeps_contexts w1 w2 → keeps_contexts w2 w3 → keeps_contexts w1 w3.
Proof.
  intros (Hc1 & Hm1 & Hu1 & Hh1) (Hc2 & Hm2 & Hu2 & Hh2).
  repeat split; [naive_solver..| |naive_solver].
  intros u c H. destruct (Hu1 u c H) as [o Ho]. apply (Hu2 u _ Ho).
Qed.

(** The invariant behind C9, as far as it holds: along any sequence of
    calls of the listed methods, an object that holds an open context
    still holds it, open.  [__gc] is not one of the listed methods. *)
Lemma listed_methods_preserve_open w w' :
  rtc listed_step w w' →
  keeps_contexts w w' ∧
  (∀ u hd, cipher_is_open w u hd → cipher_is_open w' u hd) ∧
  (∀ u hd, hash_is_open w u hd → hash_is_open w' u hd).
Proof.
  intros Hsteps.
  assert (Hk : keeps_contexts w w').
  { induction Hsteps as [w|w1 w2 w3 Hstep _ IH]; [apply keeps_contexts_refl|].
    apply keeps_contexts_trans with w2; [|done].
    destruct Hstep as [f args w1 vs w2 Hin Hrun|f args w1 e w2 Hin Hrun];
      apply (listed_methods_keep_contexts f args); eauto. }
  split; [done|]. destruct Hk as (Hc & Hm & Hu & Hh). split.
  - intros u hd [[o Ho] Hlive]. split; [|by apply Hc].
    destruct (Hu u _ Ho) as [o' Ho']. by exists o'.
  - intros u hd [Ho Hlive]. split; [by apply Hh | by apply Hm].
Qed.

(** ** Configuring a cipher, updating a digest *)

(** X1.  [setkey], [setiv] and [reset] on an open cipher object hand the
    argument to the library once, and do what its status says: they return
    nothing on [GPG_ERR_NO_ERROR] and raise a ProviderError with the text of
    [gcry_strerror] otherwise.  Either way the context is the one the
    library left, and no object has changed. *)
Lemma cipher_config_outcomes cfg w u hd o c :
  cipher_at w u = Some (mkCipher (Some hd) o) →
  cipher_ctx (gcry w) !! hd = Some c →
  let err := (config_fn cfg c).1 in
  let c' := (config_fn cfg c).2 in
  let failure := ErrMsg (config_message cfg) [gcry_strerror err] in
  ∃ w',
    lua_call (config_call cfg) (LUserdata u :: config_args cfg) w
      = (if err =? GPG_ERR_NO_ERROR then Ok [] w' else Raise failure w') ∧
    error_kind failure = Some ProviderError ∧
    udata (lua w') = udata (lua w) ∧
    gcry w' = set_cipher_ctx (<[hd := c']> (cipher_ctx (gcry w))) (gcry w) ∧
    calls w' = calls w ++ [config_event cfg hd].
Proof.
  intros Hu Hc err c' failure. apply cipher_at_Some in Hu.
  subst err c' failure.
  destruct cfg as [key|iv|]; cbn [config_fn config_call config_args
                                  config_message config_event];
    [destruct (cipher_setkey_fn c key) as [e c1] eqn:E
    |destruct (cipher_setiv_fn c iv) as [e c1] eqn:E
    |destruct (cipher_reset_fn c) as [e c1] eqn:E];
    cbn [fst snd]; lg_unfold; simp;
    (destruct (e =? GPG_ERR_NO_ERROR) eqn:Ee; simp;
     (eexists; split; [reflexivity|]); done).
Qed.

(** X2.  [setkey] on an open digest object hands the key to
    [gcry_md_setkey] once; it returns nothing on [GPG_ERR_NO_ERROR] and
    raises a ProviderError with the text of [gcry_strerror] otherwise. *)
Lemma hash_setkey_outcomes w u hd c key :
  hash_at w u = Some (mkHash (Some hd)) →
  md_ctx (gcry w) !! hd = Some c →
  let err := (md_setkey_fn c key).1 in
  let c' := (md_setkey_fn c key).2 in
  let failure := ErrMsg "gcry_md_setkey() failed with %s" [gcry_strerror err] in
  ∃ w',
    lua_call lgcrypt_hash_setkey [LUserdata u; LString key] w
      = (if err =? GPG_ERR_NO_ERROR then Ok [] w' else Raise failure w') ∧
    error_kind failure = Some ProviderError ∧
    udata (lua w') = udata (lua w) ∧
    gcry w' = set_md_ctx (<[hd := c']> (md_ctx (gcry w))) (gcry w) ∧
    calls w' = calls w ++ [Ev_md_setkey hd key].
Proof.
  intros Hu Hc err c' failure. apply hash_at_Some in Hu.
  subst err c' failure.
  destruct (md_setkey_fn c key) as [e c1] eqn:E.
  cbn [fst snd]; lg_unfold; simp.
  destruct (e =? GPG_ERR_NO_ERROR) eqn:Ee; simp;
    (eexists; split; [reflexivity|]); done.
Qed.

(** X3.  [reset] and [write] on an open digest object always return, with
    no result: the library gives no status for them and none is looked at.
    The context is what [gcry_md_reset] or [gcry_md_write] made of it. *)
Lemma hash_update_never_fails upd w u hd c :
  hash_at w u = Some (mkHash (Some hd)) →
  md_ctx (gcry w) !! hd = Some c →
  ∃ w',
    lua_call (update_call upd) (LUserdata u :: update_args upd) w = Ok [] w' ∧
    udata (lua w') = udata (lua w) ∧
    gcry w' = set_md_ctx (<[hd := update_fn upd c]> (md_ctx (gcry w))) (gcry w) ∧
    calls w' = calls w ++ [update_event upd hd].
Proof.
  intros Hu Hc. apply hash_at_Some in Hu.
  destruct upd as [|buffer];
    cbn [update_call update_args update_fn update_event]; lg_unfold; simp;
    (eexists; split; [reflexivity|]); done.
Qed.

(** ** Argument checks *)

(** X4.  A method of a cipher called on anything but a cipher object raises the
    type error of [luaL_checkudata] for its first argument, and a method of
    a digest called on anything but a digest object does the same: no
    method looks at a struct of the other type, the finalizers included. *)
Lemma methods_reject_other_objects f args w :
  (In f cipher_functions → not_a_cipher w args →
   lua_call f args w = Raise (ErrArg 1 "gcrypt.Cipher") (leave (enter args w))) ∧
  (In f hash_functions → not_a_hash w args →
   lua_call f args w = Raise (ErrArg 1 "gcrypt.Hash") (leave (enter args w))).
Proof.
  split; intros Hin Hnot; cbn in Hin;
    repeat (destruct Hin as [<-|Hin]); try done;
    unfold not_a_cipher, not_a_hash in Hnot;
    (destruct (args !! 0%nat) as [[| | | |u]|] eqn:E0;
     [..|destruct (Hnot u eq_refl) as [s Hs]|]);
    lg_unfold; simp; done.
Qed.

(** Running forwards: case analysis on every test the function makes, down
    to each of its outcomes. *)
Ltac explore :=
  repeat (cbn; rewrite ?lookup_insert_eq;
          match goal with
          | |- context [match ?x with _ => _ end] =>
              lazymatch x with
              | context [match _ with _ => _ end] => fail
              | _ => let E := fresh "E" in
                     destruct x eqn:E; cbn in E; rewrite ?lookup_insert_eq in E;
                     simplify_eq/=
              end
          end).

(** What any call of a function of the module leaves alone. *)
Lemma call_footprint f args w :
  In f binding_functions →
  match lua_call f args w with
  | Ok _ w' => init_finished (gcry w) = true → init_finished (gcry w') = true
  | Raise e w' =>
      (init_finished (gcry w) = true → init_finished (gcry w') = true) ∧
      (∀ narg expected,
         e = ErrArg narg expected →
         udata (lua w') = udata (lua w) ∧
         gcry w' = gcry w ∧
         (calls w' = calls w ∨ ∃ hd, calls w' = calls w ++ [Ev_md_get_algo hd]))
  | Crash _ => True
  end.
Proof.
  intros Hin. cbn in Hin.
  repeat (destruct Hin as [<-|Hin]); [..|done]; lg_unfold; explore;
    try done; (split; [done|]); intros; simplify_eq/=; eauto.
Qed.

(** X5.  Whatever function of the module raises an argument error has changed
    no object and nothing in the library: the checks come before the work.
    [read] is the one function that has called the library by then, for the
    algorithm that is the default of its second argument. *)
Lemma argument_errors_change_nothing f args w narg expected w' :
  In f binding_functions →
  lua_call f args w = Raise (ErrArg narg expected) w' →
  udata (lua w') = udata (lua w) ∧
  gcry w' = gcry w ∧
  (calls w' = calls w ∨ ∃ hd, calls w' = calls w ++ [Ev_md_get_algo hd]).
Proof.
  intros Hin H. pose proof (call_footprint f args w Hin) as Hfp.
  rewrite H in Hfp. by apply (proj2 Hfp narg expected).
Qed.

(** X6.  A method that takes a string, called on an object of its type with a
    second argument that is absent or is neither a string nor a number,
    raises the error of [luaL_checklstring] for argument 2. *)
Lemma string_methods_check_their_argument f args w u :
  args !! 0%nat = Some (LUserdata u) →
  not_a_string (args !! 1%nat) →
  (In f cipher_string_methods → is_Some (cipher_at w u) →
   lua_call f args w = Raise (ErrArg 2 "string expected") (leave (enter args w))) ∧
  (In f hash_string_methods → is_Some (hash_at w u) →
   lua_call f args w = Raise (ErrArg 2 "string expected") (leave (enter args w))).
Proof.
  intros H0 H1.
  split; intros Hin [d Hd]; cbn in Hin;
    [apply cipher_at_Some in Hd | apply hash_at_Some in Hd];
    (destruct (args !! 1%nat) as [[| | | |]|] eqn:E1; try done);
    repeat (destruct Hin as [<-|Hin]); try done;
    lg_unfold; simp; done.
Qed.

(** ** Constructors: new objects, new contexts *)

(** A status cannot be tested both ways. *)
Ltac absurd_status :=
  match goal with
  | H1 : ?b = true, H2 : negb ?b = true |- _ =>
      rewrite H1 in H2; discriminate H2
  | H1 : ?b = false, H2 : negb ?b = false |- _ =>
      rewrite H1 in H2; discriminate H2
  end.

Lemma drop_one_result {A} (l : list A) (x : A) :
  drop (length (l ++ [x]) - 1) (l ++ [x]) = [x].
Proof.
  rewrite length_app. cbn. rewrite Nat.add_sub. apply drop_app_length.
Qed.

(** Every call of [Cipher] that returns, whatever its arguments, returns
    one object that was not in the store, holding a context that was not
    open; nothing else in the store or in the library has changed. *)
Lemma cipher_open_returns_new args w vs w' :
  lua_call lgcrypt_cipher_open args w = Ok vs w' →
  ∃ u hd c,
    vs = [LUserdata u] ∧
    udata (lua w) !! u = None ∧
    cipher_ctx (gcry w) !! hd = None ∧
    udata (lua w') = <[u := UCipher (mkCipher (Some hd) None)]> (udata (lua w)) ∧
    gcry w' = set_cipher_ctx (<[hd := c]> (cipher_ctx (gcry w))) (gcry w).
Proof.
  intros H. lg_unfold; invert_run H; try absurd_status.
  all: eexists _, _, _; split; [apply drop_one_result|].
  all: split; [apply fresh_None|]; split; [apply fresh_None|].
  all: by rewrite insert_insert_eq.
Qed.

Lemma hash_open_returns_new args w vs w' :
  lua_call lgcrypt_hash_open args w = Ok vs w' →
  ∃ u hd c,
    vs = [LUserdata u] ∧
    udata (lua w) !! u = None ∧
    md_ctx (gcry w) !! hd = None ∧
    udata (lua w') = <[u := UHash (mkHash (Some hd))]> (udata (lua w)) ∧
    gcry w' = set_md_ctx (<[hd := c]> (md_ctx (gcry w))) (gcry w).
Proof.
  intros H. lg_unfold; invert_run H; try absurd_status.
  all: eexists _, _, _; split; [apply drop_one_result|].
  all: split; [apply fresh_None|]; split; [apply fresh_None|].
  all: by rewrite insert_insert_eq.
Qed.

(** X7.  Two objects that [Cipher] made never share a context, and neither do
    two objects that [Hash] made: the second call leaves the first object
    as it was and gives its own object a handle of its own. *)
Lemma constructors_do_not_alias args1 args2 w u1 w1 u2 w2 :
  (lua_call lgcrypt_cipher_open args1 w = Ok [LUserdata u1] w1 →
   lua_call lgcrypt_cipher_open args2 w1 = Ok [LUserdata u2] w2 →
   ∃ hd1 hd2,
     u1 ≠ u2 ∧ hd1 ≠ hd2 ∧
     cipher_is_open w2 u1 hd1 ∧ cipher_is_open w2 u2 hd2) ∧
  (lua_call lgcrypt_hash_open args1 w = Ok [LUserdata u1] w1 →
   lua_call lgcrypt_hash_open args2 w1 = Ok [LUserdata u2] w2 →
   ∃ hd1 hd2,
     u1 ≠ u2 ∧ hd1 ≠ hd2 ∧
     hash_is_open w2 u1 hd1 ∧ hash_is_open w2 u2 hd2).
Proof.
  split; intros H1 H2.
  - apply cipher_open_returns_new in H1 as (u & hd1 & c1 & [= <-] & Hu1 & Hh1 & Hud1 & Hg1).
    apply cipher_open_returns_new in H2 as (u & hd2 & c2 & [= <-] & Hu2 & Hh2 & Hud2 & Hg2).
    rewrite Hud1 in Hu2. rewrite Hg1 in Hh2. cbn in Hh2.
    apply lookup_insert_None in Hu2 as [_ Hne].
    apply lookup_insert_None in Hh2 as [_ Hne'].
    exists hd1, hd2. split; [done|]. split; [done|].
    unfold cipher_is_open, cipher_at. rewrite Hud2, Hud1, Hg2, Hg1. cbn.
    rewrite lookup_insert_eq, lookup_insert_ne, lookup_insert_eq by done.
    rewrite lookup_insert_eq, lookup_insert_ne, lookup_insert_eq by done.
    repeat split; eauto.
  - apply hash_open_returns_new in H1 as (u & hd1 & c1 & [= <-] & Hu1 & Hh1 & Hud1 & Hg1).
    apply hash_open_returns_new in H2 as (u & hd2 & c2 & [= <-] & Hu2 & Hh2 & Hud2 & Hg2).
    rewrite Hud1 in Hu2. rewrite Hg1 in Hh2. cbn in Hh2.
    apply lookup_insert_None in Hu2 as [_ Hne].
    apply lookup_insert_None in Hh2 as [_ Hne'].
    exists hd1, hd2. split; [done|]. split; [done|].
    unfold hash_is_open, hash_at. rewrite Hud2, Hud1, Hg2, Hg1. cbn.
    rewrite lookup_insert_eq, lookup_insert_ne, lookup_insert_eq by done.
    rewrite lookup_insert_eq, lookup_insert_ne, lookup_insert_eq by done.
    repeat split; eauto.
Qed.

(** ** Collection *)

Lemma collect_cipher_run w u h o :
  udata (lua w) !! u = Some (UCipher (mkCipher h o)) →
  (∀ hd, h = Some hd → is_Some (cipher_ctx (gcry w) !! hd)) →
  (∀ a, o = Some a → is_Some (heap (gcry w) !! a)) →
  ∃ w',
    lua_collect u w = Ok tt w' ∧
    udata (lua w') = delete u (udata (lua w)) ∧
    gcry w' = set_heap (from_option (λ a, delete a (heap (gcry w))) (heap (gcry w)) o)
               (set_cipher_ctx
                  (from_option (λ hd, delete hd (cipher_ctx (gcry w)))
                     (cipher_ctx (gcry w)) h) (gcry w)) ∧
    calls w' = calls w ++ from_option (λ hd, [Ev_cipher_close hd]) [] h
                       ++ from_option (λ a, [Ev_free a]) [] o.
Proof.
  intros Hu Hh Ho.
  destruct (cipher_gc_run w u h o Hu Hh Ho) as (w1 & Hrun & Hud & Hg & Hc).
  unfold lua_collect. munfold. cbv beta iota. rewrite Hu.
  change (luaL_getmetatable (tname_of (UCipher (mkCipher h o))))
    with (Some (register_metatable "gcrypt.Cipher" lgcrypt_cipher_meta)).
  cbv beta iota.
  change (lookup_reg "__gc" (mt_funcs (register_metatable "gcrypt.Cipher" lgcrypt_cipher_meta)))
    with (Some lgcrypt_cipher___gc).
  cbv beta iota. rewrite Hrun.
  eexists. split; [reflexivity|]. cbn. by rewrite Hud.
Qed.

Lemma collect_hash_run w u h :
  udata (lua w) !! u = Some (UHash (mkHash h)) →
  (∀ hd, h = Some hd → is_Some (md_ctx (gcry w) !! hd)) →
  ∃ w',
    lua_collect u w = Ok tt w' ∧
    udata (lua w') = delete u (udata (lua w)) ∧
    gcry w' = set_md_ctx (from_option (λ hd, delete hd (md_ctx (gcry w)))
                            (md_ctx (gcry w)) h) (gcry w) ∧
    calls w' = calls w ++ from_option (λ hd, [Ev_md_close hd]) [] h.
Proof.
  intros Hu Hh.
  destruct (hash_gc_run w u h Hu Hh) as (w1 & Hrun & Hud & Hg & Hc).
  unfold lua_collect. munfold. cbv beta iota. rewrite Hu.
  change (luaL_getmetatable (tname_of (UHash (mkHash h))))
    with (Some (register_metatable "gcrypt.Hash" lgcrypt_hash_meta)).
  cbv beta iota.
  change (lookup_reg "__gc" (mt_funcs (register_metatable "gcrypt.Hash" lgcrypt_hash_meta)))
    with (Some lgcrypt_hash___gc).
  cbv beta iota. rewrite Hrun.
  eexists. split; [reflexivity|]. cbn. by rewrite Hud.
Qed.

Lemma set_cipher_ctx_id (g : GcryState) : set_cipher_ctx (cipher_ctx g) g = g.
Proof. by destruct g. Qed.

Lemma set_md_ctx_id (g : GcryState) : set_md_ctx (md_ctx g) g = g.
Proof. by destruct g. Qed.

(** X8.  An object that is made and then collected without being used leaves
    nothing behind: the store and the whole state of the library are what
    they were before the constructor ran, and the library saw one open and
    one close. *)
Lemma open_then_collect_restores args w u w1 :
  (lua_call lgcrypt_cipher_open args w = Ok [LUserdata u] w1 →
   ∃ hd w2,
     lua_collect u w1 = Ok tt w2 ∧
     udata (lua w2) = udata (lua w) ∧ gcry w2 = gcry w ∧
     calls w2 = calls w1 ++ [Ev_cipher_close hd]) ∧
  (lua_call lgcrypt_hash_open args w = Ok [LUserdata u] w1 →
   ∃ hd w2,
     lua_collect u w1 = Ok tt w2 ∧
     udata (lua w2) = udata (lua w) ∧ gcry w2 = gcry w ∧
     calls w2 = calls w1 ++ [Ev_md_close hd]).
Proof.
  split; intros H.
  - apply cipher_open_returns_new in H as (u' & hd & c & [= <-] & Hu & Hh & Hud & Hg).
    destruct (collect_cipher_run w1 u (Some hd) None) as (w2 & Hrun & Hud2 & Hg2 & Hc2).
    + rewrite Hud. apply lookup_insert_eq.
    + intros ? [= <-]. rewrite Hg. cbn. by rewrite lookup_insert_eq.
    + done.
    + exists hd, w2. split; [done|]. rewrite Hud2, Hg2, Hud, Hg. cbn.
      rewrite !delete_insert_eq, !delete_id by done.
      split; [done|]. split; [by destruct (gcry w)|]. by rewrite Hc2.
  - apply hash_open_returns_new in H as (u' & hd & c & [= <-] & Hu & Hh & Hud & Hg).
    destruct (collect_hash_run w1 u (Some hd)) as (w2 & Hrun & Hud2 & Hg2 & Hc2).
    + rewrite Hud. apply lookup_insert_eq.
    + intros ? [= <-]. rewrite Hg. cbn. by rewrite lookup_insert_eq.
    + exists hd, w2. split; [done|]. rewrite Hud2, Hg2, Hud, Hg. cbn.
      rewrite !delete_insert_eq, !delete_id by done.
      split; [done|]. split; [by destruct (gcry w)|]. by rewrite Hc2.
Qed.

(** ** Initialisation happens once *)

Lemma call_keeps_init_finished f args w w' :
  In f binding_functions →
  (∃ vs, lua_call f args w = Ok vs w') ∨
  (∃ e, lua_call f args w = Raise e w') →
  init_finished (gcry w) = true →
  init_finished (gcry w') = true.
Proof.
  intros Hin Hrun. pose proof (call_footprint f args w Hin) as Hfp.
  destruct Hrun as [[vs H]|[e H]]; rewrite H in Hfp; tauto.
Qed.

(** What [lua_collect] does to an object: its [__gc], then the release of
    the block. *)
Lemma lua_collect_unfold u w :
  lua_collect u w =
    match udata (lua w) !! u with
    | Some d =>
        match lua_call (match d with
                        | UCipher _ => lgcrypt_cipher___gc
                        | UHash _ => lgcrypt_hash___gc
                        end) [LUserdata u] w with
        | Ok _ w1 =>
            Ok tt (mkWorld (mkLua (stack (lua w1)) (delete u (udata (lua w1))))
                     (gcry w1) (calls w1))
        | Raise e w1 => Raise e w1
        | Crash why => Crash why
        end
    | None => Ok tt w
    end.
Proof.
  unfold lua_collect. munfold. cbv beta iota.
  destruct (udata (lua w) !! u) as [[c|s]|]; [| |done].
  - change (luaL_getmetatable (tname_of (UCipher c)))
      with (Some (register_metatable "gcrypt.Cipher" lgcrypt_cipher_meta)).
    cbv beta iota.
    change (lookup_reg "__gc" (mt_funcs (register_metatable "gcrypt.Cipher" lgcrypt_cipher_meta)))
      with (Some lgcrypt_cipher___gc).
    cbv beta iota.
    by destruct (lua_call lgcrypt_cipher___gc [LUserdata u] w).
  - change (luaL_getmetatable (tname_of (UHash s)))
      with (Some (register_metatable "gcrypt.Hash" lgcrypt_hash_meta)).
    cbv beta iota.
    change (lookup_reg "__gc" (mt_funcs (register_metatable "gcrypt.Hash" lgcrypt_hash_meta)))
      with (Some lgcrypt_hash___gc).
    cbv beta iota.
    by destruct (lua_call lgcrypt_hash___gc [LUserdata u] w).
Qed.

Lemma collect_keeps_init_finished u w w' :
  lua_collect u w = Ok tt w' →
  init_finished (gcry w) = true →
  init_finished (gcry w') = true.
Proof.
  intros H Hfin. rewrite lua_collect_unfold in H.
  destruct (udata (lua w) !! u) as [d|]; [|by injection H as <-].
  destruct (lua_call _ [LUserdata u] w) as [vs w1|e w1|why] eqn:Hgc;
    try discriminate H.
  injection H as <-. cbn.
  eapply (call_keeps_init_finished _ [LUserdata u] w w1); [|eauto|done].
  destruct d; cbn; intuition.
Qed.

Lemma steps_keep_init_finished w w' :
  rtc binding_step w w' →
  init_finished (gcry w) = true →
  init_finished (gcry w') = true.
Proof.
  induction 1 as [w|w1 w2 w3 Hstep _ IH]; [done|]. intros Hfin. apply IH.
  destruct Hstep as [f args w1 vs w2 Hin Hrun|f args w1 e w2 Hin Hrun|u w1 w2 Hrun].
  - apply (call_keeps_init_finished f args w1); eauto.
  - apply (call_keeps_init_finished f args w1); eauto.
  - by apply (collect_keeps_init_finished u w1).
Qed.

(** X9.  [init] returns at most once in the life of a library state: after a
    call of [init] that returned, whatever the script calls next and
    whatever is collected, every further call of [init] raises the
    UsageError and calls nothing but the query. *)
Lemma init_returns_once args0 w0 vs w1 w args :
  lua_call lgcrypt_init args0 w0 = Ok vs w1 →
  rtc binding_step w1 w →
  ∃ w',
    lua_call lgcrypt_init args w
      = Raise (ErrMsg "libgcrypt was already initialized" []) w' ∧
    gcry w' = gcry w ∧
    calls w' = calls w ++ [Ev_control GCRYCTL_INITIALIZATION_FINISHED_P].
Proof.
  intros Hinit Hsteps.
  assert (Hfin1 : init_finished (gcry w1) = true).
  { lg_unfold. invert_run Hinit. done. }
  pose proof (steps_keep_init_finished w1 w Hsteps Hfin1) as Hfin.
  lg_unfold. simp. eexists. split; [reflexivity|]. done.
Qed.

(** ** Memory safety without the finalizers *)

Ltac heap_normal :=
  repeat first
    [ rewrite insert_insert_eq
    | rewrite delete_insert_eq
    | rewrite delete_id by apply fresh_None ].

Lemma well_formed_frame w w' :
  udata (lua w') = udata (lua w) → gcry w' = gcry w →
  well_formed w → well_formed w'.
Proof.
  intros Hu Hg [Hc Hh]. unfold well_formed, cipher_at, hash_at.
  rewrite Hu, Hg. done.
Qed.

Lemma wf_cipher w u c :
  well_formed w →
  udata (lua w) !! u = Some (UCipher c) →
  (∀ hd, cipher_h c = Some hd → is_Some (cipher_ctx (gcry w) !! hd)) ∧
  (∀ a, cipher_out c = Some a → is_Some (heap (gcry w) !! a)).
Proof. intros [H _] Hu. apply (H u). by apply cipher_at_Some. Qed.

Lemma wf_hash w u s :
  well_formed w →
  udata (lua w) !! u = Some (UHash s) →
  ∀ hd, hash_h s = Some hd → is_Some (md_ctx (gcry w) !! hd).
Proof. intros [_ H] Hu hd. apply (H u). by apply hash_at_Some. Qed.

Lemma well_formed_intro w :
  (∀ u c, udata (lua w) !! u = Some (UCipher c) →
     (∀ hd, cipher_h c = Some hd → is_Some (cipher_ctx (gcry w) !! hd)) ∧
     (∀ a, cipher_out c = Some a → is_Some (heap (gcry w) !! a))) →
  (∀ u s hd, udata (lua w) !! u = Some (UHash s) → hash_h s = Some hd →
     is_Some (md_ctx (gcry w) !! hd)) →
  well_formed w.
Proof.
  intros Hc Hh. split.
  - intros u c Hat. apply (Hc u). by apply cipher_at_Some.
  - intros u s hd Hat. apply (Hh u). by apply hash_at_Some.
Qed.

(** What well-formedness says of the objects at hand. *)
Ltac wf_facts Hw :=
  repeat match goal with
         | H : udata (lua _) !! ?u = Some (UCipher ?c) |- _ =>
             lazymatch goal with
             | _ : ∀ hd, cipher_h c = Some hd → _ |- _ => fail
             | _ => destruct (wf_cipher _ u c Hw H)
             end
         | H : udata (lua _) !! ?u = Some (UHash ?s) |- _ =>
             lazymatch goal with
             | _ : ∀ hd, hash_h s = Some hd → _ |- _ => fail
             | _ => pose proof (wf_hash _ u s Hw H)
             end
         end.

Ltac wf_object Hw Hat :=
  rewrite ?lookup_insert in Hat; repeat case_decide; simplify_eq/=;
  wf_facts Hw;
  repeat split; intros; simplify_eq/=;
  rewrite ?lookup_insert_is_Some'; eauto.

Ltac wf_leaf Hw :=
  apply well_formed_intro; cbn; heap_normal;
  [ let H := fresh in intros ? ? H; wf_object Hw H
  | let H := fresh in intros ? ? ? H ?; wf_object Hw H ].

Ltac crash_leaf Hw Hopen Hfit :=
  exfalso; wf_facts Hw;
  repeat match goal with
         | H : ?args !! _ = Some (LUserdata ?u) |- _ =>
             let Hin := fresh in
             pose proof (list_elem_of_lookup_2 _ _ _ H) as Hin;
             apply Hopen in Hin; clear H;
             destruct Hin as [(? & ? & ?)|(? & ?)]; simplify_eq/=
         end;
  wf_facts Hw;
  repeat match goal with
         | H : ∀ hd, _ = Some hd → is_Some _ |- _ =>
             destruct (H _ eq_refl); clear H
         | H : ∀ hd, Some _ = Some hd → is_Some _ |- _ =>
             destruct (H _ eq_refl); clear H
         end;
  repeat match goal with
         | H : (_ <=? length (store_bytes _ _))%nat = false |- _ =>
             rewrite length_store_bytes, length_map, length_seq,
               Nat.leb_refl in H; discriminate H
         | H : (_ <=? length ?d)%nat = false,
           E : md_read_fn _ _ = (Some ?d, _) |- _ =>
             apply Nat.leb_gt in H; pose proof (Hfit _ _ _ _ E); lia
         end;
  try congruence.

Ltac unshared_object Hw Hun H1 H2 :=
  rewrite ?lookup_insert in H1; rewrite ?lookup_insert in H2;
  repeat case_decide; simplify_eq/=;
  wf_facts Hw;
  repeat match goal with
         | Ha : udata (lua _) !! ?u1 = Some (UCipher ?c1),
           Hb : udata (lua _) !! ?u2 = Some (UCipher ?c2),
           Hne : ?u1 ≠ ?u2 |- _ =>
             lazymatch goal with
             | _ : ∀ hd, cipher_h c1 = Some hd → cipher_h c2 ≠ Some hd |- _ => fail
             | _ => destruct (proj1 Hun u1 u2 c1 c2 Hne Ha Hb)
             end
         | Ha : udata (lua _) !! ?u1 = Some (UCipher ?c1),
           Hb : udata (lua _) !! ?u2 = Some (UCipher ?c2),
           Hne : ?u2 ≠ ?u1 |- _ =>
             lazymatch goal with
             | _ : ∀ hd, cipher_h c1 = Some hd → cipher_h c2 ≠ Some hd |- _ => fail
             | _ => destruct (proj1 Hun u1 u2 c1 c2 (not_eq_sym Hne) Ha Hb)
             end
         | Ha : udata (lua _) !! ?u1 = Some (UHash ?s1),
           Hb : udata (lua _) !! ?u2 = Some (UHash ?s2),
           Hne : ?u1 ≠ ?u2 |- _ =>
             lazymatch goal with
             | _ : ∀ hd, hash_h s1 = Some hd → hash_h s2 ≠ Some hd |- _ => fail
             | _ => pose proof (proj2 Hun u1 u2 s1 s2 Hne Ha Hb)
             end
         | Ha : udata (lua _) !! ?u1 = Some (UHash ?s1),
           Hb : udata (lua _) !! ?u2 = Some (UHash ?s2),
           Hne : ?u2 ≠ ?u1 |- _ =>
             lazymatch goal with
             | _ : ∀ hd, hash_h s1 = Some hd → hash_h s2 ≠ Some hd |- _ => fail
             | _ => pose proof (proj2 Hun u1 u2 s1 s2 (not_eq_sym Hne) Ha Hb)
             end
         end;
  repeat split; intros; simplify_eq/=;
  first
    [ by eauto
    | intros ?; simplify_eq/=;
      first
        [ by eauto
        | match goal with
          | H : ∀ x, ?f = Some x → is_Some (?m !! x),
            E : ?f = Some (fresh (dom ?m)) |- _ =>
              destruct (H _ E) as [? Hfr]; rewrite fresh_None in Hfr;
              discriminate Hfr
          end
        | match goal with
          | H : ∀ x, ?f = Some x → _ ≠ Some x, E : ?f = Some _ |- _ =>
              by eapply H
          end ] ].

Ltac unshared_leaf Hw Hun :=
  split; cbn; heap_normal;
  [ let H1 := fresh in let H2 := fresh in
    intros ? ? ? ? ? H1 H2; unshared_object Hw Hun H1 H2
  | let H1 := fresh in let H2 := fresh in
    intros ? ? ? ? ? H1 H2; unshared_object Hw Hun H1 H2 ].

Lemma unshared_frame w w' :
  udata (lua w') = udata (lua w) → unshared w → unshared w'.
Proof. intros Hu H. unfold unshared. by rewrite Hu. Qed.

Lemma owned_frame w w' :
  udata (lua w') = udata (lua w) → gcry w' = gcry w → owned w → owned w'.
Proof. intros Hu Hg H. unfold owned. by rewrite Hu, Hg. Qed.

Ltac owned_object Hown Hsome :=
  rewrite ?lookup_insert_is_Some' in Hsome;
  repeat match type of Hsome with
         | _ ∨ _ => destruct Hsome as [<-|Hsome]
         end;
  first
    [ by (eexists _, _; rewrite ?lookup_insert_eq; eauto)
    | by (eexists _; rewrite ?lookup_insert_eq; eauto)
    | first [ apply (proj1 Hown) in Hsome as (? & ? & Hsome)
            | apply (proj2 Hown) in Hsome as (? & Hsome) ];
      repeat match goal with
             | |- context [<[?k := _]> _ !! _] =>
                 lazymatch type of Hsome with
                 | _ !! ?u = _ =>
                     destruct (decide (u = k)) as [->|?];
                     [ first [ rewrite fresh_None in Hsome; discriminate Hsome
                             | simplify_eq/=;
                               first [ by (eexists _, _; rewrite lookup_insert_eq; eauto)
                                     | by (eexists _; rewrite lookup_insert_eq; eauto) ] ]
                     | first [ by (eexists _, _; rewrite lookup_insert_ne by done; eauto)
                             | by (eexists _; rewrite lookup_insert_ne by done; eauto) ] ]
                 end
             end;
      eauto ].

Ltac owned_leaf Hown :=
  repeat match goal with
         | c : LgcryptCipher |- _ => destruct c
         | s : LgcryptHash |- _ => destruct s
         end;
  simplify_eq/=;
  split; cbn; heap_normal;
  [ let H := fresh in intros ? H; owned_object Hown H
  | let H := fresh in intros ? H; owned_object Hown H ].

Lemma no_pending_frame w w' :
  udata (lua w') = udata (lua w) → no_pending w → no_pending w'.
Proof. intros Hu H. unfold no_pending. by rewrite Hu. Qed.

Ltac pending_leaf Hmem Hpend :=
  first
    [ match goal with
      | E : lua_alloc _ _ = false |- _ => rewrite Hmem in E; discriminate E
      end
    | split;
      [ cbn; heap_normal; done
      | let H := fresh in
        intros ? ? H; cbn in H;
        rewrite ?lookup_insert in H; repeat case_decide; simplify_eq/=;
        eauto ] ].

(** From a world where every pointer is live and no two objects share one,
    a call of any function of the module but the finalizers, on objects
    that a script can hold, has a defined behaviour: it returns or it
    raises.  No such call reads or frees a block that is not live, and none
    uses a handle that is [NULL] or closed.  The world it leaves is as
    sound: a block or a context that the call gave to an object is new, so
    it is in no other object, and no call opens a context without storing
    its handle or drops a handle it holds.  When the runtime has memory for
    every result, the block of the call is released before the call is
    over. *)
Lemma calls_keep_sound f args w :
  In f safe_functions →
  well_formed w →
  unshared w →
  arguments_open w args →
  digest_fits →
  match lua_call f args w with
  | Crash _ => False
  | Ok _ w' | Raise _ w' =>
      well_formed w' ∧ unshared w' ∧ (owned w → owned w') ∧
      (host_has_memory → no_pending w →
       heap (gcry w') = heap (gcry w) ∧ no_pending w')
  end.
Proof.
  intros Hin Hw Hun Hopen Hfit.
  assert (∃ S : World → Prop,
            ∀ w', S w' ↔
                  well_formed w' ∧ unshared w' ∧ (owned w → owned w') ∧
                  (host_has_memory → no_pending w →
                   heap (gcry w') = heap (gcry w) ∧ no_pending w'))
    as [S HS]
    by (exists (λ w', well_formed w' ∧ unshared w' ∧ (owned w → owned w') ∧
                      (host_has_memory → no_pending w →
                       heap (gcry w') = heap (gcry w) ∧ no_pending w'));
        done).
  cut (match lua_call f args w with
       | Crash _ => False
       | Ok _ w' | Raise _ w' => S w'
       end).
  { destruct (lua_call f args w); [apply HS..|done]. }
  cbn in Hin. repeat (destruct Hin as [<-|Hin]); [..|done];
    lg_unfold; explore;
    first [ apply HS; split; [|split; [|split]];
            [ first [ apply (well_formed_frame w); done
                    | wf_leaf Hw; fail ]
            | first [ apply (unshared_frame w); done
                    | unshared_leaf Hw Hun; fail ]
            | let Hown := fresh "Hown" in
              intros Hown;
              first [ apply (owned_frame w); done
                    | owned_leaf Hown; fail ]
            | let Hmem := fresh "Hmem" in
              let Hpend := fresh "Hpend" in
              intros Hmem Hpend;
              first [ split; [done|apply (no_pending_frame w); done]
                    | pending_leaf Hmem Hpend; fail ] ]
          | crash_leaf Hw Hopen Hfit; fail ].
Qed.

(** The collector finalizes an object once and releases its block.  In a
    well-formed world where no two objects share a pointer this closes a
    context that is open, frees a block that is live, and leaves every other
    object with what it had. *)
Lemma collection_is_safe u w :
  well_formed w →
  unshared w →
  ∃ w', lua_collect u w = Ok tt w' ∧ well_formed w' ∧ unshared w' ∧
        (owned w → owned w') ∧
        (no_pending w → heap (gcry w') = heap (gcry w) ∧ no_pending w').
Proof.
  intros Hw Hun. rewrite lua_collect_unfold.
  destruct (udata (lua w) !! u) as [[[h o]|[h]]|] eqn:Eu; [| |by exists w].
  - destruct (wf_cipher w u _ Hw Eu) as [Hh Ho].
    destruct (cipher_gc_run w u h o Eu) as (w1 & -> & Hud & Hg & _);
      [intros ? ->; eauto | intros ? ->; eauto |].
    eexists. split; [reflexivity|]. split.
    + apply well_formed_intro; cbn; rewrite Hud, Hg; cbn.
      * intros u' c' Hat. apply lookup_delete_Some in Hat as [Hne Hat].
        destruct (wf_cipher w u' c' Hw Hat) as [Hh' Ho'].
        destruct (proj1 Hun u u' _ c' Hne Eu Hat) as [Hdh Hdo]. cbn in *.
        split.
        -- intros hd Hhd. destruct h as [hd0|]; cbn; [|by apply Hh'].
           rewrite lookup_delete_ne; [by apply Hh'|].
           intros ->. by apply (Hdh hd).
        -- intros a Ha. destruct o as [a0|]; cbn; [|by apply Ho'].
           rewrite lookup_delete_ne; [by apply Ho'|].
           intros ->. by apply (Hdo a).
      * intros u' s' hd Hat Hhd. apply lookup_delete_Some in Hat as [Hne Hat].
        by apply (wf_hash w u' s' Hw Hat).
    + split; [split|split]; cbn; rewrite Hud.
      * intros u1 u2 c1 c2 Hne H1 H2.
        apply lookup_delete_Some in H1 as [_ H1].
        apply lookup_delete_Some in H2 as [_ H2].
        by apply (proj1 Hun u1 u2).
      * intros u1 u2 s1 s2 Hne H1 H2.
        apply lookup_delete_Some in H1 as [_ H1].
        apply lookup_delete_Some in H2 as [_ H2].
        by apply (proj2 Hun u1 u2).
      * intros Hown. rewrite Hg. split; cbn.
        -- intros hd' Hs.
           assert (is_Some (cipher_ctx (gcry w) !! hd') ∧ h ≠ Some hd')
             as [Hs' Hne].
           { destruct h as [hd0|]; cbn in Hs; [|done].
             apply lookup_delete_is_Some in Hs as [Hne Hs]. split; congruence. }
           destruct (proj1 Hown hd' Hs') as (u' & o' & Hu').
           exists u', o'. rewrite lookup_delete_ne; [done|].
           intros ->. rewrite Eu in Hu'. congruence.
        -- intros hd' Hs. destruct (proj2 Hown hd' Hs) as (u' & Hu').
           exists u'. rewrite lookup_delete_ne; [done|].
           intros ->. rewrite Eu in Hu'. congruence.
      * intros Hpend. pose proof (Hpend u _ Eu) as Ho'. cbn in Ho'. subst o.
        rewrite Hg. split; [done|].
        intros u' c' Hu'. cbn in Hu'.
        apply lookup_delete_Some in Hu' as [_ Hu'].
        by apply (Hpend u').
  - pose proof (wf_hash w u _ Hw Eu) as Hh.
    destruct (hash_gc_run w u h Eu) as (w1 & -> & Hud & Hg & _);
      [intros ? ->; eauto |].
    eexists. split; [reflexivity|]. split.
    + apply well_formed_intro; cbn; rewrite Hud, Hg; cbn.
      * intros u' c' Hat. apply lookup_delete_Some in Hat as [Hne Hat].
        by apply (wf_cipher w u' c' Hw Hat).
      * intros u' s' hd Hat Hhd. apply lookup_delete_Some in Hat as [Hne Hat].
        pose proof (wf_hash w u' s' Hw Hat hd Hhd) as Hlive.
        pose proof (proj2 Hun u u' _ s' Hne Eu Hat) as Hd. cbn in *.
        destruct h as [hd0|]; cbn; [|done].
        rewrite lookup_delete_ne; [done|]. intros ->. by apply (Hd hd).
    + split; [split|split]; cbn; rewrite Hud.
      * intros u1 u2 c1 c2 Hne H1 H2.
        apply lookup_delete_Some in H1 as [_ H1].
        apply lookup_delete_Some in H2 as [_ H2].
        by apply (proj1 Hun u1 u2).
      * intros u1 u2 s1 s2 Hne H1 H2.
        apply lookup_delete_Some in H1 as [_ H1].
        apply lookup_delete_Some in H2 as [_ H2].
        by apply (proj2 Hun u1 u2).
      * intros Hown. rewrite Hg. split; cbn.
        -- intros hd' Hs. destruct (proj1 Hown hd' Hs) as (u' & o' & Hu').
           exists u', o'. rewrite lookup_delete_ne; [done|].
           intros ->. rewrite Eu in Hu'. congruence.
        -- intros hd' Hs.
           assert (is_Some (md_ctx (gcry w) !! hd') ∧ h ≠ Some hd')
             as [Hs' Hne].
           { destruct h as [hd0|]; cbn in Hs; [|done].
             apply lookup_delete_is_Some in Hs as [Hne Hs]. split; congruence. }
           destruct (proj2 Hown hd' Hs') as (u' & Hu').
           exists u'. rewrite lookup_delete_ne; [done|].
           intros ->. rewrite Eu in Hu'. congruence.
      * intros Hpend. rewrite Hg. split; [done|].
        intros u' c' Hu'. cbn in Hu'.
        apply lookup_delete_Some in Hu' as [_ Hu'].
        by apply (Hpend u').
Qed.

Lemma safe_step_keeps_sound w w' :
  digest_fits →
  safe_step w w' →
  well_formed w ∧ unshared w →
  (well_formed w' ∧ unshared w') ∧ (owned w → owned w') ∧
  (host_has_memory → no_pending w →
   heap (gcry w') = heap (gcry w) ∧ no_pending w').
Proof.
  intros Hfit Hstep [Hw Hun].
  destruct Hstep as [f args w vs w' Hin Hopen Hrun|f args w e w' Hin Hopen Hrun
                    |u w w' Hrun].
  - pose proof (calls_keep_sound f args w Hin Hw Hun Hopen Hfit) as H.
    rewrite Hrun in H. tauto.
  - pose proof (calls_keep_sound f args w Hin Hw Hun Hopen Hfit) as H.
    rewrite Hrun in H. tauto.
  - destruct (collection_is_safe u w Hw Hun) as (w1 & Hrun1 & H1 & H2 & H3 & H4).
    rewrite Hrun in Hrun1. injection Hrun1 as <-. tauto.
Qed.

Lemma safe_steps_keep_sound w0 w :
  digest_fits →
  rtc safe_step w0 w →
  well_formed w0 ∧ unshared w0 →
  (well_formed w ∧ unshared w) ∧ (owned w0 → owned w) ∧
  (host_has_memory → no_pending w0 →
   heap (gcry w) = heap (gcry w0) ∧ no_pending w).
Proof.
  intros Hfit Hsteps.
  induction Hsteps as [w|w1 w2 w3 Hstep _ IH]; [tauto|]. intros Hs.
  destruct (safe_step_keeps_sound w1 w2 Hfit Hstep Hs) as (Hs2 & Ho2 & Hp2).
  destruct (IH Hs2) as (Hs3 & Ho3 & Hp3).
  split; [done|]. split; [tauto|]. intros Hmem Hpend.
  destruct (Hp2 Hmem Hpend) as [Hheap2 Hpend2].
  destruct (Hp3 Hmem Hpend2) as [Hheap3 Hpend3].
  split; [congruence|done].
Qed.

(** X10.  A script that never calls [__gc] itself cannot go wrong.  From a world
    where every pointer is live and no two objects share one, after any
    number of calls of the constructors, of [init] and of the listed
    methods on objects the script holds, and after any collections, the
    same holds again: the next such call returns or raises, and the next
    collection returns. *)
Lemma scripts_without_finalizer_calls_are_safe w0 w :
  digest_fits →
  well_formed w0 →
  unshared w0 →
  rtc safe_step w0 w →
  (well_formed w ∧ unshared w) ∧
  (∀ f args why,
     In f safe_functions → arguments_open w args →
     lua_call f args w ≠ Crash why) ∧
  (∀ u, ∃ w', lua_collect u w = Ok tt w').
Proof.
  intros Hfit Hw0 Hun0 Hsteps.
  destruct (safe_steps_keep_sound w0 w Hfit Hsteps (conj Hw0 Hun0))
    as [[Hw Hun] _].
  split; [done|]. split.
  - intros f args why Hin Hopen Hrun.
    pose proof (calls_keep_sound f args w Hin Hw Hun Hopen Hfit) as H.
    by rewrite Hrun in H.
  - intros u. destruct (collection_is_safe u w Hw Hun) as (w' & H & _). eauto.
Qed.

(** X14.  Such a script leaks no context.  When every open context is held
    by an object to begin with, the same is true after any number of those
    calls and collections: no call opens a context without storing its
    handle, and the collection of an object closes the context it holds.
    So once every object has been collected, the library has no cipher
    context and no digest context open. *)
Lemma contexts_are_not_leaked w0 w :
  digest_fits →
  well_formed w0 →
  unshared w0 →
  owned w0 →
  rtc safe_step w0 w →
  owned w ∧
  (udata (lua w) = ∅ → cipher_ctx (gcry w) = ∅ ∧ md_ctx (gcry w) = ∅).
Proof.
  intros Hfit Hw0 Hun0 Hown0 Hsteps.
  destruct (safe_steps_keep_sound w0 w Hfit Hsteps (conj Hw0 Hun0))
    as (_ & Hown & _).
  specialize (Hown Hown0). split; [done|]. intros Hempty.
  destruct Hown as [Hc Hm]. split; apply map_empty; intros hd.
  - destruct (cipher_ctx (gcry w) !! hd) eqn:E; [|done].
    destruct (Hc hd) as (u & o & Hu); [eauto|]. by rewrite Hempty in Hu.
  - destruct (md_ctx (gcry w) !! hd) eqn:E; [|done].
    destruct (Hm hd) as (u & Hu); [eauto|]. by rewrite Hempty in Hu.
Qed.

(** X15.  Such a script leaks no block either, as long as the runtime has
    memory for every string it is asked for.  When no object holds a block
    to begin with, none does after any number of those calls and
    collections, and the heap of the library is what it was: every block
    that encrypt or decrypt took from [gcry_malloc] was given back before
    the call was over. *)
Lemma blocks_are_not_leaked w0 w :
  host_has_memory →
  digest_fits →
  well_formed w0 →
  unshared w0 →
  no_pending w0 →
  rtc safe_step w0 w →
  heap (gcry w) = heap (gcry w0) ∧ no_pending w.
Proof.
  intros Hmem Hfit Hw0 Hun0 Hpend0 Hsteps.
  destruct (safe_steps_keep_sound w0 w Hfit Hsteps (conj Hw0 Hun0))
    as (_ & _ & Hpend).
  by apply Hpend.
Qed.

End Properties.

(** ** Registration *)

Section RegistrationProperties.
Context {GC : Gcrypt} {LH : LuaHost} {GH : GcryptHeader} {LV : LuaVersion}.
Import Registration.
Context {RM : Room}.

Lemma lookup_reg_app name l1 l2 :
  lookup_reg name (l1 ++ l2) =
  match lookup_reg name l1 with
  | Some f => Some f
  | None => lookup_reg name l2
  end.
Proof.
  induction l1 as [|[n f] l1 IH]; cbn; [done|].
  by destruct (String.eqb n name).
Qed.

Lemma stored_lookup es t name :
  stored es t !! name =
  match lookup_reg name (rev es) with
  | Some f => Some (TFunction f)
  | None => t !! name
  end.
Proof.
  revert t. induction es as [|[n f] es IH]; intros t; cbn; [done|].
  unfold stored in *. rewrite IH, lookup_reg_app. cbn.
  destruct (lookup_reg name (rev es)); [done|].
  destruct (String.eqb_spec n name) as [->|Hne].
  - by rewrite lookup_insert_eq.
  - by rewrite lookup_insert_ne.
Qed.

Lemma lua_setfield_run k s below r v t :
  has_room →
  stack s = below ++ [TTable r; v] →
  tables s !! r = Some t →
  lua_setfield k s =
  Ok tt (mkState (below ++ [TTable r]) (<[r := <[k := v]> t]> (tables s))
           (registry s)).
Proof.
  intros Hroom Hs Ht. unfold lua_setfield.
  rewrite Hs, reverse_app.
  change (reverse [TTable r; v]) with [v; TTable r].
  cbv beta iota. cbn [app]. rewrite Ht, Hroom.
  by rewrite reverse_cons, reverse_involutive.
Qed.

Lemma store_top_run (push : R unit) k v s below r t :
  has_room →
  (∀ s', push s' = Ok tt (mkState (stack s' ++ [v]) (tables s') (registry s'))) →
  stack s = below ++ [TTable r] →
  tables s !! r = Some t →
  (push;; lua_setfield k) s =
  Ok tt (mkState (stack s) (<[r := <[k := v]> t]> (tables s)) (registry s)).
Proof.
  intros Hroom Hpush Hs Ht. unfold mbind, R_bind. rewrite Hpush.
  erewrite lua_setfield_run; [by rewrite Hs|done| |done].
  cbn [stack]. by rewrite Hs, <-app_assoc.
Qed.

Lemma pushcclosure_run f :
  has_room →
  ∀ s, lua_pushcclosure f s =
       Ok tt (mkState (stack s ++ [TFunction f]) (tables s) (registry s)).
Proof. intros Hroom s. unfold lua_pushcclosure. by rewrite Hroom. Qed.

Lemma setfuncs_loop_run l s below r t :
  has_room →
  stack s = below ++ [TTable r] →
  tables s !! r = Some t →
  terminated l →
  luaL_setfuncs_loop l s =
  Ok tt (mkState (stack s) (<[r := stored (entries l) t]> (tables s))
           (registry s)).
Proof.
  intros Hroom.
  revert s t. induction l as [|[[n f]|] l IH]; intros s t Hs Ht Hl.
  - by apply elem_of_nil in Hl.
  - apply elem_of_cons in Hl as [?|Hl]; [done|].
    cbn [luaL_setfuncs_loop entries].
    pose proof (store_top_run (lua_pushcclosure f) n (TFunction f) s below r t
                  Hroom (pushcclosure_run f Hroom) Hs Ht) as Hstep.
    unfold mbind, R_bind in *.
    destruct (lua_pushcclosure f s) as [[] s1| |]; try done.
    rewrite Hstep.
    erewrite IH; [| |by cbn [tables]; apply lookup_insert_eq|done];
      cbn [stack tables registry]; [|done].
    by rewrite insert_insert_eq.
  - cbn. unfold mret, R_ret. destruct s; cbn in *.
    by rewrite insert_id.
Qed.

Lemma INT_GCRY_run k v s below r t :
  has_room →
  stack s = below ++ [TTable r] →
  tables s !! r = Some t →
  INT_GCRY k v s =
  Ok tt (mkState (stack s) (<[r := <[k := TInteger v]> t]> (tables s))
           (registry s)).
Proof.
  intros Hroom Hs Ht. unfold INT_GCRY.
  by apply (store_top_run (lua_pushinteger v) k (TInteger v) s below r t).
Qed.

Lemma terminated_array l : terminated (array l).
Proof. unfold terminated, array. set_solver. Qed.

Lemma entries_array l : entries (array l) = l.
Proof.
  induction l as [|e l IH]; cbn; [done|]. unfold array in IH. by rewrite IH.
Qed.

Lemma index_self_run s below r t :
  has_room →
  stack s = below ++ [TTable r] →
  tables s !! r = Some t →
  (lua_pushvalue_top;; lua_setfield "__index";; lua_pop 1) s =
  Ok tt (mkState below (<[r := <["__index" := TTable r]> t]> (tables s))
           (registry s)).
Proof.
  intros Hroom Hs Ht. unfold mbind, R_bind, lua_pushvalue_top.
  rewrite Hs, last_snoc.
  erewrite lua_setfield_run; [|done| |done];
    [|by cbn [stack]; rewrite <-app_assoc].
  unfold lua_pop. cbn [stack tables registry].
  rewrite length_app. cbn [length].
  replace (length below + 1 - 1)%nat with (length below) by lia.
  by rewrite take_app_length.
Qed.

(** [register_metatable] leaves the stack as it was; the table [r] that the
    registry has, or gets, under [name] holds the entries and itself as
    [__index]. *)
Lemma register_metatable_table name funcs s r t :
  has_room →
  terminated funcs →
  match registry s !! name with
  | Some r' => r' = r ∧ tables s !! r = Some t
  | None => r = fresh (dom (tables s)) ∧ t = new_metatable name
  end →
  register_metatable name funcs s =
  Ok tt (mkState (stack s)
           (<[r := <["__index" := TTable r]> (stored (entries funcs) t)]>
              (tables s))
           (<[name := r]> (registry s))).
Proof.
  intros Hroom Hl Hr.
  unfold register_metatable, luaL_setfuncs.
  unfold mbind at 1 2, R_bind at 1 2. unfold luaL_newmetatable.
  rewrite Hroom.
  destruct (registry s !! name) as [r'|] eqn:Hreg.
  - destruct Hr as [-> Ht]. cbn [Z.eqb negb]. unfold mbind at 1, R_bind at 1.
    unfold mret at 1, R_ret at 1.
    erewrite setfuncs_loop_run; [|done|by cbn [stack]|by cbn [tables]|done].
    cbn [stack tables registry].
    erewrite index_self_run;
      [|done|by cbn [stack]|by cbn [tables]; apply lookup_insert_eq].
    cbn [stack tables registry].
    by rewrite insert_insert_eq, (insert_id (registry s)).
  - destruct Hr as [-> ->]. cbn [Z.eqb negb]. unfold mbind at 1, R_bind at 1.
    unfold mret at 1, R_ret at 1.
    erewrite setfuncs_loop_run;
      [|done|by cbn [stack]|by cbn [tables]; apply lookup_insert_eq|done].
    cbn [stack tables registry].
    erewrite index_self_run;
      [|done|by cbn [stack]|by cbn [tables]; apply lookup_insert_eq].
    cbn [stack tables registry].
    by rewrite !insert_insert_eq.
Qed.


Lemma lookup_reg_None name l : name ∉ map fst l → lookup_reg name l = None.
Proof.
  induction l as [|[n f] l IH]; cbn; [done|]. intros Hn.
  apply not_elem_of_cons in Hn as [Hne Hn].
  destruct (String.eqb_spec n name); [congruence|auto].
Qed.

Lemma lookup_reg_rev name l :
  NoDup (map fst l) → lookup_reg name (rev l) = lookup_reg name l.
Proof.
  induction l as [|[n f] l IH]; cbn; [done|]. intros Hnd.
  apply NoDup_cons in Hnd as [Hn Hnd].
  rewrite lookup_reg_app, IH by done. cbn.
  destruct (String.eqb_spec n name) as [->|Hne].
  - by rewrite lookup_reg_None.
  - by destruct (lookup_reg name l).
Qed.

Lemma stored_twice k v es t :
  <[k := v]> (stored es (<[k := v]> (stored es t))) = <[k := v]> (stored es t).
Proof.
  apply map_eq. intros name.
  destruct (decide (k = name)) as [->|Hne].
  - by rewrite !lookup_insert_eq.
  - rewrite !lookup_insert_ne by done. rewrite !stored_lookup.
    destruct (lookup_reg name (rev es)) eqn:E; [done|].
    rewrite lookup_insert_ne by done. by rewrite stored_lookup, E.
Qed.

Lemma luaopen_run s r1 t1 r2 t2 :
  let s1 := mkState (stack s)
              (<[r1 := metatable r1 lgcrypt_cipher_meta t1]> (tables s))
              (<["gcrypt.Cipher" := r1]> (registry s)) in
  let s2 := mkState (stack s)
              (<[r2 := metatable r2 lgcrypt_hash_meta t2]> (tables s1))
              (<["gcrypt.Hash" := r2]> (registry s1)) in
  let r3 := fresh (dom (tables s2)) in
  has_room →
  found s "gcrypt.Cipher" r1 t1 →
  found s1 "gcrypt.Hash" r2 t2 →
  luaopen_luagcrypt s =
  Ok 1%nat (mkState (stack s ++ [TTable r3])
              (<[r3 := module_table]> (tables s2)) (registry s2)).
Proof.
  intros s1 s2 r3 Hroom H1 H2. unfold luaopen_luagcrypt.
  unfold mbind at 1, R_bind at 1.
  rewrite (register_metatable_table _ _ s r1 t1 Hroom (terminated_array _) H1).
  rewrite entries_array. fold (metatable r1 lgcrypt_cipher_meta t1). fold s1.
  unfold mbind at 1, R_bind at 1.
  rewrite (register_metatable_table _ _ s1 r2 t2 Hroom (terminated_array _) H2).
  rewrite entries_array. fold (metatable r2 lgcrypt_hash_meta t2).
  change (stack s1) with (stack s). fold s2.
  unfold mbind at 1, R_bind at 1.
  unfold luaL_newlib, luaL_setfuncs. unfold mbind at 1 2 3, R_bind at 1 2 3.
  unfold lua_createtable. rewrite Hroom. fold r3. cbn [Z.eqb negb].
  unfold mret at 1, R_ret at 1.
  erewrite setfuncs_loop_run;
    [|done|by cbn [stack]|by cbn [tables]; apply lookup_insert_eq
     |by apply terminated_array].
  rewrite entries_array. cbn [stack tables registry].
  rewrite insert_insert_eq.
  repeat (try unfold mbind at 1, R_bind at 1;
          erewrite INT_GCRY_run;
          [|done|by cbn [stack]|by cbn [tables]; apply lookup_insert_eq];
          cbn [stack tables registry]; rewrite insert_insert_eq).
  done.
Qed.

Lemma module_table_fields :
  module_table !! "init" = Some (TFunction lgcrypt_init) ∧
  module_table !! "Cipher" = Some (TFunction lgcrypt_cipher_open) ∧
  module_table !! "Hash" = Some (TFunction lgcrypt_hash_open) ∧
  module_table !! "CIPHER_AES128" = Some (TInteger GCRY_CIPHER_AES128) ∧
  module_table !! "CIPHER_AES192" = Some (TInteger GCRY_CIPHER_AES192) ∧
  module_table !! "CIPHER_AES256" = Some (TInteger GCRY_CIPHER_AES256) ∧
  module_table !! "CIPHER_MODE_CBC" = Some (TInteger GCRY_CIPHER_MODE_CBC) ∧
  module_table !! "MD_FLAG_HMAC" = Some (TInteger GCRY_MD_FLAG_HMAC) ∧
  module_table !! "MD_SHA256" = Some (TInteger GCRY_MD_SHA256) ∧
  dom module_table = module_names.
Proof.
  unfold module_table, stored, lgcrypt, reg, module_names. cbn [fold_left fst snd].
  repeat (split;
    [repeat (first [ by rewrite lookup_insert_eq
                   | rewrite lookup_insert_ne by done ])|]).
  rewrite !dom_insert_L, dom_empty_L. set_solver.
Qed.

Lemma new_metatable_lookup tname name :
  new_metatable tname !! name =
  if (503 <=? LUA_VERSION_NUM) && String.eqb name "__name"
  then Some (TString tname) else None.
Proof.
  unfold new_metatable. destruct (503 <=? LUA_VERSION_NUM); cbn [andb]; [|done].
  destruct (String.eqb_spec name "__name") as [->|Hne].
  - apply lookup_singleton_eq.
  - by apply lookup_singleton_ne.
Qed.

Lemma metatable_lookup r funcs tname name :
  NoDup (map fst funcs) →
  metatable r funcs (new_metatable tname) !! name =
  if String.eqb name "__index" then Some (TTable r)
  else match lookup_reg name funcs with
       | Some f => Some (TFunction f)
       | None =>
           if (503 <=? LUA_VERSION_NUM) && String.eqb name "__name"
           then Some (TString tname) else None
       end.
Proof.
  intros Hnd. unfold metatable.
  destruct (String.eqb_spec name "__index") as [->|Hne].
  - by rewrite lookup_insert_eq.
  - rewrite lookup_insert_ne by done.
    rewrite stored_lookup, lookup_reg_rev by done.
    destruct (lookup_reg name funcs); [done|]. apply new_metatable_lookup.
Qed.

(** X11.  [luaL_setfuncs] as the module defines it for Lua 5.1 raises its
    error for any [nup] but 0.  With [nup = 0], on a table at the top of the
    stack and in a runtime that has room, it stores the entries of the array up to the first [{NULL, NULL}]
    and leaves the stack, the registry and every other table as they were:
    a name of the array is bound to the function of its last entry, and
    every other field of the table is what it was. *)
Lemma setfuncs_last_entry_wins l nup s below r t :
  has_room →
  stack s = below ++ [TTable r] →
  tables s !! r = Some t →
  terminated l →
  if nup =? 0 then
    ∃ t',
      luaL_setfuncs l nup s =
      Ok tt (mkState (stack s) (<[r := t']> (tables s)) (registry s)) ∧
      ∀ name,
        t' !! name =
        match lookup_reg name (rev (entries l)) with
        | Some f => Some (TFunction f)
        | None => t !! name
        end
  else
    luaL_setfuncs l nup s =
    Raise (ErrMsg "nup == 0 is not supported by this compat function" []).
Proof.
  intros Hroom Hs Ht Hl. unfold luaL_setfuncs, mbind, R_bind.
  destruct (nup =? 0); cbn [negb]; [|done].
  unfold mret, R_ret. exists (stored (entries l) t). split.
  - by eapply setfuncs_loop_run.
  - apply stored_lookup.
Qed.

(** X12.  In a Lua state that has neither metatable and in a runtime that
    has room, [luaopen_luagcrypt] returns 1 with the module table on top of
    the stack: the table holds [init], [Cipher], [Hash] and the six
    constants, and nothing else.  Indexing an object of either type then
    finds, for every name but [__index], what [object_field] says: each
    function of the method array, [__gc] included.  Under a name that is in
    no method array it finds nothing, but for [__name] from Lua 5.3 on,
    where [luaL_newmetatable] has stored the name of the type.  No table
    that was there has changed. *)
Lemma luaopen_registers_methods s :
  has_room →
  registry s !! "gcrypt.Cipher" = None →
  registry s !! "gcrypt.Hash" = None →
  ∃ s' r m,
    luaopen_luagcrypt s = Ok 1%nat s' ∧
    stack s' = stack s ++ [TTable r] ∧
    tables s' !! r = Some m ∧
    m !! "init" = Some (TFunction lgcrypt_init) ∧
    m !! "Cipher" = Some (TFunction lgcrypt_cipher_open) ∧
    m !! "Hash" = Some (TFunction lgcrypt_hash_open) ∧
    m !! "CIPHER_AES128" = Some (TInteger GCRY_CIPHER_AES128) ∧
    m !! "CIPHER_AES192" = Some (TInteger GCRY_CIPHER_AES192) ∧
    m !! "CIPHER_AES256" = Some (TInteger GCRY_CIPHER_AES256) ∧
    m !! "CIPHER_MODE_CBC" = Some (TInteger GCRY_CIPHER_MODE_CBC) ∧
    m !! "MD_FLAG_HMAC" = Some (TInteger GCRY_MD_FLAG_HMAC) ∧
    m !! "MD_SHA256" = Some (TInteger GCRY_MD_SHA256) ∧
    dom m = module_names ∧
    (∀ d name,
       name ≠ "__index" →
       index s' (tname_of d) name =
       match object_field d name with
       | Some f => Some (TFunction f)
       | None =>
           if (503 <=? LUA_VERSION_NUM) && String.eqb name "__name"
           then Some (TString (tname_of d)) else None
       end) ∧
    (∀ r', r' ∈ dom (tables s) → tables s' !! r' = tables s !! r').
Proof.
  intros Hroom Hc Hh.
  set (r1 := fresh (dom (tables s))).
  set (t1 := <[r1 := metatable r1 lgcrypt_cipher_meta (new_metatable "gcrypt.Cipher")]> (tables s)).
  set (r2 := fresh (dom t1)).
  set (t2 := <[r2 := metatable r2 lgcrypt_hash_meta (new_metatable "gcrypt.Hash")]> t1).
  set (r3 := fresh (dom t2)).
  pose proof (fresh_None (tables s)) as F1. fold r1 in F1.
  pose proof (fresh_None t1) as F2. fold r2 in F2.
  pose proof (fresh_None t2) as F3. fold r3 in F3.
  unfold t2 in F3. apply lookup_insert_None in F3 as [F31 N32].
  unfold t1 in F2, F31.
  apply lookup_insert_None in F2 as [F20 N21].
  apply lookup_insert_None in F31 as [F30 N31].
  pose proof (luaopen_run s r1 (new_metatable "gcrypt.Cipher")
                r2 (new_metatable "gcrypt.Hash")) as Hrun.
  cbv zeta in Hrun.
  fold t1 t2 in Hrun. cbn [tables] in Hrun. fold t1 t2 r3 in Hrun.
  eexists _, r3, module_table. split.
  { apply Hrun.
    - done.
    - unfold found. by rewrite Hc.
    - unfold found. cbn [registry tables]. rewrite lookup_insert_ne by done.
      by rewrite Hh. }
  cbn [stack tables registry].
  split; [done|]. split; [by apply lookup_insert_eq|].
  destruct module_table_fields as (?&?&?&?&?&?&?&?&?&?).
  repeat (split; [done|]).
  split.
  - intros d name Hname. unfold index. cbn [registry tables].
    assert (NoDup (map fst lgcrypt_cipher_meta)) as Hndc
      by (apply (bool_decide_unpack _); by vm_compute).
    assert (NoDup (map fst lgcrypt_hash_meta)) as Hndh
      by (apply (bool_decide_unpack _); by vm_compute).
    destruct d as [c|h]; cbn [tname_of].
    + rewrite lookup_insert_ne, lookup_insert_eq by done. cbn [mbind option_bind].
      unfold t2, t1.
      rewrite lookup_insert_ne, lookup_insert_ne, lookup_insert_eq by done.
      cbn [mbind option_bind].
      rewrite (metatable_lookup r1 _ _ "__index") by done.
      change (String.eqb "__index" "__index") with true. cbv iota.
      rewrite lookup_insert_ne, lookup_insert_ne, lookup_insert_eq by done.
      cbn [mbind option_bind]. rewrite metatable_lookup by done.
      destruct (String.eqb_spec name "__index"); [done|].
      done.
    + rewrite lookup_insert_eq. cbn [mbind option_bind].
      unfold t2, t1.
      rewrite lookup_insert_ne, lookup_insert_eq by done.
      cbn [mbind option_bind].
      rewrite (metatable_lookup r2 _ _ "__index") by done.
      change (String.eqb "__index" "__index") with true. cbv iota.
      rewrite lookup_insert_ne, lookup_insert_eq by done.
      cbn [mbind option_bind]. rewrite metatable_lookup by done.
      destruct (String.eqb_spec name "__index"); [done|].
      done.
  - intros r' Hr'. apply elem_of_dom in Hr' as [t Hr']. unfold t2, t1.
    rewrite !lookup_insert_ne; [done|..]; intros <-; congruence.
Qed.


(** X13.  In a runtime that has room, loading the module a second time
    changes no metatable and no entry of the registry: every table is what
    the first load left.  The second load has built one more table and
    returns it: a module table, with the fields of the one that the first
    load returned. *)
Lemma luaopen_again_keeps_metatables s0 s1 :
  has_room →
  registry s0 !! "gcrypt.Cipher" = None →
  registry s0 !! "gcrypt.Hash" = None →
  luaopen_luagcrypt s0 = Ok 1%nat s1 →
  ∃ r0 r m,
    stack s1 = stack s0 ++ [TTable r0] ∧
    tables s1 !! r0 = Some m ∧
    (r ∉ dom (tables s1)) ∧
    luaopen_luagcrypt s1 =
    Ok 1%nat (mkState (stack s1 ++ [TTable r]) (<[r := m]> (tables s1))
                (registry s1)) ∧
    m !! "init" = Some (TFunction lgcrypt_init) ∧
    m !! "Cipher" = Some (TFunction lgcrypt_cipher_open) ∧
    m !! "Hash" = Some (TFunction lgcrypt_hash_open) ∧
    m !! "CIPHER_AES128" = Some (TInteger GCRY_CIPHER_AES128) ∧
    m !! "CIPHER_AES192" = Some (TInteger GCRY_CIPHER_AES192) ∧
    m !! "CIPHER_AES256" = Some (TInteger GCRY_CIPHER_AES256) ∧
    m !! "CIPHER_MODE_CBC" = Some (TInteger GCRY_CIPHER_MODE_CBC) ∧
    m !! "MD_FLAG_HMAC" = Some (TInteger GCRY_MD_FLAG_HMAC) ∧
    m !! "MD_SHA256" = Some (TInteger GCRY_MD_SHA256) ∧
    dom m = module_names.
Proof.
  intros Hroom Hc Hh Hrun0.
  set (r1 := fresh (dom (tables s0))).
  set (t1 := <[r1 := metatable r1 lgcrypt_cipher_meta (new_metatable "gcrypt.Cipher")]> (tables s0)).
  set (r2 := fresh (dom t1)).
  set (t2 := <[r2 := metatable r2 lgcrypt_hash_meta (new_metatable "gcrypt.Hash")]> t1).
  pose proof (fresh_None t1) as F2. fold r2 in F2.
  pose proof (fresh_None t2) as F3.
  unfold t2 at 2 in F3. apply lookup_insert_None in F3 as [F31 N32].
  unfold t1 in F2, F31.
  apply lookup_insert_None in F2 as [F20 N21].
  apply lookup_insert_None in F31 as [F30 N31].
  pose proof (luaopen_run s0 r1 (new_metatable "gcrypt.Cipher")
                r2 (new_metatable "gcrypt.Hash")) as Hrun.
  cbv zeta in Hrun.
  fold t1 t2 in Hrun. cbn [tables] in Hrun. fold t1 t2 in Hrun.
  rewrite Hrun in Hrun0; cycle 1.
  { done. }
  { unfold found. by rewrite Hc. }
  { unfold found. cbn [registry tables]. rewrite lookup_insert_ne by done.
    by rewrite Hh. }
  injection Hrun0 as <-.
  pose proof (luaopen_run
                (mkState (stack s0 ++ [TTable (fresh (dom t2))])
                   (<[fresh (dom t2) := module_table]> t2)
                   (<["gcrypt.Hash" := r2]>
                      (<["gcrypt.Cipher" := r1]> (registry s0))))
                r1 (metatable r1 lgcrypt_cipher_meta (new_metatable "gcrypt.Cipher"))
                r2 (metatable r2 lgcrypt_hash_meta (new_metatable "gcrypt.Hash"))) as Hrun2.
  cbv zeta in Hrun2. cbn [stack tables registry] in Hrun2.
  assert (∀ (r : nat) l t (ts : gmap nat (gmap string TValue)),
            ts !! r = Some (metatable r l t) →
            <[r := metatable r l (metatable r l t)]> ts = ts) as Hsame.
  { intros r l t ts Hl. unfold metatable. rewrite stored_twice.
    by apply insert_id. }
  assert (<[fresh (dom t2) := module_table]> t2 !! r1
          = Some (metatable r1 lgcrypt_cipher_meta (new_metatable "gcrypt.Cipher"))) as L1.
  { unfold t2, t1.
    by rewrite lookup_insert_ne, lookup_insert_ne, lookup_insert_eq. }
  assert (<[fresh (dom t2) := module_table]> t2 !! r2
          = Some (metatable r2 lgcrypt_hash_meta (new_metatable "gcrypt.Hash"))) as L2.
  { unfold t2. by rewrite lookup_insert_ne, lookup_insert_eq. }
  rewrite (Hsame r1 _ _ _ L1), (Hsame r2 _ _ _ L2) in Hrun2.
  rewrite (insert_id (<["gcrypt.Hash" := r2]>
                        (<["gcrypt.Cipher" := r1]> (registry s0)))
             "gcrypt.Cipher" r1) in Hrun2
    by (by rewrite lookup_insert_ne, lookup_insert_eq).
  rewrite (insert_id (<["gcrypt.Hash" := r2]>
                        (<["gcrypt.Cipher" := r1]> (registry s0)))
             "gcrypt.Hash" r2) in Hrun2
    by (by rewrite lookup_insert_eq).
  eexists (fresh (dom t2)), _, module_table.
  cbn [stack tables registry].
  split; [done|]. split; [apply lookup_insert_eq|].
  split; [apply is_fresh|]. split; [|apply module_table_fields].
  apply Hrun2.
  - done.
  - unfold found. cbn [registry tables].
    rewrite lookup_insert_ne, lookup_insert_eq by done. done.
  - unfold found. cbn [registry tables].
    rewrite lookup_insert_eq. done.
Qed.

End RegistrationProperties.


(** * The properties on the small provider *)

Section OnToy.
#[local] Existing Instance Toy.gcrypt.
#[local] Existing Instance Toy.host.

Lemma toy_cipher_inverts :
  cipher_inverts (GC := Toy.gcrypt) Toy.GCRY_CIPHER_AES128
    Toy.GCRY_CIPHER_MODE_CBC 16.
Proof.
  intros c0 k c1 v c2 p Eo Ek Ev Hblk. cbn in *.
  unfold Toy.open in Eo. cbn in Eo. injection Eo as <-.
  unfold Toy.setkey in Ek. destruct (length k =? 16)%nat; [|done].
  injection Ek as <-. cbn in Ev.
  unfold Toy.setiv in Ev. destruct (length v =? 16)%nat; [|done].
  injection Ev as <-. cbn.
  apply Nat.eqb_eq in Hblk.
  exists (Toy.mkC (Some k) (Some (take 16 (rev p)))), (rev p),
         (Toy.mkC (Some k) (Some (take 16 (rev (rev p))))).
  unfold Toy.crypt. cbn. rewrite length_rev, Hblk, rev_involutive. done.
Qed.

Lemma toy_md_write_streams : md_write_streams (GC := Toy.gcrypt).
Proof. intros c a b. cbn. unfold Toy.md_write. cbn. by rewrite app_assoc. Qed.

Lemma toy_host_has_memory : host_has_memory (LH := Toy.host).
Proof. done. Qed.

Lemma bxor_twice b s : ToyChained.bxor (ToyChained.bxor b s) s = b.
Proof.
  unfold ToyChained.bxor.
  destruct (Byte.to_bits b) as (b0&b1&b2&b3&b4&b5&b6&b7) eqn:Eb.
  destruct (Byte.to_bits s) as (s0&s1&s2&s3&s4&s5&s6&s7) eqn:Es.
  rewrite Byte.to_bits_of_bits.
  rewrite !xorb_assoc, !xorb_nilpotent, !xorb_false_r.
  by rewrite <- Eb, Byte.of_bits_to_bits.
Qed.

Lemma chain_decrypt_encrypt p : ∀ s,
  ToyChained.chain_decrypt s (ToyChained.chain_encrypt s p) = p.
Proof.
  induction p as [|b p IH]; intros s; cbn; [done|].
  by rewrite bxor_twice, IH.
Qed.

Lemma length_chain_encrypt p : ∀ s,
  length (ToyChained.chain_encrypt s p) = length p.
Proof. induction p as [|b p IH]; intros s; cbn; [done|]. by rewrite IH. Qed.

Lemma chained_cipher_inverts :
  cipher_inverts (GC := ToyChained.gcrypt) Toy.GCRY_CIPHER_AES128
    Toy.GCRY_CIPHER_MODE_CBC 16.
Proof.
  intros c0 k c1 v c2 p Eo Ek Ev Hblk. cbn in *.
  unfold Toy.open in Eo. cbn in Eo. injection Eo as <-.
  unfold Toy.setkey in Ek. destruct (length k =? 16)%nat; [|done].
  injection Ek as <-. cbn in Ev.
  unfold Toy.setiv in Ev. destruct (length v =? 16)%nat; [|done].
  injection Ev as <-.
  apply Nat.eqb_eq in Hblk.
  exists (Toy.mkC (Some k)
            (Some (ToyChained.advance v
                     (ToyChained.chain_encrypt (ToyChained.chain v) p)))),
         (ToyChained.chain_encrypt (ToyChained.chain v) p),
         (Toy.mkC (Some k)
            (Some (ToyChained.advance v
                     (ToyChained.chain_encrypt (ToyChained.chain v) p)))).
  unfold ToyChained.encrypt, ToyChained.decrypt. cbn.
  rewrite length_chain_encrypt, Hblk, chain_decrypt_encrypt. done.
Qed.

Lemma null0_cipher_inverts :
  cipher_inverts (GC := Toy.gcrypt_null0) Toy.GCRY_CIPHER_AES128
    Toy.GCRY_CIPHER_MODE_CBC 16.
Proof. exact toy_cipher_inverts. Qed.

(** The round trip of the specification fails in two ways over libraries
    whose decryption inverts their encryption.  Over the cipher that
    chains, decrypting on the handle that encrypted gives other bytes than
    the plaintext: the chaining value has advanced.  Over the allocator
    that answers [NULL] to a request for no bytes, the round trip of the
    empty plaintext raises the allocation failure of encrypt. *)
Lemma cipher_roundtrip_fails :
  (cipher_inverts (GC := ToyChained.gcrypt) Toy.GCRY_CIPHER_AES128
     Toy.GCRY_CIPHER_MODE_CBC 16 ∧
   ¬ roundtrip_gives_back (GC := ToyChained.gcrypt) (LH := Toy.host)
       Toy.GCRY_CIPHER_AES128 Toy.GCRY_CIPHER_MODE_CBC 16) ∧
  (cipher_inverts (GC := Toy.gcrypt_null0) Toy.GCRY_CIPHER_AES128
     Toy.GCRY_CIPHER_MODE_CBC 16 ∧
   ¬ roundtrip_gives_back (GC := Toy.gcrypt_null0) (LH := Toy.host)
       Toy.GCRY_CIPHER_AES128 Toy.GCRY_CIPHER_MODE_CBC 16).
Proof.
  split; (split; [first [ exact chained_cipher_inverts
                        | exact null0_cipher_inverts ]|]);
    intros H.
  - specialize (H Toy.world0 (Toy.zeros 16) (Toy.zeros 16) ToyChained.one
                  (Toy.mkC None None)
                  (Toy.mkC (Some (Toy.zeros 16)) None)
                  (Toy.mkC (Some (Toy.zeros 16)) (Some (Toy.zeros 16)))
                  eq_refl eq_refl eq_refl eq_refl).
    vm_compute in H. discriminate H.
  - specialize (H Toy.world0 (Toy.zeros 16) (Toy.zeros 16) []
                  (Toy.mkC None None)
                  (Toy.mkC (Some (Toy.zeros 16)) None)
                  (Toy.mkC (Some (Toy.zeros 16)) (Some (Toy.zeros 16)))
                  eq_refl eq_refl eq_refl eq_refl).
    vm_compute in H. discriminate H.
Qed.



Lemma finalize_twice_witness :
  (∃ w', lua_method (GC := Toy.gcrypt) (LH := Toy.host) 0 "__gc" []
           (Toy.ready Toy.host) = Ok [] w' ∧
         lua_method (LH := Toy.host) 0 "__gc" [] w'
           = Crash "gcry_cipher_close of a handle that is not open") ∧
  (∃ w', lua_method (GC := Toy.gcrypt) (LH := Toy.host) 0 "__gc" []
           Toy.hashing = Ok [] w' ∧
         lua_method (LH := Toy.host) 0 "__gc" [] w'
           = Crash "gcry_md_close of a handle that is not open").
Proof.
  split.
  - destruct (proj1 (finalize_twice_closes_twice (GC := Toy.gcrypt)
                       (LH := Toy.host) (Toy.ready Toy.host) 0 0))
      as (w' & H1 & _ & _ & _ & H2).
    + vm_compute. reflexivity.
    + eexists. vm_compute. reflexivity.
    + exists w'. split; assumption.
  - destruct (proj2 (finalize_twice_closes_twice (GC := Toy.gcrypt)
                       (LH := Toy.host) Toy.hashing 0 0))
      as (w' & H1 & _ & _ & _ & H2).
    + vm_compute. reflexivity.
    + eexists. vm_compute. reflexivity.
    + exists w'. split; assumption.
Defined.

Lemma method_after_finalize_witness :
  (∃ w', lua_method (GC := Toy.gcrypt) (LH := Toy.host) 0 "__gc" []
           (Toy.ready Toy.host) = Ok [] w' ∧
         lua_method (LH := Toy.host) 0 "setkey" [LString (Toy.zeros 16)] w'
           = Crash "cipher handle used after gcry_cipher_close") ∧
  (∃ w', lua_method (GC := Toy.gcrypt) (LH := Toy.host) 0 "__gc" []
           Toy.hashing = Ok [] w' ∧
         lua_method (LH := Toy.host) 0 "write" [LString Toy.abc] w'
           = Crash "digest handle used after gcry_md_close").
Proof.
  split.
  - destruct (proj1 (method_after_finalize (GC := Toy.gcrypt)
                       (LH := Toy.host) (Toy.ready Toy.host) 0 0))
      as (w' & H1 & _ & _ & H2).
    + vm_compute. reflexivity.
    + eexists. vm_compute. reflexivity.
    + exists w'. split; [assumption|]. apply (H2 (Toy.zeros 16)).
  - destruct (proj2 (method_after_finalize (GC := Toy.gcrypt)
                       (LH := Toy.host) Toy.hashing 0 0))
      as (w' & H1 & _ & _ & H2).
    + vm_compute. reflexivity.
    + eexists. vm_compute. reflexivity.
    + exists w'. split; [assumption|]. apply (H2 Toy.abc).
Defined.

Lemma constructor_outcomes_witness :
  (∃ w', lua_call (GC := Toy.gcrypt) (lgcrypt_cipher_open (LH := Toy.host))
           [LInteger 0; LInteger 0] Toy.world0
           = Raise (cipher_open_error Toy.GPG_ERR_CIPHER_ALGO) (leave w') ∧
         cipher_at w' 0 = Some (mkCipher None None)) ∧
  (∃ w', lua_call (GC := Toy.gcrypt) (lgcrypt_hash_open (LH := Toy.host))
           [LInteger Toy.GCRY_MD_SHA256] Toy.world0 = Ok [LUserdata 0] w' ∧
         hash_at w' 0 = Some (mkHash (Some 0%nat))).
Proof.
  split.
  - destruct (proj1 (proj1 (constructor_outcomes (GC := Toy.gcrypt)
                       (LH := Toy.host) Toy.world0) 0 0
                       Toy.GPG_ERR_CIPHER_ALGO (Toy.mkC None None)
                       eq_refl eq_refl))
      as (w' & _ & H1 & _ & _ & H2 & _).
    + discriminate.
    + exists w'. split; assumption.
  - destruct (proj2 (proj2 (constructor_outcomes (GC := Toy.gcrypt)
                       (LH := Toy.host) Toy.world0) Toy.GCRY_MD_SHA256 None
                       GPG_ERR_NO_ERROR (Toy.mkMd Toy.GCRY_MD_SHA256 false None [])
                       eq_refl eq_refl))
      as (w' & H1 & H2 & _).
    + reflexivity.
    + exists w'. split; assumption.
Defined.

Lemma crypt_length_witness :
  ∃ ct, [LString (rev (Toy.abc ++ Toy.zeros 13))] = [LString ct] ∧
        length ct = 16%nat.
Proof.
  destruct (crypt_length (GC := Toy.gcrypt) (LH := Toy.host) Enc
              (Toy.ready Toy.host) (LUserdata 0) (Toy.abc ++ Toy.zeros 13) []
              [LString (rev (Toy.abc ++ Toy.zeros 13))]
              (Toy.after (lua_call (GC := Toy.gcrypt)
                 (crypt_call (LH := Toy.host) Enc)
                 [LUserdata 0; LString (Toy.abc ++ Toy.zeros 13)]
                 (Toy.ready Toy.host))))
    as (u & hd & a & ct & _ & Hvs & Hlen & _).
  - vm_compute. reflexivity.
  - exists ct. split; assumption.
Defined.


Lemma cipher_roundtrip_witness :
  (∃ w', roundtrip_on_second_handle (GC := ToyChained.gcrypt) (LH := Toy.host)
           Toy.GCRY_CIPHER_AES128 Toy.GCRY_CIPHER_MODE_CBC
           (Toy.zeros 16) (Toy.zeros 16) ToyChained.one
           (Toy.world0 (GC := ToyChained.gcrypt))
         = Ok [LString ToyChained.one] w') ∧
  result_of (roundtrip (GC := ToyChained.gcrypt) (LH := Toy.host)
               Toy.GCRY_CIPHER_AES128 Toy.GCRY_CIPHER_MODE_CBC
               (Toy.zeros 16) (Toy.zeros 16) ToyChained.one
               (Toy.world0 (GC := ToyChained.gcrypt)))
  = Some (inl [LString (Toy.zeros 16)]).
Proof.
  destruct (cipher_roundtrip (GC := ToyChained.gcrypt) (LH := Toy.host)
              (Toy.world0 (GC := ToyChained.gcrypt))
              Toy.GCRY_CIPHER_AES128 Toy.GCRY_CIPHER_MODE_CBC 16
              (Toy.zeros 16) (Toy.zeros 16) ToyChained.one
              (Toy.mkC None None)
              (Toy.mkC (Some (Toy.zeros 16)) None)
              (Toy.mkC (Some (Toy.zeros 16)) (Some (Toy.zeros 16))))
    as (c3 & ct & Eenc & Htwo & Hone).
  - exact chained_cipher_inverts.
  - exact toy_host_has_memory.
  - intros h. reflexivity.
  - reflexivity.
  - reflexivity.
  - reflexivity.
  - reflexivity.
  - split; [exact Htwo|]. rewrite Hone.
    vm_compute in Eenc. injection Eenc as <- <-. vm_compute. reflexivity.
Defined.

Lemma digest_determinism_witness :
  result_of (digest_of (GC := Toy.gcrypt) (LH := Toy.host) Toy.GCRY_MD_SHA256
               [[x61; x62]; [x63]] Toy.world0)
  = result_of (digest_of (GC := Toy.gcrypt) (LH := Toy.host) Toy.GCRY_MD_SHA256
               [[x61]; []; [x62; x63]] (Toy.ready Toy.host)).
Proof.
  apply (digest_determinism (GC := Toy.gcrypt) (LH := Toy.host)
           Toy.GCRY_MD_SHA256 [[x61; x62]; [x63]] [[x61]; []; [x62; x63]]
           Toy.world0 (Toy.ready Toy.host)).
  - exact toy_md_write_streams.
  - exact toy_host_has_memory.
  - discriminate.
  - discriminate.
  - reflexivity.
Defined.

Lemma crypt_empty_input_witness :
  ∃ w', lua_call (GC := Toy.gcrypt_null0) (crypt_call (LH := Toy.host) Dec)
          [LUserdata 0; LString []] Toy.ready_null0
        = Raise (ErrMsg "Failed to allocate memory for plaintext" []) w' ∧
        calls w' = calls Toy.ready_null0 ++ [Ev_malloc 0 None].
Proof.
  destruct (proj1 (crypt_empty_input (GC := Toy.gcrypt_null0) (LH := Toy.host)
              Dec Toy.ready_null0 0 0 None
              (Toy.mkC (Some (Toy.zeros 16)) (Some (Toy.zeros 16)))
              ltac:(vm_compute; reflexivity) ltac:(vm_compute; reflexivity)))
    as (w' & Hrun & _ & Hcalls).
  - vm_compute. reflexivity.
  - exists w'. split; assumption.
Defined.

#[local] Existing Instance ToyHeader.header.
#[local] Existing Instance ToyHeader.room.
#[local] Existing Instance ToyHeader.lua53.

Lemma toy_digest_fits : digest_fits (GC := Toy.gcrypt).
Proof.
  intros c algo d c' H.
  change (Toy.md_read c algo = (Some d, c')) in H.
  change (Toy.md_dlen algo ≤ length d)%nat.
  unfold Toy.md_read in H.
  destruct (algo =? Toy.m_algo c); [|done]. injection H as <- <-.
  rewrite length_take, !length_app. cbn [length].
  unfold Toy.md_dlen. destruct (algo =? Toy.GCRY_MD_SHA256); lia.
Qed.

Lemma toy_world0_well_formed : well_formed (GC := Toy.gcrypt) Toy.world0.
Proof. split; intros *; vm_compute; discriminate. Qed.

Lemma toy_world0_unshared : unshared (GC := Toy.gcrypt) Toy.world0.
Proof. split; intros * _ H; vm_compute in H; discriminate. Qed.

Lemma toy_world0_owned : owned (GC := Toy.gcrypt) Toy.world0.
Proof. split; intros hd [x H]; vm_compute in H; discriminate. Qed.

Lemma cipher_config_outcomes_witness :
  ∃ w',
    lua_call (GC := Toy.gcrypt) (lgcrypt_cipher_setkey (LH := Toy.host))
      [LUserdata 0; LString (Toy.zeros 16)] (Toy.ready Toy.host) = Ok [] w' ∧
    calls w' = calls (Toy.ready Toy.host) ++ [Ev_cipher_setkey 0 (Toy.zeros 16)].
Proof.
  destruct (cipher_config_outcomes (GC := Toy.gcrypt) (LH := Toy.host)
              (SetKey (Toy.zeros 16)) (Toy.ready Toy.host) 0 0 None
              (Toy.mkC (Some (Toy.zeros 16)) (Some (Toy.zeros 16))))
    as (w' & Hrun & _ & _ & _ & Hcalls).
  - vm_compute. reflexivity.
  - vm_compute. reflexivity.
  - exists w'. split; [exact Hrun | exact Hcalls].
Defined.

Lemma hash_setkey_outcomes_witness :
  ∃ w',
    lua_call (GC := Toy.gcrypt) (lgcrypt_hash_setkey (LH := Toy.host))
      [LUserdata 0; LString Toy.abc] Toy.hashing
      = Raise (ErrMsg "gcry_md_setkey() failed with %s" ["Failure"%string]) w' ∧
    udata (lua w') = udata (lua Toy.hashing).
Proof.
  destruct (hash_setkey_outcomes (GC := Toy.gcrypt) (LH := Toy.host)
              Toy.hashing 0 0 (Toy.mkMd Toy.GCRY_MD_SHA256 false None []) Toy.abc)
    as (w' & Hrun & _ & Hud & _).
  - vm_compute. reflexivity.
  - vm_compute. reflexivity.
  - exists w'. split; [exact Hrun | exact Hud].
Defined.

Lemma hash_update_never_fails_witness :
  ∃ w',
    lua_call (GC := Toy.gcrypt) (lgcrypt_hash_write (LH := Toy.host))
      [LUserdata 0; LString Toy.abc] Toy.hashing = Ok [] w' ∧
    calls w' = calls Toy.hashing ++ [Ev_md_write 0 Toy.abc].
Proof.
  destruct (hash_update_never_fails (GC := Toy.gcrypt) (LH := Toy.host)
              (MdWrite Toy.abc) Toy.hashing 0 0
              (Toy.mkMd Toy.GCRY_MD_SHA256 false None []))
    as (w' & Hrun & _ & _ & Hcalls).
  - vm_compute. reflexivity.
  - vm_compute. reflexivity.
  - exists w'. split; [exact Hrun | exact Hcalls].
Defined.

Lemma methods_reject_other_objects_witness :
  lua_call (GC := Toy.gcrypt) (lgcrypt_cipher_encrypt (LH := Toy.host))
    [LUserdata 0; LString (Toy.zeros 16)] Toy.hashing
    = Raise (ErrArg 1 "gcrypt.Cipher")
        (leave (enter [LUserdata 0; LString (Toy.zeros 16)] Toy.hashing)) ∧
  lua_call (GC := Toy.gcrypt) lgcrypt_hash___gc
    [LUserdata 0] (Toy.ready Toy.host)
    = Raise (ErrArg 1 "gcrypt.Hash")
        (leave (enter [LUserdata 0] (Toy.ready Toy.host))).
Proof.
  split.
  - apply (proj1 (methods_reject_other_objects (GC := Toy.gcrypt)
                    (LH := Toy.host) lgcrypt_cipher_encrypt
                    [LUserdata 0; LString (Toy.zeros 16)] Toy.hashing)).
    + cbn. tauto.
    + intros u [= <-]. eexists. vm_compute. reflexivity.
  - apply (proj2 (methods_reject_other_objects (GC := Toy.gcrypt)
                    (LH := Toy.host) lgcrypt_hash___gc
                    [LUserdata 0] (Toy.ready Toy.host))).
    + cbn. tauto.
    + intros u [= <-]. eexists. vm_compute. reflexivity.
Defined.

Lemma argument_errors_change_nothing_witness :
  udata (lua (Toy.after (lua_call (GC := Toy.gcrypt)
                (lgcrypt_hash_read (LH := Toy.host))
                [LUserdata 0; LString Toy.abc] Toy.hashing)))
    = udata (lua Toy.hashing).
Proof.
  destruct (argument_errors_change_nothing (GC := Toy.gcrypt) (LH := Toy.host)
              lgcrypt_hash_read [LUserdata 0; LString Toy.abc] Toy.hashing
              2 "number expected"
              (Toy.after (lua_call (GC := Toy.gcrypt)
                 (lgcrypt_hash_read (LH := Toy.host))
                 [LUserdata 0; LString Toy.abc] Toy.hashing)))
    as (Hud & _ & _).
  - cbn. tauto.
  - vm_compute. reflexivity.
  - exact Hud.
Defined.

Lemma string_methods_check_their_argument_witness :
  lua_call (GC := Toy.gcrypt) (lgcrypt_cipher_encrypt (LH := Toy.host))
    [LUserdata 0] (Toy.ready Toy.host)
    = Raise (ErrArg 2 "string expected")
        (leave (enter [LUserdata 0] (Toy.ready Toy.host))) ∧
  lua_call (GC := Toy.gcrypt) (lgcrypt_hash_write (LH := Toy.host))
    [LUserdata 0; LNil] Toy.hashing
    = Raise (ErrArg 2 "string expected")
        (leave (enter [LUserdata 0; LNil] Toy.hashing)).
Proof.
  split.
  - apply (proj1 (string_methods_check_their_argument (GC := Toy.gcrypt)
                    (LH := Toy.host) lgcrypt_cipher_encrypt [LUserdata 0]
                    (Toy.ready Toy.host) 0 eq_refl I)).
    + cbn. tauto.
    + eexists. vm_compute. reflexivity.
  - apply (proj2 (string_methods_check_their_argument (GC := Toy.gcrypt)
                    (LH := Toy.host) lgcrypt_hash_write [LUserdata 0; LNil]
                    Toy.hashing 0 eq_refl I)).
    + cbn. tauto.
    + eexists. vm_compute. reflexivity.
Defined.

Lemma constructors_do_not_alias_witness :
  (∃ hd1 hd2,
     hd1 ≠ hd2 ∧
     cipher_is_open (GC := Toy.gcrypt)
       (Toy.after (lua_call (lgcrypt_cipher_open (LH := Toy.host))
          [LInteger Toy.GCRY_CIPHER_AES128; LInteger Toy.GCRY_CIPHER_MODE_CBC]
          (Toy.after (lua_call (lgcrypt_cipher_open (LH := Toy.host))
             [LInteger Toy.GCRY_CIPHER_AES128; LInteger Toy.GCRY_CIPHER_MODE_CBC]
             Toy.world0)))) 0 hd1 ∧
     cipher_is_open (GC := Toy.gcrypt)
       (Toy.after (lua_call (lgcrypt_cipher_open (LH := Toy.host))
          [LInteger Toy.GCRY_CIPHER_AES128; LInteger Toy.GCRY_CIPHER_MODE_CBC]
          (Toy.after (lua_call (lgcrypt_cipher_open (LH := Toy.host))
             [LInteger Toy.GCRY_CIPHER_AES128; LInteger Toy.GCRY_CIPHER_MODE_CBC]
             Toy.world0)))) 1 hd2) ∧
  (∃ hd1 hd2,
     hd1 ≠ hd2 ∧
     hash_is_open (GC := Toy.gcrypt)
       (Toy.after (lua_call (lgcrypt_hash_open (LH := Toy.host))
          [LInteger Toy.GCRY_MD_SHA256] Toy.hashing)) 0 hd1 ∧
     hash_is_open (GC := Toy.gcrypt)
       (Toy.after (lua_call (lgcrypt_hash_open (LH := Toy.host))
          [LInteger Toy.GCRY_MD_SHA256] Toy.hashing)) 1 hd2).
Proof.
  split.
  - destruct (proj1 (constructors_do_not_alias (GC := Toy.gcrypt) (LH := Toy.host)
                [LInteger Toy.GCRY_CIPHER_AES128; LInteger Toy.GCRY_CIPHER_MODE_CBC]
                [LInteger Toy.GCRY_CIPHER_AES128; LInteger Toy.GCRY_CIPHER_MODE_CBC]
                Toy.world0 0
                (Toy.after (lua_call (lgcrypt_cipher_open (LH := Toy.host))
                   [LInteger Toy.GCRY_CIPHER_AES128;
                    LInteger Toy.GCRY_CIPHER_MODE_CBC] Toy.world0))
                1
                (Toy.after (lua_call (lgcrypt_cipher_open (LH := Toy.host))
                   [LInteger Toy.GCRY_CIPHER_AES128;
                    LInteger Toy.GCRY_CIPHER_MODE_CBC]
                   (Toy.after (lua_call (lgcrypt_cipher_open (LH := Toy.host))
                      [LInteger Toy.GCRY_CIPHER_AES128;
                       LInteger Toy.GCRY_CIPHER_MODE_CBC] Toy.world0))))))
      as (hd1 & hd2 & _ & Hne & H1 & H2).
    + vm_compute. reflexivity.
    + vm_compute. reflexivity.
    + exists hd1, hd2. split; [exact Hne|]. split; [exact H1 | exact H2].
  - destruct (proj2 (constructors_do_not_alias (GC := Toy.gcrypt) (LH := Toy.host)
                [LInteger Toy.GCRY_MD_SHA256] [LInteger Toy.GCRY_MD_SHA256]
                Toy.world0 0 Toy.hashing 1
                (Toy.after (lua_call (lgcrypt_hash_open (LH := Toy.host))
                   [LInteger Toy.GCRY_MD_SHA256] Toy.hashing))))
      as (hd1 & hd2 & _ & Hne & H1 & H2).
    + vm_compute. reflexivity.
    + vm_compute. reflexivity.
    + exists hd1, hd2. split; [exact Hne|]. split; [exact H1 | exact H2].
Defined.

Lemma open_then_collect_restores_witness :
  (∃ w2,
     lua_collect (GC := Toy.gcrypt) (LH := Toy.host) 0
       (Toy.after (lua_call (lgcrypt_cipher_open (LH := Toy.host))
          [LInteger Toy.GCRY_CIPHER_AES128; LInteger Toy.GCRY_CIPHER_MODE_CBC]
          Toy.world0)) = Ok tt w2 ∧
     gcry w2 = gcry Toy.world0) ∧
  (∃ w2,
     lua_collect (GC := Toy.gcrypt) (LH := Toy.host) 0 Toy.hashing = Ok tt w2 ∧
     gcry w2 = gcry Toy.world0).
Proof.
  split.
  - destruct (proj1 (open_then_collect_restores (GC := Toy.gcrypt) (LH := Toy.host)
                [LInteger Toy.GCRY_CIPHER_AES128; LInteger Toy.GCRY_CIPHER_MODE_CBC]
                Toy.world0 0
                (Toy.after (lua_call (lgcrypt_cipher_open (LH := Toy.host))
                   [LInteger Toy.GCRY_CIPHER_AES128;
                    LInteger Toy.GCRY_CIPHER_MODE_CBC] Toy.world0))))
      as (hd & w2 & Hrun & _ & Hg & _).
    + vm_compute. reflexivity.
    + exists w2. split; [exact Hrun | exact Hg].
  - destruct (proj2 (open_then_collect_restores (GC := Toy.gcrypt) (LH := Toy.host)
                [LInteger Toy.GCRY_MD_SHA256] Toy.world0 0 Toy.hashing))
      as (hd & w2 & Hrun & _ & Hg & _).
    + vm_compute. reflexivity.
    + exists w2. split; [exact Hrun | exact Hg].
Defined.

Lemma init_returns_once_witness :
  ∃ w',
    lua_call (GC := Toy.gcrypt) lgcrypt_init []
      (Toy.after (lua_call (lgcrypt_hash_open (LH := Toy.host))
         [LInteger Toy.GCRY_MD_SHA256]
         (Toy.after (lua_call lgcrypt_init [] Toy.world0))))
    = Raise (ErrMsg "libgcrypt was already initialized" []) w'.
Proof.
  destruct (init_returns_once (GC := Toy.gcrypt) (LH := Toy.host)
              [] Toy.world0 []
              (Toy.after (lua_call lgcrypt_init [] Toy.world0))
              (Toy.after (lua_call (lgcrypt_hash_open (LH := Toy.host))
                 [LInteger Toy.GCRY_MD_SHA256]
                 (Toy.after (lua_call lgcrypt_init []
                    Toy.world0))))
              [])
    as (w' & Hrun & _).
  - vm_compute. reflexivity.
  - apply rtc_once.
    apply (step_returns (lgcrypt_hash_open (LH := Toy.host))
             [LInteger Toy.GCRY_MD_SHA256] _ [LUserdata 0]).
    + cbn. tauto.
    + vm_compute. reflexivity.
  - exists w'. exact Hrun.
Defined.

Lemma scripts_without_finalizer_calls_are_safe_witness :
  well_formed (GC := Toy.gcrypt) Toy.hashing ∧
  ∀ u, ∃ w', lua_collect (GC := Toy.gcrypt) (LH := Toy.host) u Toy.hashing
             = Ok tt w'.
Proof.
  destruct (scripts_without_finalizer_calls_are_safe (GC := Toy.gcrypt)
              (LH := Toy.host) Toy.world0 Toy.hashing)
    as ([Hw _] & _ & Hcollect).
  - exact toy_digest_fits.
  - exact toy_world0_well_formed.
  - exact toy_world0_unshared.
  - apply rtc_once.
    apply (safe_returns (lgcrypt_hash_open (LH := Toy.host))
             [LInteger Toy.GCRY_MD_SHA256] _ [LUserdata 0]).
    + cbn. tauto.
    + intros u Hu. apply list_elem_of_singleton in Hu. discriminate Hu.
    + vm_compute. reflexivity.
  - split; [exact Hw | exact Hcollect].
Defined.

Lemma setfuncs_last_entry_wins_witness :
  (∃ t',
     Registration.luaL_setfuncs (Registration.array lgcrypt) 0 ToyHeader.state1
     = Registration.Ok tt
         (Registration.mkState [Registration.TTable 0] (<[0%nat := t']> {[ 0%nat := ∅ ]}) ∅) ∧
     t' !! "Cipher" = Some (Registration.TFunction lgcrypt_cipher_open)) ∧
  Registration.luaL_setfuncs (Registration.array lgcrypt) 1 ToyHeader.state1
  = Registration.Raise
      (ErrMsg "nup == 0 is not supported by this compat function" []).
Proof.
  split.
  - destruct (setfuncs_last_entry_wins (GC := Toy.gcrypt)
                (Registration.array lgcrypt) 0 ToyHeader.state1 [] 0 ∅)
      as (t' & Hrun & Ht).
    + intros s. reflexivity.
    + reflexivity.
    + reflexivity.
    + apply terminated_array.
    + exists t'. split; [exact Hrun|]. rewrite Ht. reflexivity.
  - apply (setfuncs_last_entry_wins (GC := Toy.gcrypt)
             (Registration.array lgcrypt) 1 ToyHeader.state1 [] 0 ∅).
    + intros s. reflexivity.
    + reflexivity.
    + reflexivity.
    + apply terminated_array.
Defined.

Lemma luaopen_registers_methods_witness :
  ∃ s',
    Registration.luaopen_luagcrypt ToyHeader.state0 = Registration.Ok 1%nat s' ∧
    Registration.index s' "gcrypt.Cipher" "encrypt"
    = Some (Registration.TFunction lgcrypt_cipher_encrypt) ∧
    Registration.index s' "gcrypt.Hash" "__gc"
    = Some (Registration.TFunction lgcrypt_hash___gc) ∧
    Registration.index s' "gcrypt.Cipher" "__name"
    = Some (Registration.TString "gcrypt.Cipher") ∧
    Registration.index s' "gcrypt.Cipher" "close" = None.
Proof.
  destruct (luaopen_registers_methods (GC := Toy.gcrypt) (LH := Toy.host)
              ToyHeader.state0)
    as (s' & r & m & Hrun & _ & _ & _ & _ & _ & _ & _ & _ & _ & _ & _ & _ & Hindex & _).
  - intros s. reflexivity.
  - reflexivity.
  - reflexivity.
  - exists s'. split; [exact Hrun|]. split; [|split; [|split]].
    + apply (Hindex (UCipher (mkCipher None None)) "encrypt"). discriminate.
    + apply (Hindex (UHash (mkHash None)) "__gc"). discriminate.
    + apply (Hindex (UCipher (mkCipher None None)) "__name"). discriminate.
    + apply (Hindex (UCipher (mkCipher None None)) "close"). discriminate.
Defined.

Lemma luaopen_again_keeps_metatables_witness :
  ∃ r m,
    Registration.luaopen_luagcrypt
      (ToyHeader.state_of (Registration.luaopen_luagcrypt ToyHeader.state0))
    = Registration.Ok 1%nat
        (Registration.mkState
           (Registration.stack
              (ToyHeader.state_of (Registration.luaopen_luagcrypt ToyHeader.state0))
            ++ [Registration.TTable r])
           (<[r := m]>
              (Registration.tables
                 (ToyHeader.state_of
                    (Registration.luaopen_luagcrypt ToyHeader.state0))))
           (Registration.registry
              (ToyHeader.state_of
                 (Registration.luaopen_luagcrypt ToyHeader.state0)))) ∧
    m !! "Cipher" = Some (Registration.TFunction lgcrypt_cipher_open) ∧
    dom m = Registration.module_names.
Proof.
  destruct (luaopen_again_keeps_metatables (GC := Toy.gcrypt) (LH := Toy.host)
              ToyHeader.state0
              (ToyHeader.state_of (Registration.luaopen_luagcrypt ToyHeader.state0)))
    as (r0 & r & m & _ & _ & _ & Hrun & _ & Hcipher & _ & _ & _ & _ & _ & _ & _
        & Hdom).
  - intros s. reflexivity.
  - reflexivity.
  - reflexivity.
  - reflexivity.
  - exists r, m. split; [exact Hrun|]. split; [exact Hcipher | exact Hdom].
Defined.

Lemma contexts_are_not_leaked_witness :
  md_ctx (gcry (Toy.after (lua_collect (GC := Toy.gcrypt) (LH := Toy.host) 0
                             Toy.hashing))) = ∅.
Proof.
  destruct (contexts_are_not_leaked (GC := Toy.gcrypt) (LH := Toy.host)
              Toy.world0
              (Toy.after (lua_collect (GC := Toy.gcrypt) (LH := Toy.host) 0
                            Toy.hashing)))
    as [_ Hempty].
  - exact toy_digest_fits.
  - exact toy_world0_well_formed.
  - exact toy_world0_unshared.
  - exact toy_world0_owned.
  - apply (rtc_l _ _ Toy.hashing).
    + apply (safe_returns (lgcrypt_hash_open (LH := Toy.host))
               [LInteger Toy.GCRY_MD_SHA256] _ [LUserdata 0]).
      * cbn. tauto.
      * intros u Hu. apply list_elem_of_singleton in Hu. discriminate Hu.
      * vm_compute. reflexivity.
    + apply rtc_once. apply (safe_collects 0). vm_compute. reflexivity.
  - apply Hempty. vm_compute. reflexivity.
Defined.

Lemma toy_world0_no_pending : no_pending (GC := Toy.gcrypt) Toy.world0.
Proof. intros u c H. vm_compute in H. discriminate H. Qed.

Lemma blocks_are_not_leaked_witness :
  heap (gcry (Toy.after (lua_call (GC := Toy.gcrypt)
                           (lgcrypt_cipher_encrypt (LH := Toy.host))
                           [LUserdata 0; LString (Toy.zeros 16)]
                           (Toy.ready Toy.host)))) = ∅.
Proof.
  destruct (blocks_are_not_leaked (GC := Toy.gcrypt) (LH := Toy.host)
              Toy.world0
              (Toy.after (lua_call (GC := Toy.gcrypt)
                            (lgcrypt_cipher_encrypt (LH := Toy.host))
                            [LUserdata 0; LString (Toy.zeros 16)]
                            (Toy.ready Toy.host))))
    as [Hheap _].
  - exact toy_host_has_memory.
  - exact toy_digest_fits.
  - exact toy_world0_well_formed.
  - exact toy_world0_unshared.
  - exact toy_world0_no_pending.
  - apply (rtc_l _ _
             (Toy.after (lua_call (lgcrypt_cipher_open (LH := Toy.host))
                [LInteger Toy.GCRY_CIPHER_AES128;
                 LInteger Toy.GCRY_CIPHER_MODE_CBC] Toy.world0))).
    { apply (safe_returns (lgcrypt_cipher_open (LH := Toy.host))
               [LInteger Toy.GCRY_CIPHER_AES128;
                LInteger Toy.GCRY_CIPHER_MODE_CBC] _ [LUserdata 0]).
      - cbn. tauto.
      - intros u Hu. apply elem_of_cons in Hu as [Hu|Hu]; [discriminate Hu|].
        apply list_elem_of_singleton in Hu. discriminate Hu.
      - vm_compute. reflexivity. }
    apply (rtc_l _ _
             (Toy.after (lua_call (lgcrypt_cipher_setkey (LH := Toy.host))
                [LUserdata 0; LString (Toy.zeros 16)]
                (Toy.after (lua_call (lgcrypt_cipher_open (LH := Toy.host))
                   [LInteger Toy.GCRY_CIPHER_AES128;
                    LInteger Toy.GCRY_CIPHER_MODE_CBC] Toy.world0))))).
    { apply (safe_returns (lgcrypt_cipher_setkey (LH := Toy.host))
               [LUserdata 0; LString (Toy.zeros 16)] _ []).
      - cbn. tauto.
      - intros u Hu. apply elem_of_cons in Hu as [Hu|Hu].
        + injection Hu as ->. left. eexists _, _. vm_compute. reflexivity.
        + apply list_elem_of_singleton in Hu. discriminate Hu.
      - vm_compute. reflexivity. }
    apply (rtc_l _ _ (Toy.ready Toy.host)).
    { apply (safe_returns (lgcrypt_cipher_setiv (LH := Toy.host))
               [LUserdata 0; LString (Toy.zeros 16)] _ []).
      - cbn. tauto.
      - intros u Hu. apply elem_of_cons in Hu as [Hu|Hu].
        + injection Hu as ->. left. eexists _, _. vm_compute. reflexivity.
        + apply list_elem_of_singleton in Hu. discriminate Hu.
      - vm_compute. reflexivity. }
    apply rtc_once.
    apply (safe_returns (lgcrypt_cipher_encrypt (LH := Toy.host))
             [LUserdata 0; LString (Toy.zeros 16)] _ [LString (Toy.zeros 16)]).
    + cbn. tauto.
    + intros u Hu. apply elem_of_cons in Hu as [Hu|Hu].
      * injection Hu as ->. left. eexists _, _. vm_compute. reflexivity.
      * apply list_elem_of_singleton in Hu. discriminate Hu.
    + vm_compute. reflexivity.
  - exact Hheap.
Defined.

End OnToy.
